(** * Invoice-Assistant: the document reconciliation engine

    A shallow embedding of the server-side services of the repository
    (PairingService, SortingService, AnomalyDetector, AIService's retry
    loop, the BatchProcessor, the file names of PackageService, the
    cache of MemoryManager and the checks of FileService) together with
    the properties proved about them.

    Modelling conventions.
    - A JavaScript [number] that holds money is an exact rational ([Q]);
      a number that holds a count, a score or a time value is an integer
      ([Z]).
    - A JavaScript string is a [string] of UTF-8 bytes.  [toLowerCase]
      acts on the ASCII letters and leaves every other byte unchanged
      (which is what it does on CJK text).
    - A [Date] built by [new Date(y, m, d)] is the local midnight of that
      civil day.  The host time zone is taken to have a constant offset
      from UTC, so the offset cancels in every difference and comparison
      the services compute; [getTime] is the number of milliseconds of
      local time since 1970-01-01.
    - [new Date().getFullYear()] is the parameter [currentYear].
    - [Array.prototype.sort] is the stable sort the language standard
      requires; it is embedded as a stable insertion sort driven by the
      sign of the comparator.
    - [Set<string>] is a [gset string], a [Map<string, string>] that is
      only read by key is a [gmap string string], and a [Map] whose
      iteration order is observable is an association list kept in
      insertion order. *)

From Stdlib Require Import ZArith QArith Qabs Qround String Ascii List DecimalString.
From stdpp Require Import gmap strings list sorting.

Local Open Scope Z_scope.

(** ** JavaScript primitives used by the services *)
Module JS.

Definition isDigit (c : ascii) : bool :=
  let n := N_of_ascii c in (48 <=? n)%N && (n <=? 57)%N.

(** The longest prefix of decimal digits of [s], and what follows it. *)
Fixpoint splitDigits (s : string) : string * string :=
  match s with
  | EmptyString => (EmptyString, EmptyString)
  | String c r =>
      if isDigit c
      then let '(d, e) := splitDigits r in (String c d, e)
      else (EmptyString, s)
  end.

(** [Number(s)] for a string of decimal digits. *)
Definition Number (s : string) : Z :=
  fold_left (fun acc c => 10 * acc + (Z.of_N (N_of_ascii c) - 48))
            (list_ascii_of_string s) 0.

Definition lengthBetween (lo hi : nat) (s : string) : bool :=
  (lo <=? String.length s)%nat && (String.length s <=? hi)%nat.

Definition isEmpty (s : string) : bool :=
  match s with EmptyString => true | _ => false end.

(** A string is truthy when it is not empty. *)
Definition truthy (s : string) : bool := negb (isEmpty s).

Definition lowerAscii (c : ascii) : ascii :=
  let n := N_of_ascii c in
  if (65 <=? n)%N && (n <=? 90)%N then ascii_of_N (n + 32) else c.

Fixpoint toLowerCase (s : string) : string :=
  match s with
  | EmptyString => EmptyString
  | String c r => String (lowerAscii c) (toLowerCase r)
  end.

(** [s.includes(sub)] *)
Fixpoint includes (s sub : string) : bool :=
  String.prefix sub s ||
  match s with
  | EmptyString => false
  | String _ r => includes r sub
  end.

(** [parts.join(sep)] *)
Fixpoint join (sep : string) (parts : list string) : string :=
  match parts with
  | [] => EmptyString
  | [p] => p
  | p :: rest => String.append p (String.append sep (join sep rest))
  end.

(** [String(n)] for an integer. *)
Definition ofInt (n : Z) : string := NilZero.string_of_int (Z.to_int n).

(** [String(n).padStart(2, '0')] *)
Definition padStart2 (s : string) : string :=
  match String.length s with
  | O => "00"
  | S O => String "0" s
  | _ => s
  end.

(** [x.toFixed(2)]: the decimal numeral with two fraction digits that is
  nearest to [x], the larger one on a tie (taken on the absolute value,
  the sign written in front). *)
Definition toFixed2 (x : Q) : string :=
  let neg := negb (Qle_bool 0 x) in
  let a := Qabs x in
  let n := Qfloor (a * (100 # 1) + (1 # 2))%Q in
  let int := ofInt (n / 100) in
  let frac := padStart2 (ofInt (n mod 100)) in
  String.append (if neg then "-" else "")
    (String.append int (String.append "." frac)).

(** [xs.sort(cmp)], by the sign of the comparator: [nonpos a b] says
  that [cmp(a, b) <= 0]. *)
Section Sort.
Context {A : Type} (nonpos : A → A → bool).

Fixpoint insertSorted (x : A) (l : list A) : list A :=
  match l with
  | [] => [x]
  | y :: l' => if nonpos x y then x :: y :: l' else y :: insertSorted x l'
  end.

Definition sort (l : list A) : list A := foldr insertSorted [] l.
End Sort.

(** A [Map<K, V>] whose iteration order is observable: the entries in
  insertion order.  [mapSet] on a key that is present replaces the
  value in place. *)
Section OrderedMap.
Context {K V : Type} `{EqDecision K}.

Fixpoint mapGet (key : K) (m : list (K * V)) : option V :=
  match m with
  | [] => None
  | (k, v) :: rest => if decide (k = key) then Some v else mapGet key rest
  end.

Fixpoint mapSet (key : K) (v : V) (m : list (K * V)) : list (K * V) :=
  match m with
  | [] => [(key, v)]
  | (k, w) :: rest =>
      if decide (k = key) then (k, v) :: rest else (k, w) :: mapSet key v rest
  end.
End OrderedMap.

(** [if (!m.has(key)) m.set(key, []); m.get(key).push(x)] *)
Definition mapPush {K V : Type} `{EqDecision K} (key : K) (x : V)
    (m : list (K * list V)) : list (K * list V) :=
  mapSet key (default [] (mapGet key m) ++ [x]) m.

(** [s.split(sep)] for a one-character separator. *)
Fixpoint split (sep : ascii) (s : string) : list string :=
  match s with
  | EmptyString => [EmptyString]
  | String c r =>
      if Ascii.eqb c sep then EmptyString :: split sep r
      else match split sep r with
           | [] => [String c EmptyString]
           | p :: ps => String c p :: ps
           end
  end.

End JS.

(** ** Dates *)
Module JSDate.

Definition msPerDay : Z := 1000 * 60 * 60 * 24.

(** Day number of January 1st of year [y] (days since 1970-01-01). *)
Definition DayFromYear (y : Z) : Z :=
  365 * (y - 1970) + (y - 1969) / 4 - (y - 1901) / 100 + (y - 1601) / 400.

Definition InLeapYear (y : Z) : bool :=
  (y mod 4 =? 0) && (negb (y mod 100 =? 0) || (y mod 400 =? 0)).

(** Days before the first of month [mn] (0-based) in a common year. *)
Definition daysBeforeMonth (mn : Z) : Z :=
  nth (Z.to_nat mn) [0; 31; 59; 90; 120; 151; 181; 212; 243; 273; 304; 334] 0.

(** [MakeDay(year, month, date)]: months and days out of range carry
  over, as in [new Date(2024, 12, 0)]. *)
Definition MakeDay (year month date : Z) : Z :=
  let ym := year + month / 12 in
  let mn := month mod 12 in
  DayFromYear ym + daysBeforeMonth mn
  + (if InLeapYear ym && (2 <=? mn) then 1 else 0)
  + date - 1.

Record t := { getTime : Z }.

(** [new Date(year, monthIndex, day)]; a year from 0 to 99 means 1900 + year. *)
Definition make (year monthIndex day : Z) : t :=
  let yr := if (0 <=? year) && (year <=? 99) then 1900 + year else year in
  {| getTime := MakeDay yr monthIndex day * msPerDay |}.

(** The civil date of a day number. *)
Definition civil (dayNumber : Z) : Z * Z * Z :=
  let z := dayNumber + 719468 in
  let era := z / 146097 in
  let doe := z - era * 146097 in
  let yoe := (doe - doe / 1460 + doe / 36524 - doe / 146096) / 365 in
  let doy := doe - (365 * yoe + yoe / 4 - yoe / 100) in
  let mp := (5 * doy + 2) / 153 in
  let d := doy - (153 * mp + 2) / 5 + 1 in
  let m := if mp <? 10 then mp + 3 else mp - 9 in
  let y := yoe + era * 400 + (if m <=? 2 then 1 else 0) in
  (y, m, d).

Definition getFullYear (d : t) : Z := fst (fst (civil (getTime d / msPerDay))).
(** [getMonth() + 1] *)
Definition monthNumber (d : t) : Z := snd (fst (civil (getTime d / msPerDay))).
Definition getDate (d : t) : Z := snd (civil (getTime d / msPerDay)).

(** /^\d{1,2}\/\d{1,2}$/ followed by [split('/').map(Number)] *)
Definition matchMonthDay (s : string) : option (Z * Z) :=
  let '(m, r) := JS.splitDigits s in
  if JS.lengthBetween 1 2 m then
    match r with
    | String "/" r' =>
        let '(d, e) := JS.splitDigits r' in
        if JS.lengthBetween 1 2 d && JS.isEmpty e
        then Some (JS.Number m, JS.Number d) else None
    | _ => None
    end
  else None.

(** /^\d{4}<sep>\d{1,2}<sep>\d{1,2}$/ followed by [split(sep).map(Number)] *)
Definition matchYearMonthDay (sep : ascii) (s : string) : option (Z * Z * Z) :=
  let '(y, r) := JS.splitDigits s in
  if JS.lengthBetween 4 4 y then
    match r with
    | String c r1 =>
        if Ascii.eqb c sep then
          let '(m, r2) := JS.splitDigits r1 in
          if JS.lengthBetween 1 2 m then
            match r2 with
            | String c' r3 =>
                if Ascii.eqb c' sep then
                  let '(d, e) := JS.splitDigits r3 in
                  if JS.lengthBetween 1 2 d && JS.isEmpty e
                  then Some (JS.Number y, JS.Number m, JS.Number d) else None
                else None
            | EmptyString => None
            end
          else None
        else None
    | EmptyString => None
    end
  else None.

(** [parseDate], the same private method in PairingService,
  SortingService and AnomalyDetector. *)
Definition parseDate (currentYear : Z) (dateStr : string) : option t :=
  match matchMonthDay dateStr with
  | Some (month, day) => Some (make currentYear (month - 1) day)
  | None =>
      match matchYearMonthDay "-" dateStr with
      | Some (year, month, day) => Some (make year (month - 1) day)
      | None =>
          match matchYearMonthDay "/" dateStr with
          | Some (year, month, day) => Some (make year (month - 1) day)
          | None => None
          end
      end
  end.

(** [Math.floor(Math.abs(a.getTime() - b.getTime()) / (1000*60*60*24))] *)
Definition daysBetween (a b : t) : Z := Z.abs (getTime a - getTime b) / msPerDay.

End JSDate.

(** ** The data model (types/index.ts) *)

Inductive DocumentType := invoice | trip_sheet.
Inductive FileType := pdf | image.
Inductive InvoiceType := taxi | hotel | train | shipping | toll | consumables | other.
Inductive DocumentStatus := pending | processing | completed | error.

Global Instance DocumentType_eq_dec : EqDecision DocumentType.
Proof. solve_decision. Defined.
Global Instance InvoiceType_eq_dec : EqDecision InvoiceType.
Proof. solve_decision. Defined.
Global Instance DocumentStatus_eq_dec : EqDecision DocumentStatus.
Proof. solve_decision. Defined.

Record TripDetails := {
    platform : string;
    departure : string;
    destination : string;
    time : string;
    distanceKm : Q
  }.

Record DocumentData := {
    id : string;
    fileName : string;
    fileType : FileType;
    documentType : DocumentType;
    date : string;
    amount : Q;
    description : string;
    confidence : Z;
    invoiceNumber : option string;
    vendor : option string;
    taxAmount : option Q;
    invoiceType : option InvoiceType;
    tripDetails : option TripDetails;
    status : DocumentStatus;
    errorMessage : option string
  }.

Record PairingPair := {
    invoiceId : string;
    tripSheetId : string;
    pairConfidence : Z;
    matchReason : string
  }.

Record PairingResult := {
    pairs : list PairingPair;
    unmatchedInvoices : list string;
    unmatchedTripSheets : list string
  }.

Inductive WarningType := duplicate | amount_anomaly | date_gap | missing_pair.
Inductive Severity := low | medium | high.

Global Instance WarningType_eq_dec : EqDecision WarningType.
Proof. solve_decision. Defined.
Global Instance Severity_eq_dec : EqDecision Severity.
Proof. solve_decision. Defined.

Record Warning := {
    type : WarningType;
    message : string;
    documentIds : list string;
    severity : option Severity
  }.

Record SortingResult := {
    suggestedOrder : list string;
    grouping : list (InvoiceType * list string)
  }.

Record APIConfig := {
    endpoint : string;
    apiKey : string;
    model : string
  }.

Definition isInvoice (doc : DocumentData) : Prop := documentType doc = invoice.
Definition isTripSheet (doc : DocumentData) : Prop := documentType doc = trip_sheet.

Global Instance isInvoice_dec doc : Decision (isInvoice doc).
Proof. unfold isInvoice. apply _. Defined.
Global Instance isTripSheet_dec doc : Decision (isTripSheet doc).
Proof. unfold isTripSheet. apply _. Defined.

(** [documents.find(d => d.id === wanted)] *)
Definition findById (wanted : string) (documents : list DocumentData)
  : option DocumentData :=
  List.find (fun d => bool_decide (id d = wanted)) documents.

(** ** PairingService *)
Module PairingService.
Section WithClock.
Variable currentYear : Z.

Definition formatDate (d : JSDate.t) : string :=
  String.append (JS.ofInt (JSDate.monthNumber d))
    (String.append "/" (JS.ofInt (JSDate.getDate d))).

Definition checkAmountMatch (amount1 amount2 : Q) : bool * string :=
  let tolerance := (1 # 100)%Q in
  let diff := Qabs (amount1 - amount2) in
  if Qle_bool diff tolerance
  then (true, String.append "金额完全匹配("
                (String.append (JS.toFixed2 amount1) ")"))
  else (false, EmptyString).

Definition checkDateProximity (date1 date2 : string) : bool * Z * string :=
  match JSDate.parseDate currentYear date1, JSDate.parseDate currentYear date2 with
  | Some d1, Some d2 =>
      let diffDays := JSDate.daysBetween d1 d2 in
      if diffDays =? 0 then
        (true, 30, String.append "日期相同(" (String.append (formatDate d1) ")"))
      else if diffDays =? 1 then
        (true, 25, "日期相邻(相差1天)"%string)
      else if diffDays <=? 3 then
        (true, 20, String.append "日期接近(相差"
                     (String.append (JS.ofInt diffDays) "天)"))
      else if diffDays <=? 7 then
        (true, 10, String.append "日期较近(相差"
                     (String.append (JS.ofInt diffDays) "天)"))
      else (false, 0, EmptyString)
  | _, _ => (false, 0, EmptyString)
  end.

  (** The keyword table of [extractPlatformKeywords], in source order. *)
Definition platformMap : list (string * list string) :=
  [ ("滴滴", ["滴滴"; "didi"]);
    ("如祺", ["如祺"; "ruqi"]);
    ("曹操", ["曹操"; "caocao"]);
    ("高德", ["高德"; "amap"]);
    ("美团", ["美团"; "meituan"]);
    ("首汽", ["首汽"; "shouqi"]) ]%string.

Definition extractPlatformKeywords (platform : string) : list string :=
  platform ::
  match List.find (fun kv => JS.includes platform (fst kv)) platformMap with
  | Some kv => snd kv
  | None => []
  end.

Definition checkPlatformMatch (inv tripSheet : DocumentData) : bool * string :=
  match invoiceType inv, tripDetails tripSheet with
  | Some taxi, Some details =>
      let platform := platform details in
      if JS.truthy platform then
        let invoiceText :=
          JS.toLowerCase
            (JS.join " " [default EmptyString (vendor inv); description inv]) in
        if existsb (fun keyword => JS.includes invoiceText (JS.toLowerCase keyword))
                   (extractPlatformKeywords platform)
        then (true, String.append "平台匹配(" (String.append platform ")"))
        else (false, EmptyString)
      else (false, EmptyString)
  | _, _ => (false, EmptyString)
  end.

Record MatchScore := { score : Z; reason : string }.

Definition calculateMatchScore (inv tripSheet : DocumentData) : MatchScore :=
  let amountMatch := checkAmountMatch (amount inv) (amount tripSheet) in
  let '(score1, reasons1) :=
    if fst amountMatch then (50, [snd amountMatch]) else (0, []) in
  let '(dateMatched, dateScore, dateReason) :=
    checkDateProximity (date inv) (date tripSheet) in
  let '(score2, reasons2) :=
    if dateMatched then (score1 + dateScore, reasons1 ++ [dateReason])
    else (score1, reasons1) in
  let platformMatch := checkPlatformMatch inv tripSheet in
  let '(score3, reasons3) :=
    if fst platformMatch then (score2 + 20, reasons2 ++ [snd platformMatch])
    else (score2, reasons2) in
  {| score := score3;
     reason := match reasons3 with
               | [] => "无明显匹配特征"
               | _ => JS.join "，" reasons3
               end |}.

Record BestMatch := {
  bestTripSheet : DocumentData;
  bestScore : Z;
  bestReason : string
    }.

  (** One turn of the inner loop over the trip sheets. *)
Definition considerTripSheet (inv : DocumentData)
  (matchedTripSheetIds : gset string)
  (bestMatch : option BestMatch) (tripSheet : DocumentData)
  : option BestMatch :=
  if decide (id tripSheet ∈ matchedTripSheetIds) then bestMatch
  else
    let matchResult := calculateMatchScore inv tripSheet in
    if (50 <=? score matchResult)
       && match bestMatch with
          | None => true
          | Some b => bestScore b <? score matchResult
          end
    then Some {| bestTripSheet := tripSheet;
                 bestScore := score matchResult;
                 bestReason := reason matchResult |}
    else bestMatch.

Record PairingState := {
  statePairs : list PairingPair;
  matchedInvoiceIds : gset string;
  matchedTripSheetIds : gset string
    }.

  (** One turn of the outer loop over the invoices. *)
Definition pairInvoice (tripSheets : list DocumentData)
  (st : PairingState) (inv : DocumentData) : PairingState :=
  match foldl (considerTripSheet inv (matchedTripSheetIds st)) None tripSheets with
  | Some bestMatch =>
      {| statePairs :=
           statePairs st ++
           [ {| invoiceId := id inv;
                tripSheetId := id (bestTripSheet bestMatch);
                pairConfidence := bestScore bestMatch;
                matchReason := bestReason bestMatch |} ];
         matchedInvoiceIds := {[ id inv ]} ∪ matchedInvoiceIds st;
         matchedTripSheetIds :=
           {[ id (bestTripSheet bestMatch) ]} ∪ matchedTripSheetIds st |}
  | None => st
  end.

Definition pairDocuments (documents : list DocumentData) : PairingResult :=
  let invoices := filter isInvoice documents in
  let tripSheets := filter isTripSheet documents in
  let final :=
    foldl (pairInvoice tripSheets)
          {| statePairs := []; matchedInvoiceIds := ∅; matchedTripSheetIds := ∅ |}
          invoices in
  {| pairs := statePairs final;
     unmatchedInvoices :=
       id <$> filter (fun inv => id inv ∉ matchedInvoiceIds final) invoices;
     unmatchedTripSheets :=
       id <$> filter (fun ts => id ts ∉ matchedTripSheetIds final) tripSheets |}.

End WithClock.
End PairingService.

(** ** SortingService *)
Module SortingService.

Definition typePriority (t : InvoiceType) : Z :=
  match t with
  | consumables => 1
  | hotel => 2
  | taxi => 3
  | shipping => 4
  | toll => 5
  | train => 6
  | other => 7
  end.

(** [Object.keys(this.typePriority)] *)
Definition typeKeys : list InvoiceType :=
  [consumables; hotel; taxi; shipping; toll; train; other].

Record DocumentUnit := {
    primaryDoc : DocumentData;
    pairedDoc : option DocumentData
  }.

Definition createPairMap (pairing : PairingResult) : gmap string string :=
  foldl (fun (pairMap : gmap string string) pair =>
           <[ tripSheetId pair := invoiceId pair ]>
             (<[ invoiceId pair := tripSheetId pair ]> pairMap))
        ∅ (pairs pairing).

Definition GroupingState : Type :=
  list (InvoiceType * list DocumentData) * gset string.

(** The body of the first [documents.forEach] of [groupByExpenseType]. *)
Definition placeInvoice (documents : list DocumentData)
    (pairMap : gmap string string) (st : GroupingState) (doc : DocumentData)
  : GroupingState :=
  let '(groups, processedIds) := st in
  if decide (id doc ∈ processedIds) then st
  else
    match documentType doc with
    | invoice =>
        let invoiceType := default other (invoiceType doc) in
        let group := default [] (JS.mapGet invoiceType groups) ++ [doc] in
        let processedIds := {[ id doc ]} ∪ processedIds in
        match pairMap !! id doc with
        | Some pairedTripSheetId =>
            if JS.truthy pairedTripSheetId then
              match findById pairedTripSheetId documents with
              | Some pairedTripSheet =>
                  (JS.mapSet invoiceType (group ++ [pairedTripSheet]) groups,
                   {[ pairedTripSheetId ]} ∪ processedIds)
              | None => (JS.mapSet invoiceType group groups, processedIds)
              end
            else (JS.mapSet invoiceType group groups, processedIds)
        | None => (JS.mapSet invoiceType group groups, processedIds)
        end
    | trip_sheet => st
    end.

(** The body of the second [documents.forEach] of [groupByExpenseType]. *)
Definition placeTripSheet (st : GroupingState) (doc : DocumentData)
  : GroupingState :=
  let '(groups, processedIds) := st in
  match documentType doc with
  | trip_sheet =>
      if decide (id doc ∈ processedIds) then st
      else
        (JS.mapSet other (default [] (JS.mapGet other groups) ++ [doc]) groups,
         {[ id doc ]} ∪ processedIds)
  | invoice => st
  end.

Definition groupByExpenseType (documents : list DocumentData)
    (pairMap : gmap string string) : list (InvoiceType * list DocumentData) :=
  let groups := foldl (fun g t => JS.mapSet t [] g) [] typeKeys in
  let st := foldl (placeInvoice documents pairMap) (groups, ∅) documents in
  fst (foldl placeTripSheet st documents).

Definition UnitState : Type := list DocumentUnit * gset string.

(** The body of [docs.forEach] in [createDocumentUnits]. *)
Definition addUnit (docs : list DocumentData) (pairMap : gmap string string)
    (st : UnitState) (doc : DocumentData) : UnitState :=
  let '(units, processedIds) := st in
  if decide (id doc ∈ processedIds) then st
  else
    match documentType doc with
    | invoice =>
        let pairedTripSheet :=
          match pairMap !! id doc with
          | Some pairedTripSheetId =>
              if JS.truthy pairedTripSheetId
              then findById pairedTripSheetId docs
              else None
          | None => None
          end in
        (units ++ [ {| primaryDoc := doc; pairedDoc := pairedTripSheet |} ],
         match pairedTripSheet with
         | Some ts => {[ id ts ]} ∪ ({[ id doc ]} ∪ processedIds)
         | None => {[ id doc ]} ∪ processedIds
         end)
    | trip_sheet =>
        (units ++ [ {| primaryDoc := doc; pairedDoc := None |} ],
         {[ id doc ]} ∪ processedIds)
    end.

Definition createDocumentUnits (docs : list DocumentData)
    (pairMap : gmap string string) : list DocumentUnit :=
  fst (foldl (addUnit docs pairMap) ([], ∅) docs).

(** [units.forEach(unit => sortedDocs.push(primaryDoc, pairedDoc?))] *)
Definition unitDocs (unit : DocumentUnit) : list DocumentData :=
  primaryDoc unit :: match pairedDoc unit with Some ts => [ts] | None => [] end.

Definition flattenUnits (units : list DocumentUnit) : list DocumentData :=
  units ≫= unitDocs.

Section WithClock.
Variable currentYear : Z.

(** The comparator handed to [units.sort]. *)
Definition compareUnits (a b : DocumentUnit) : Z :=
  match JSDate.parseDate currentYear (date (primaryDoc a)),
        JSDate.parseDate currentYear (date (primaryDoc b)) with
  | None, None => 0
  | None, Some _ => 1
  | Some _, None => -1
  | Some dateA, Some dateB => JSDate.getTime dateA - JSDate.getTime dateB
  end.

Definition sortUnits (units : list DocumentUnit) : list DocumentUnit :=
  JS.sort (fun a b => compareUnits a b <=? 0) units.

(** [sortGroupsByDate]; its [documentMap] argument is never read. *)
Definition sortGroupsByDate (groups : list (InvoiceType * list DocumentData))
    (pairMap : gmap string string) : list (InvoiceType * list DocumentData) :=
  foldl (fun sortedGroups entry =>
           let '(type, docs) := entry in
           match docs with
           | [] => JS.mapSet type [] sortedGroups
           | _ =>
               JS.mapSet type
                 (flattenUnits (sortUnits (createDocumentUnits docs pairMap)))
                 sortedGroups
           end)
        [] groups.

Definition generateFinalOrder
    (sortedGroups : list (InvoiceType * list DocumentData)) : list string :=
  let sortedTypes :=
    JS.sort (fun a b => typePriority a - typePriority b <=? 0)
            (fst <$> sortedGroups) in
  sortedTypes ≫= fun type => id <$> default [] (JS.mapGet type sortedGroups).

Definition generateGroupingInfo
    (sortedGroups : list (InvoiceType * list DocumentData))
  : list (InvoiceType * list string) :=
  foldl (fun grouping entry =>
           let '(type, docs) := entry in
           match docs with
           | [] => grouping
           | _ => JS.mapSet type (id <$> docs) grouping
           end)
        [] sortedGroups.

Definition sortDocuments (documents : list DocumentData)
    (pairing : PairingResult) : SortingResult :=
  let pairMap := createPairMap pairing in
  let groups := groupByExpenseType documents pairMap in
  let sortedGroups := sortGroupsByDate groups pairMap in
  {| suggestedOrder := generateFinalOrder sortedGroups;
     grouping := generateGroupingInfo sortedGroups |}.
End WithClock.

End SortingService.

(** ** AnomalyDetector *)
Module AnomalyDetector.

Definition invoicesOf (documents : list DocumentData) : list DocumentData :=
  filter isInvoice documents.

(** The first map of [detectDuplicates]: invoices by invoice number. *)
Definition invoicesByNumber (documents : list DocumentData)
  : list (string * list DocumentData) :=
  foldl (fun m inv =>
           match invoiceNumber inv with
           | Some key => if JS.truthy key then JS.mapPush key inv m else m
           | None => m
           end)
        [] (invoicesOf documents).

Definition amountDateKey (inv : DocumentData) : string :=
  String.append (JS.toFixed2 (amount inv)) (String.append "_" (date inv)).

(** Whether an invoice enters the amount-and-date grouping: it has no
    invoice number, or its number is not shared. *)
Definition checkedByAmountDate (byNumber : list (string * list DocumentData))
    (inv : DocumentData) : bool :=
  match invoiceNumber inv with
  | None => true
  | Some number =>
      if JS.truthy number then
        match JS.mapGet number byNumber with
        | None => true
        | Some docs => bool_decide (length docs = 1%nat)
        end
      else true
  end.

(** The second map of [detectDuplicates]: invoices by amount and date. *)
Definition invoicesByAmountDate (documents : list DocumentData)
  : list (string * list DocumentData) :=
  let byNumber := invoicesByNumber documents in
  foldl (fun m inv =>
           if checkedByAmountDate byNumber inv
           then JS.mapPush (amountDateKey inv) inv m else m)
        [] (invoicesOf documents).

Definition numberWarning (entry : string * list DocumentData) : list Warning :=
  let '(number, docs) := entry in
  if (1 <? length docs)%nat then
    [ {| type := duplicate;
         message := String.append "检测到重复发票号: " number;
         documentIds := id <$> docs;
         severity := Some high |} ]
  else [].

Definition amountDateWarning (entry : string * list DocumentData) : list Warning :=
  let '(key, docs) := entry in
  if (1 <? length docs)%nat then
    let parts := JS.split "_" key in
    let amountPart := nth 0 parts "undefined"%string in
    let datePart := nth 1 parts "undefined"%string in
    [ {| type := duplicate;
         message :=
           String.append "检测到可能的重复发票: 相同金额("
             (String.append amountPart
                (String.append ")和日期(" (String.append datePart ")")));
         documentIds := id <$> docs;
         severity := Some medium |} ]
  else [].

Definition detectDuplicates (documents : list DocumentData) : list Warning :=
  (invoicesByNumber documents ≫= numberWarning)
  ++ (invoicesByAmountDate documents ≫= amountDateWarning).

Record AmountStats := {
    mean : Q;
    median : Q;
    q1 : Q;
    q3 : Q;
    iqr : Q;
    min : Q;
    max : Q
  }.

(** [amounts[i]]; every index read below is in range when the array
    is not empty. *)
Definition at_ (amounts : list Q) (i : nat) : Q := nth i amounts 0%Q.

Definition calculateAmountStats (amounts : list Q) : AmountStats :=
  let n := length amounts in
  let q1Index := (n / 4)%nat in
  let q3Index := (3 * n / 4)%nat in
  let q1 := at_ amounts q1Index in
  let q3 := at_ amounts q3Index in
  {| mean := (foldl Qplus 0 amounts / inject_Z (Z.of_nat n))%Q;
     median := if (n mod 2 =? 0)%nat
               then ((at_ amounts (n / 2 - 1) + at_ amounts (n / 2)) / (2 # 1))%Q
               else at_ amounts (n / 2);
     q1 := q1;
     q3 := q3;
     iqr := (q3 - q1)%Q;
     min := at_ amounts 0;
     max := at_ amounts (n - 1) |}.

Definition getTypeDisplayName (t : InvoiceType) : string :=
  match t with
  | taxi => "出租车"
  | hotel => "酒店"
  | train => "火车"
  | shipping => "快递"
  | toll => "过路费"
  | consumables => "耗材"
  | other => "其他"
  end.

Definition Qltb (a b : Q) : bool := negb (Qle_bool b a).

Definition anomalyMessage (t : InvoiceType) (direction : string)
    (amount : Q) (stats : AmountStats) : string :=
  String.append (getTypeDisplayName t)
    (String.append "金额"
       (String.append direction
          (String.append ": ¥"
             (String.append (JS.toFixed2 amount)
                (String.append " (该类型中位数: ¥"
                   (String.append (JS.toFixed2 (median stats)) ")")))))).

Definition isAmountAnomaly (amount : Q) (stats : AmountStats) (t : InvoiceType)
  : option (string * Severity) :=
  let lowerBound := (q1 stats - (3 # 2) * iqr stats)%Q in
  let upperBound := (q3 stats + (3 # 2) * iqr stats)%Q in
  let extremeLowerBound := (q1 stats - (3 # 1) * iqr stats)%Q in
  let extremeUpperBound := (q3 stats + (3 # 1) * iqr stats)%Q in
  if Qltb amount extremeLowerBound || Qltb extremeUpperBound amount then
    let direction := if Qltb amount extremeLowerBound then "过低" else "过高" in
    Some (anomalyMessage t direction amount stats, high)
  else if Qltb amount lowerBound || Qltb upperBound amount then
    let direction := if Qltb amount lowerBound then "偏低" else "偏高" in
    Some (anomalyMessage t direction amount stats, medium)
  else None.

(** The map of [detectAmountAnomalies]: invoices by expense type. *)
Definition invoicesByType (documents : list DocumentData)
  : list (InvoiceType * list DocumentData) :=
  foldl (fun m inv => JS.mapPush (default other (invoiceType inv)) inv m)
        [] (invoicesOf documents).

Definition sortAmounts (amounts : list Q) : list Q :=
  JS.sort (fun a b => Qle_bool (a - b) 0) amounts.

Definition typeWarnings (entry : InvoiceType * list DocumentData) : list Warning :=
  let '(t, typeInvoices) := entry in
  if (length typeInvoices <? 2)%nat then []
  else
    let amounts := sortAmounts (amount <$> typeInvoices) in
    let stats := calculateAmountStats amounts in
    typeInvoices ≫= fun inv =>
      match isAmountAnomaly (amount inv) stats t with
      | Some (msg, sev) =>
          [ {| type := amount_anomaly;
               message := msg;
               documentIds := [id inv];
               severity := Some sev |} ]
      | None => []
      end.

Definition detectAmountAnomalies (documents : list DocumentData) : list Warning :=
  invoicesByType documents ≫= typeWarnings.

Definition formatDate (d : JSDate.t) : string :=
  String.append (JS.ofInt (JSDate.getFullYear d))
    (String.append "-"
       (String.append (JS.padStart2 (JS.ofInt (JSDate.monthNumber d)))
          (String.append "-" (JS.padStart2 (JS.ofInt (JSDate.getDate d)))))).

Definition calculateDaysDiff (date1 date2 : JSDate.t) : Z :=
  JSDate.daysBetween date2 date1.

Definition gapSeverity (gapDays : Z) : Severity :=
  if 30 <? gapDays then high else if 14 <? gapDays then medium else low.

(** The body of the [for] loop of [detectDateGaps] at index [i]. *)
Definition gapWarningAt (docsWithDates : list (DocumentData * JSDate.t))
    (i : nat) : list Warning :=
  match docsWithDates !! (i - 1)%nat, docsWithDates !! i with
  | Some prev, Some curr =>
      let gapDays := calculateDaysDiff (snd prev) (snd curr) in
      if 7 <? gapDays then
        [ {| type := date_gap;
             message :=
               String.append "检测到日期间隔: "
                 (String.append (formatDate (snd prev))
                    (String.append " 到 "
                       (String.append (formatDate (snd curr))
                          (String.append " 相隔"
                             (String.append (JS.ofInt gapDays) "天")))));
             documentIds := [id (fst prev); id (fst curr)];
             severity := Some (gapSeverity gapDays) |} ]
      else []
  | _, _ => []
  end.

Section WithClock.
Variable currentYear : Z.

(** [documents.map(...).filter(item => item.date !== null).sort(...)] *)
Definition docsWithDates (documents : list DocumentData)
  : list (DocumentData * JSDate.t) :=
  JS.sort (fun a b => JSDate.getTime (snd a) - JSDate.getTime (snd b) <=? 0)
    (omap (fun doc => pair doc <$> JSDate.parseDate currentYear (date doc))
          documents).

Definition detectDateGaps (documents : list DocumentData) : list Warning :=
  let dated := docsWithDates documents in
  if (length dated <? 2)%nat then []
  else seq 1 (length dated - 1) ≫= gapWarningAt dated.

Definition detectMissingPairs (documents : list DocumentData)
    (pairingResult : PairingResult) : list Warning :=
  (unmatchedInvoices pairingResult ≫= fun invoiceId =>
     match findById invoiceId documents with
     | Some inv =>
         match invoiceType inv with
         | Some taxi =>
             [ {| type := missing_pair;
                  message :=
                    String.append "出租车发票缺少对应的行程单: " (fileName inv);
                  documentIds := [invoiceId];
                  severity := Some medium |} ]
         | _ => []
         end
     | None => []
     end)
  ++
  (unmatchedTripSheets pairingResult ≫= fun tripSheetId =>
     match findById tripSheetId documents with
     | Some tripSheet =>
         [ {| type := missing_pair;
              message := String.append "行程单缺少对应的发票: " (fileName tripSheet);
              documentIds := [tripSheetId];
              severity := Some medium |} ]
     | None => []
     end).

Definition detectAnomalies (documents : list DocumentData)
    (pairingResult : option PairingResult) : list Warning :=
  detectDuplicates documents
  ++ detectAmountAnomalies documents
  ++ detectDateGaps documents
  ++ match pairingResult with
     | Some pr => detectMissingPairs documents pr
     | None => []
     end.
End WithClock.

End AnomalyDetector.

(** ** AIService: error classification and the retry loop *)
Module AIErrorType.
Inductive t :=
  API_KEY_INVALID | RATE_LIMIT_EXCEEDED | NETWORK_ERROR | PARSING_ERROR | TIMEOUT.
End AIErrorType.

Module AIError.
Record t := { type : AIErrorType.t; retryable : bool; message : string }.
End AIError.

Module AxiosError.
(** [response]: the HTTP status and [data?.error?.message], when the
    server answered. *)
Record t := {
    code : option string;
    message : string;
    response : option (Z * option string)
  }.
End AxiosError.

Module AIService.

Definition MAX_RETRIES : nat := 3.
Definition INITIAL_RETRY_DELAY : Z := 1000.
Definition TIMEOUT : Z := 30000.

(** What the [try] block of [operation] can throw. *)
Inductive Thrown :=
  | ThrownAxios (e : AxiosError.t)
  | ThrownError (message : string)
  | ThrownOther.

(** The arguments of the [axios.post] call of [recognizeDocument]. *)
Record Request := {
    url : string;
    requestModel : string;
    imageUrl : string;
    maxTokens : Z;
    authorization : string;
    timeout : Z
  }.

Definition recognitionRequest (imageBase64 : string) (apiConfig : APIConfig)
  : Request :=
  {| url := String.append (endpoint apiConfig) "/chat/completions";
     requestModel := model apiConfig;
     imageUrl := String.append "data:image/jpeg;base64," imageBase64;
     maxTokens := 1000;
     authorization := String.append "Bearer " (apiKey apiConfig);
     timeout := TIMEOUT |}.

Definition handleAPIError (error : Thrown) : AIError.t :=
  match error with
  | ThrownAxios axiosError =>
      if bool_decide (AxiosError.code axiosError = Some "ECONNABORTED"%string)
         || bool_decide (AxiosError.code axiosError = Some "ETIMEDOUT"%string)
      then {| AIError.type := AIErrorType.TIMEOUT;
              AIError.retryable := true;
              AIError.message := "请求超时，请检查网络连接" |}
      else
        match AxiosError.response axiosError with
        | None =>
            {| AIError.type := AIErrorType.NETWORK_ERROR;
               AIError.retryable := true;
               AIError.message :=
                 String.append "网络连接失败: " (AxiosError.message axiosError) |}
        | Some (status, dataMessage) =>
            if (status =? 401) || (status =? 403) then
              {| AIError.type := AIErrorType.API_KEY_INVALID;
                 AIError.retryable := false;
                 AIError.message := "API密钥无效或已过期，请检查配置" |}
            else if status =? 429 then
              {| AIError.type := AIErrorType.RATE_LIMIT_EXCEEDED;
                 AIError.retryable := true;
                 AIError.message := "API调用频率超限，请稍后重试" |}
            else
              let errorMessage :=
                match dataMessage with
                | Some m => if JS.truthy m then m else AxiosError.message axiosError
                | None => AxiosError.message axiosError
                end in
              {| AIError.type := AIErrorType.NETWORK_ERROR;
                 AIError.retryable := 500 <=? status;
                 AIError.message :=
                   String.append "API请求失败 ("
                     (String.append (JS.ofInt status)
                        (String.append "): " errorMessage)) |}
        end
  | ThrownError m =>
      {| AIError.type := AIErrorType.NETWORK_ERROR;
         AIError.retryable := false;
         AIError.message := String.append "未知错误: " m |}
  | ThrownOther =>
      {| AIError.type := AIErrorType.NETWORK_ERROR;
         AIError.retryable := false;
         AIError.message := "未知错误: 未知错误" |}
  end.

Section Retry.
Context {T : Type}.

(** [operation k] is the outcome of the call of [operation] made
    with [retryCount = k].  The result carries the delays waited, in
    order.  [budget] bounds the recursion; [retryWithBackoff] starts
    it with as many turns as the test [retryCount < MAX_RETRIES] lets
    through. *)
Fixpoint retryFrom (budget : nat) (operation : nat → AIError.t + T)
    (retryCount : nat) : (AIError.t + T) * list Z :=
  match operation retryCount with
  | inr value => (inr value, [])
  | inl failure =>
      if AIError.retryable failure && (retryCount <? MAX_RETRIES)%nat then
        match budget with
        | S budget' =>
            let delay := INITIAL_RETRY_DELAY * 2 ^ Z.of_nat retryCount in
            let '(result, delays) := retryFrom budget' operation (S retryCount) in
            (result, delay :: delays)
        | O => (inl failure, [])
        end
      else (inl failure, [])
  end.

Definition retryWithBackoff (operation : nat → AIError.t + T)
  : (AIError.t + T) * list Z :=
  retryFrom MAX_RETRIES operation 0.
End Retry.

(** [respond request fileName k]: what the [k]-th execution of the
    [try] block of [operation] throws or returns. *)
Definition recognizeDocument
    (respond : Request → string → nat → Thrown + DocumentData)
    (imageBase64 : string) (apiConfig : APIConfig) (fileName : string)
  : (AIError.t + DocumentData) * list Z :=
  retryWithBackoff
    (fun k =>
       match respond (recognitionRequest imageBase64 apiConfig) fileName k with
       | inl thrown => inl (handleAPIError thrown)
       | inr doc => inr doc
       end).

(** [getFileType]: [fileName.toLowerCase().split('.').pop()] compared
    with ['pdf']. *)
Definition getFileType (fileName : string) : FileType :=
  let ext := last (JS.split "." (JS.toLowerCase fileName)) in
  if bool_decide (ext = Some "pdf"%string) then pdf else image.

End AIService.

(** ** BatchProcessor *)
Module Stage.
Inductive t :=
  uploading | recognizing | pairing | sorting | detecting | completed | error.
End Stage.

Module BatchProcessor.

(** The fields of [Express.Multer.File] that the processor reads. *)
Record File := { originalname : string; mimetype : string }.

(** What [processFile] can throw, as [getErrorMessage] tells it apart. *)
Inductive Failure :=
  | FileFailure (message : string)
  | AIFailure (e : AIError.t)
  | ErrorFailure (message : string)
  | UnknownFailure.

Inductive Event :=
  | Progress (stage : Stage.t) (currentStep totalSteps : nat)
  | RecognitionStarted (fileName : string)
  | RecognitionSettled (fileName : string).

Record BatchProcessResult := {
    resultDocuments : list DocumentData;
    resultPairs : PairingResult;
    resultSorting : SortingResult;
    resultWarnings : list Warning;
    resultErrors : list (string * string)
  }.

Definition getErrorMessage (error : Failure) : string :=
  match error with
  | FileFailure m => String.append "文件错误: " m
  | AIFailure e => String.append "AI识别错误: " (AIError.message e)
  | ErrorFailure m => m
  | UnknownFailure => "未知错误"
  end.

(** [createErrorDocument]; [nonce] stands for [Date.now()] and for
    [Math.random().toString(36).substring(2, 9)]. *)
Definition createErrorDocument (nonce : Z * string) (file : File)
    (errorMessage : string) : DocumentData :=
  {| id := String.append "error_"
             (String.append (JS.ofInt (fst nonce))
                (String.append "_" (snd nonce)));
     fileName := originalname file;
     fileType := if bool_decide (mimetype file = "application/pdf"%string)
                 then pdf else image;
     documentType := invoice;
     date := EmptyString;
     amount := 0;
     description := EmptyString;
     confidence := 0;
     invoiceNumber := None;
     vendor := None;
     taxAmount := None;
     invoiceType := None;
     tripDetails := None;
     status := error;
     errorMessage := Some errorMessage |}.

Section WithEnvironment.
Variable currentYear : Z.
(** The collaborators, by the position of the file in the batch and
    of the page in the file. *)
Variable processFileToBase64 : nat → File → Failure + list string.
Variable recognizeDocument :
  nat → nat → string → APIConfig → string → Failure + DocumentData.
Variable errorNonce : nat → Z * string.

Definition pageFileName (file : File) (pageCount page : nat) : string :=
  if (1 <? pageCount)%nat
  then String.append (originalname file)
         (String.append " (第"
            (String.append (JS.ofInt (Z.of_nat page + 1)) "页)"))
  else originalname file.

(** The loop of [processFile] over the pages, from page [page] on. *)
Fixpoint recognizePages (fileIndex : nat) (file : File) (apiConfig : APIConfig)
    (pageCount page : nat) (images : list string)
    (documents : list DocumentData) (trace : list Event)
  : (Failure + list DocumentData) * list Event :=
  match images with
  | [] => (inr documents, trace)
  | base64Image :: rest =>
      let name := pageFileName file pageCount page in
      let trace := trace ++ [RecognitionStarted name] in
      match recognizeDocument fileIndex page base64Image apiConfig name with
      | inl failure => (inl failure, trace ++ [RecognitionSettled name])
      | inr document =>
          recognizePages fileIndex file apiConfig pageCount (S page) rest
            (documents ++ [document]) (trace ++ [RecognitionSettled name])
      end
  end.

Definition processFile (fileIndex : nat) (file : File) (apiConfig : APIConfig)
  : (Failure + list DocumentData) * list Event :=
  match processFileToBase64 fileIndex file with
  | inl failure => (inl failure, [])
  | inr base64Images =>
      recognizePages fileIndex file apiConfig (length base64Images) 0
        base64Images [] []
  end.

Record RecognitionState := {
    documents : list DocumentData;
    errors : list (string * string);
    trace : list Event
  }.

(** The [for] loop of [processBatch] over the files, from index [i] on. *)
Fixpoint recognizeFiles (totalSteps : nat) (apiConfig : APIConfig)
    (i : nat) (files : list File) (st : RecognitionState) : RecognitionState :=
  match files with
  | [] => st
  | file :: rest =>
      let announced :=
        trace st ++ [Progress Stage.recognizing (i + 1) totalSteps] in
      let '(outcome, calls) := processFile i file apiConfig in
      recognizeFiles totalSteps apiConfig (S i) rest
        match outcome with
        | inr processedDocuments =>
            {| documents := documents st ++ processedDocuments;
               errors := errors st;
               trace := announced ++ calls |}
        | inl failure =>
            let errorMessage := getErrorMessage failure in
            {| documents :=
                 documents st
                 ++ [createErrorDocument (errorNonce i) file errorMessage];
               errors := errors st ++ [(originalname file, errorMessage)];
               trace := announced ++ calls |}
        end
  end.

Definition allFailedMessage : string :=
  "所有文件处理失败，请检查文件格式和API配置".

(** [processBatch]: the value returned or the error thrown, and the
    progress notifications and recognition calls in order. *)
Definition processBatch (files : list File) (apiConfig : APIConfig)
  : (string + BatchProcessResult) * list Event :=
  let totalSteps := length files in
  let st :=
    recognizeFiles totalSteps apiConfig 0 files
      {| documents := []; errors := [];
         trace := [Progress Stage.recognizing 0 totalSteps] |} in
  match documents st with
  | [] =>
      (inl allFailedMessage, trace st ++ [Progress Stage.error 0 totalSteps])
  | _ =>
      let pairing := PairingService.pairDocuments currentYear (documents st) in
      let sorting :=
        SortingService.sortDocuments currentYear (documents st) pairing in
      let warnings :=
        AnomalyDetector.detectAnomalies currentYear (documents st) (Some pairing) in
      (inr {| resultDocuments := documents st;
              resultPairs := pairing;
              resultSorting := sorting;
              resultWarnings := warnings;
              resultErrors := errors st |},
       trace st
       ++ [Progress Stage.pairing totalSteps totalSteps;
           Progress Stage.sorting totalSteps totalSteps;
           Progress Stage.detecting totalSteps totalSteps;
           Progress Stage.completed totalSteps totalSteps])
  end.
End WithEnvironment.

End BatchProcessor.

(** ** PackageService: the names of the packaged files *)
Module PackageService.

(** [sorting.suggestedOrder.map(id => documents.find(d => d.id === id))
    .filter(d => d !== undefined)] *)
Definition sortedDocs (documents : list DocumentData) (sorting : SortingResult)
  : list DocumentData :=
  omap (fun wanted => findById wanted documents) (suggestedOrder sorting).

(** [`${fileNumber.toString().padStart(2, '0')}_${doc.fileName}`] *)
Definition newFileName (fileNumber : Z) (doc : DocumentData) : string :=
  String.append (JS.padStart2 (JS.ofInt fileNumber))
    (String.append "_" (fileName doc)).

Definition generateFileNames (documents : list DocumentData)
    (sorting : SortingResult) : list (string * string) :=
  fst (foldl (fun (st : list (string * string) * Z) doc =>
                let '(fileNames, fileNumber) := st in
                (JS.mapSet (id doc) (newFileName fileNumber doc) fileNames,
                 fileNumber + 1))
             ([], 1) (sortedDocs documents sorting)).


(** [calculateCategoryTotals] *)
Definition calculateCategoryTotals (documents : list DocumentData)
  : list (InvoiceType * Q) :=
  foldl (fun totals doc =>
           match documentType doc, invoiceType doc with
           | invoice, Some type =>
               JS.mapSet type (default 0%Q (JS.mapGet type totals) + amount doc)%Q
                 totals
           | _, _ => totals
           end)
        [] documents.

End PackageService.

(** ** MemoryManager: the cache and its eviction *)
Module MemoryManager.
Section WithData.
Context {Data : Type}.

Record CacheEntry := {
    data : Data;
    timestamp : Z;
    size : Q
  }.

Record t := {
    cache : list (string * CacheEntry);
    maxMemoryMB : Z;
    maxCacheSize : nat
  }.

(** [new MemoryManager()], with the default limits. *)
Definition create : t :=
  {| cache := []; maxMemoryMB := 500; maxCacheSize := 50 |}.

Definition withCache (m : t) (c : list (string * CacheEntry)) : t :=
  {| cache := c; maxMemoryMB := maxMemoryMB m; maxCacheSize := maxCacheSize m |}.

(** [cache.delete(key)] *)
Definition mapDelete (key : string) (c : list (string * CacheEntry))
  : list (string * CacheEntry) :=
  filter (fun e => fst e ≠ key) c.

(** [Math.round(bytes / 1024 / 1024)] for a count of bytes. *)
Definition megabytes (bytes : Z) : Z := (2 * bytes + 1048576) / 2097152.

(** [isMemoryExceeded], for the heap use [process.memoryUsage()] reports. *)
Definition isMemoryExceeded (m : t) (heapUsedBytes : Z) : bool :=
  maxMemoryMB m <? megabytes heapUsedBytes.

Definition clearOldestEntries (count : nat) (m : t) : t :=
  let entries :=
    JS.sort (fun a b => timestamp (snd a) - timestamp (snd b) <=? 0) (cache m) in
  let toDelete := take (Nat.min count (length entries)) entries in
  withCache m (foldl (fun c e => mapDelete (fst e) c) (cache m) toDelete).

Definition monitorAndClean (m : t) (heapUsedBytes : Z) : t :=
  if isMemoryExceeded m heapUsedBytes then clearOldestEntries 10 m else m.

(** [set(key, data, estimatedSizeMB)] at the time [now]. *)
Definition set (now : Z) (key : string) (value : Data) (estimatedSizeMB : Q)
    (m : t) : t :=
  let m := if (maxCacheSize m <=? length (cache m))%nat
           then clearOldestEntries 1 m else m in
  withCache m
    (JS.mapSet key {| data := value; timestamp := now; size := estimatedSizeMB |}
       (cache m)).

(** [get(key)] at the time [now]: the data, and the manager with the
    time of the entry brought up to [now]. *)
Definition get (now : Z) (key : string) (m : t) : option Data * t :=
  match JS.mapGet key (cache m) with
  | Some entry =>
      (Some (data entry),
       withCache m
         (JS.mapSet key
            {| data := data entry; timestamp := now; size := size entry |}
            (cache m)))
  | None => (None, m)
  end.

Definition delete (key : string) (m : t) : bool * t :=
  (bool_decide (key ∈ (cache m).*1), withCache m (mapDelete key (cache m))).

Definition clearAll (m : t) : t := withCache m [].

Definition clearSession (sessionId : string) (m : t) : t :=
  let keysToDelete :=
    filter (fun key => String.prefix sessionId key = true) (cache m).*1 in
  withCache m (foldl (fun c key => mapDelete key c) (cache m) keysToDelete).

End WithData.
Arguments CacheEntry : clear implicits.
Arguments t : clear implicits.
End MemoryManager.

(** ** FileService: what is accepted and how it is converted *)
Module FileErrorType.
Inductive t := UNSUPPORTED_FORMAT | FILE_TOO_LARGE | CORRUPTED_FILE | PROCESSING_FAILED.
End FileErrorType.

Module FileError.
Record t := { type : FileErrorType.t; fileName : string; message : string }.
End FileError.

Module FileService.
Section WithConverters.
Context {Buffer : Type}.

(** The fields of [Express.Multer.File] that the service reads. *)
Record Upload := {
    originalname : string;
    mimetype : string;
    size : Z;
    buffer : Buffer
  }.

Definition MAX_FILE_SIZE : Z := 10 * 1024 * 1024.
Definition ALLOWED_MIME_TYPES : list string :=
  ["image/jpeg"; "image/jpg"; "image/png"; "application/pdf"]%string.

(** [validateFile]: the error it throws, if any. *)
Definition validateFile (file : Upload) : option FileError.t :=
  if MAX_FILE_SIZE <? size file then
    Some {| FileError.type := FileErrorType.FILE_TOO_LARGE;
            FileError.fileName := originalname file;
            FileError.message := "文件大小超过限制（最大10MB）" |}
  else if bool_decide (mimetype file ∈ ALLOWED_MIME_TYPES) then None
  else
    Some {| FileError.type := FileErrorType.UNSUPPORTED_FORMAT;
            FileError.fileName := originalname file;
            FileError.message := "不支持的文件格式，仅支持 PDF、PNG、JPG" |}.

(** The converters: [pdfToImages], [compressImage] (each throws a
    [FileError] when it fails) and [buffer.toString('base64')]. *)
Variable pdfToImages : Buffer → string → FileError.t + list Buffer.
Variable compressImage : Buffer → string → FileError.t + Buffer.
Variable toBase64 : Buffer → string.

(** The loop of [processFileToBase64] over the pages of a PDF. *)
Fixpoint compressPages (imageBuffers : list Buffer) (name : string)
    (base64Images : list string) : FileError.t + list string :=
  match imageBuffers with
  | [] => inr base64Images
  | imageBuffer :: rest =>
      match compressImage imageBuffer name with
      | inl e => inl e
      | inr compressed =>
          compressPages rest name (base64Images ++ [toBase64 compressed])
      end
  end.

Definition processFileToBase64 (file : Upload) : FileError.t + list string :=
  match validateFile file with
  | Some e => inl e
  | None =>
      if bool_decide (mimetype file = "application/pdf"%string) then
        match pdfToImages (buffer file) (originalname file) with
        | inl e => inl e
        | inr imageBuffers => compressPages imageBuffers (originalname file) []
        end
      else
        match compressImage (buffer file) (originalname file) with
        | inl e => inl e
        | inr compressed => inr [toBase64 compressed]
        end
  end.

(** [getFileType] *)
Definition getFileType (mimeType : string) : FileType :=
  if bool_decide (mimeType = "application/pdf"%string) then pdf else image.

End WithConverters.
Arguments Upload : clear implicits.
End FileService.

(** ** Sample documents, for the concrete scenarios *)

Definition sampleInvoice (i d : string) (a : Q) (t : option InvoiceType)
    (v n : option string) : DocumentData :=
  {| id := i; fileName := String.append i ".jpg"; fileType := image;
     documentType := invoice; date := d; amount := a;
     description := EmptyString; confidence := 95;
     invoiceNumber := n; vendor := v; taxAmount := None;
     invoiceType := t; tripDetails := None;
     status := completed; errorMessage := None |}.

Definition sampleTripSheet (i d : string) (a : Q) (p : string) : DocumentData :=
  {| id := i; fileName := String.append i ".jpg"; fileType := image;
     documentType := trip_sheet; date := d; amount := a;
     description := EmptyString; confidence := 95;
     invoiceNumber := None; vendor := None; taxAmount := None;
     invoiceType := None;
     tripDetails := Some {| platform := p; departure := EmptyString;
                            destination := EmptyString; time := EmptyString;
                            distanceKm := 0 |};
     status := completed; errorMessage := None |}.

(** * Properties *)

(** ** The sort *)
Section SortFacts.
Context {A : Type} (le : A → A → bool).

Lemma insertSorted_perm x l : JS.insertSorted le x l ≡ₚ x :: l.
Proof.
  induction l as [|y l IH]; simpl; [done|].
  destruct (le x y); [done|].
  rewrite IH. apply Permutation_swap.
Qed.

Lemma sort_perm l : JS.sort le l ≡ₚ l.
Proof.
  induction l as [|x l IH]; simpl; [done|].
  unfold JS.sort in *. simpl. rewrite insertSorted_perm. by f_equiv.
Qed.

Lemma sort_length l : length (JS.sort le l) = length l.
Proof. by rewrite sort_perm. Qed.

(** Elements of a class whose members are pairwise in order keep
    their relative order when [x] is inserted. *)
Lemma insertSorted_filter (P : A → Prop) `{!∀ a, Decision (P a)} x l :
  (P x → ∀ y, y ∈ l → P y → le x y = true) →
  filter P (JS.insertSorted le x l) = filter P (x :: l).
Proof.
  induction l as [|y l IH]; intros Hle; simpl; [done|].
  destruct (le x y) eqn:Hxy; [done|].
  rewrite filter_cons, IH.
  - rewrite !filter_cons.
    destruct (decide (P y)) as [Hy|Hy]; [|done].
    destruct (decide (P x)) as [Hx|Hx]; [|done].
    specialize (Hle Hx y (list_elem_of_here _ _) Hy). congruence.
  - intros Hx z Hz. apply Hle; [done|]. by apply list_elem_of_further.
Qed.

Lemma sort_stable (P : A → Prop) `{!∀ a, Decision (P a)} l :
  (∀ x y, P x → P y → le x y = true) →
  filter P (JS.sort le l) = filter P l.
Proof.
  intros Hle. induction l as [|x l IH]; [done|].
  unfold JS.sort in *. simpl.
  rewrite insertSorted_filter by (intros; by apply Hle).
  by rewrite !filter_cons, IH.
Qed.

Lemma insertSorted_sorted x l :
  (∀ a b, le a b = false → le b a = true) →
  (∀ a b c, le a b = true → le b c = true → le a c = true) →
  StronglySorted (λ a b, le a b = true) l →
  StronglySorted (λ a b, le a b = true) (JS.insertSorted le x l).
Proof.
  intros Htotal Htrans. induction l as [|y l IH]; intros Hs; simpl.
  - repeat constructor.
  - apply StronglySorted_inv in Hs as [Hl Hy].
    destruct (le x y) eqn:Hxy.
    + constructor; [by constructor|].
      constructor; [done|].
      eapply Forall_impl; [exact Hy|]. intros; by eapply Htrans.
    + constructor; [by apply IH|].
      rewrite insertSorted_perm. constructor; [by apply Htotal|done].
Qed.

Lemma sort_sorted l :
  (∀ a b, le a b = false → le b a = true) →
  (∀ a b c, le a b = true → le b c = true → le a c = true) →
  StronglySorted (λ a b, le a b = true) (JS.sort le l).
Proof.
  intros Htotal Htrans. induction l as [|x l IH]; [constructor|].
  unfold JS.sort in *. simpl. by apply insertSorted_sorted.
Qed.
End SortFacts.

Lemma StronglySorted_weaken {A} (R S : relation A) (l : list A) :
  (∀ a b, R a b → S a b) → StronglySorted R l → StronglySorted S l.
Proof.
  intros HRS. induction 1 as [|a l Hl IH Ha]; constructor; [done|].
  eapply Forall_impl; [exact Ha|]. intros; by apply HRS.
Qed.

(** ** Lists of documents with distinct ids *)

Lemma NoDup_fmap_elem_inj {A B} (f : A → B) (l : list A) x y :
  NoDup (f <$> l) → x ∈ l → y ∈ l → f x = f y → x = y.
Proof.
  induction l as [|a l IH]; intros Hnd Hx Hy Hf; [by inversion Hx|].
  rewrite fmap_cons, NoDup_cons in Hnd. destruct Hnd as [Ha Hnd].
  apply elem_of_cons in Hx as [->|Hx]; apply elem_of_cons in Hy as [->|Hy].
  - done.
  - exfalso. apply Ha. rewrite Hf. by apply list_elem_of_fmap_2.
  - exfalso. apply Ha. rewrite <- Hf. by apply list_elem_of_fmap_2.
  - by apply IH.
Qed.

Lemma sublist_fmap_filter {A B} (f : A → B) (P : A → Prop)
    `{!∀ a, Decision (P a)} (l : list A) :
  f <$> filter P l `sublist_of` f <$> l.
Proof. apply fmap_sublist, sublist_filter. Qed.

Lemma findById_Some wanted documents d :
  findById wanted documents = Some d → d ∈ documents ∧ id d = wanted.
Proof.
  unfold findById. intros H. apply find_some in H as [Hin Hd].
  apply bool_decide_eq_true in Hd. split; [by apply list_elem_of_In|done].
Qed.

Lemma findById_None wanted documents :
  findById wanted documents = None → wanted ∉ id <$> documents.
Proof.
  unfold findById. intros H Hin.
  apply list_elem_of_fmap in Hin as (d & -> & Hd).
  apply list_elem_of_In in Hd.
  pose proof (find_none _ _ H d Hd) as Hn. simpl in Hn.
  by apply bool_decide_eq_false in Hn.
Qed.

Lemma findById_unique documents d :
  NoDup (id <$> documents) → d ∈ documents →
  findById (id d) documents = Some d.
Proof.
  intros Hnd Hd. destruct (findById (id d) documents) as [d'|] eqn:Hf.
  - apply findById_Some in Hf as [Hd' Hid].
    f_equal. by eapply NoDup_fmap_elem_inj.
  - apply findById_None in Hf. exfalso. apply Hf. by apply list_elem_of_fmap_2.
Qed.

(** ** PairingService: the pairs and the unmatched lists partition the input *)
Section PairingFacts.
Variable currentYear : Z.

Import PairingService.

Lemma considerTripSheet_fold inv matched tripSheets best b :
  foldl (considerTripSheet currentYear inv matched) best tripSheets = Some b →
  best = Some b ∨
  (bestTripSheet b ∈ tripSheets ∧ id (bestTripSheet b) ∉ matched ∧
   bestScore b = score (calculateMatchScore currentYear inv (bestTripSheet b)) ∧
   bestReason b = reason (calculateMatchScore currentYear inv (bestTripSheet b)) ∧
   50 ≤ bestScore b).
Proof.
  revert best. induction tripSheets as [|ts l IH]; intros best H; simpl in H.
  - by left.
  - apply IH in H as [H|H].
    + unfold considerTripSheet in H.
      destruct (decide (id ts ∈ matched)) as [|Hnot]; [by left|].
      destruct (_ && _) eqn:Hc; [|by left].
      right. inversion H; subst; simpl.
      apply andb_true_iff in Hc as [Hc _]. apply Z.leb_le in Hc.
      split_and!; try done. apply list_elem_of_here.
    + right. destruct H as (? & ? & ? & ? & ?).
      split_and!; try done. by apply list_elem_of_further.
Qed.

Definition pairingInv (tripSheets processed : list DocumentData)
    (st : PairingState) : Prop :=
  matchedInvoiceIds st = list_to_set (invoiceId <$> statePairs st) ∧
  matchedTripSheetIds st = list_to_set (tripSheetId <$> statePairs st) ∧
  NoDup (tripSheetId <$> statePairs st) ∧
  (tripSheetId <$> statePairs st) ⊆ (id <$> tripSheets) ∧
  (invoiceId <$> statePairs st) `sublist_of` (id <$> processed).

Lemma pairInvoice_inv tripSheets processed st inv :
  pairingInv tripSheets processed st →
  pairingInv tripSheets (processed ++ [inv])
    (pairInvoice currentYear tripSheets st inv).
Proof.
  intros (HI & HT & Hnd & Hsub & Hsl). unfold pairInvoice.
  destruct (foldl _ None tripSheets) as [b|] eqn:Hb.
  - apply considerTripSheet_fold in Hb as [Hb|(Hin & Hnot & _)]; [done|].
    unfold pairingInv; simpl. rewrite !fmap_app; simpl.
    split_and!.
    + rewrite HI. set_solver.
    + rewrite HT. set_solver.
    + apply NoDup_app. split_and!; [done| |apply NoDup_singleton].
      intros x Hx ->%list_elem_of_singleton. apply Hnot. rewrite HT. set_solver.
    + intros x [Hx| ->%list_elem_of_singleton]%elem_of_app; [by apply Hsub|].
      by apply list_elem_of_fmap_2.
    + by apply sublist_app.
  - unfold pairingInv. split_and!; try done.
    rewrite fmap_app. by apply sublist_inserts_r.
Qed.

Lemma pairing_fold_inv tripSheets invoices :
  pairingInv tripSheets invoices
    (foldl (pairInvoice currentYear tripSheets)
       {| statePairs := []; matchedInvoiceIds := ∅; matchedTripSheetIds := ∅ |}
       invoices).
Proof.
  induction invoices as [|inv l IH] using rev_ind.
  - unfold pairingInv; simpl. split_and!; try done.
    + apply NoDup_nil_2.
    + intros x Hx. by apply elem_of_nil in Hx.
  - rewrite foldl_snoc. by apply pairInvoice_inv.
Qed.

(** A list [picked] of distinct members of a duplicate-free list
    [all], followed by the members of [all] outside it, is [all] up to
    order. *)
Lemma picked_and_rest (picked all : list string) (chosen : gset string) :
  NoDup all → NoDup picked → picked ⊆ all →
  chosen = list_to_set picked →
  picked ++ filter (λ x, x ∉ chosen) all ≡ₚ all.
Proof.
  intros Hall Hp Hsub ->. apply NoDup_Permutation; [|done|].
  - apply NoDup_app. split_and!; [done| |by apply NoDup_filter].
    intros x Hx [Hn _]%list_elem_of_filter. set_solver.
  - intros x. rewrite elem_of_app, list_elem_of_filter. split.
    + intros [Hx|[_ Hx]]; [by apply Hsub|done].
    + intros Hx. destruct (decide (x ∈ picked)); [by left|right].
      split; [set_solver|done].
Qed.

Lemma fmap_filter_id (P : string → Prop) `{!∀ x, Decision (P x)}
    (l : list DocumentData) :
  id <$> filter (λ d, P (id d)) l = filter P (id <$> l).
Proof.
  induction l as [|d l IH]; [done|].
  rewrite filter_cons, fmap_cons, filter_cons.
  destruct (decide (P (id d))); [rewrite fmap_cons|]; by rewrite IH.
Qed.

Lemma invoice_tripSheet_ids_disjoint documents x :
  NoDup (id <$> documents) →
  x ∈ id <$> filter isInvoice documents →
  x ∉ id <$> filter isTripSheet documents.
Proof.
  intros Hnd (d1 & -> & [H1 Hd1]%list_elem_of_filter)%list_elem_of_fmap
         (d2 & Hid & [H2 Hd2]%list_elem_of_filter)%list_elem_of_fmap.
  assert (d1 = d2) by by eapply NoDup_fmap_elem_inj.
  subst. unfold isInvoice, isTripSheet in *. congruence.
Qed.

Lemma pairDocuments_facts documents :
  let r := pairDocuments currentYear documents in
  NoDup (tripSheetId <$> pairs r) ∧
  (tripSheetId <$> pairs r) ⊆ (id <$> filter isTripSheet documents) ∧
  (invoiceId <$> pairs r) `sublist_of` (id <$> filter isInvoice documents).
Proof.
  simpl.
  destruct (pairing_fold_inv (filter isTripSheet documents)
              (filter isInvoice documents)) as (_ & _ & ? & ? & ?).
  done.
Qed.

(** C4.  For documents with distinct ids, no id occurs in two pairs
    of [pairDocuments] (nor twice in one), and per kind the ids in the
    pairs followed by the unmatched ids are, up to order, exactly the
    ids of the input documents of that kind, each once. *)
Theorem pairDocuments_partition (documents : list DocumentData) :
  NoDup (id <$> documents) →
  let r := PairingService.pairDocuments currentYear documents in
  NoDup ((invoiceId <$> pairs r) ++ (tripSheetId <$> pairs r)) ∧
  (invoiceId <$> pairs r) ++ unmatchedInvoices r
    ≡ₚ id <$> filter isInvoice documents ∧
  NoDup ((invoiceId <$> pairs r) ++ unmatchedInvoices r) ∧
  (tripSheetId <$> pairs r) ++ unmatchedTripSheets r
    ≡ₚ id <$> filter isTripSheet documents ∧
  NoDup ((tripSheetId <$> pairs r) ++ unmatchedTripSheets r).
Proof.
  intros Hnd. simpl.
  pose proof (pairing_fold_inv (filter isTripSheet documents)
                (filter isInvoice documents)) as (HI & HT & HndT & HsubT & HslI).
  set (final := foldl _ _ _) in *.
  assert (HndInv : NoDup (id <$> filter isInvoice documents))
    by (apply (sublist_NoDup _ (id <$> documents)); [done|apply sublist_fmap_filter]).
  assert (HndTs : NoDup (id <$> filter isTripSheet documents))
    by (apply (sublist_NoDup _ (id <$> documents)); [done|apply sublist_fmap_filter]).
  assert (HndI : NoDup (invoiceId <$> statePairs final))
    by (by apply (sublist_NoDup _ (id <$> filter isInvoice documents))).
  assert (HpI : (invoiceId <$> statePairs final)
                ++ (id <$> filter (λ inv, id inv ∉ matchedInvoiceIds final)
                             (filter isInvoice documents))
                ≡ₚ id <$> filter isInvoice documents).
  { pose proof (fmap_filter_id (λ x, x ∉ matchedInvoiceIds final)
                  (filter isInvoice documents)) as E.
    simpl in E. rewrite E.
    apply picked_and_rest; try done. by apply sublist_subseteq. }
  assert (HpT : (tripSheetId <$> statePairs final)
                ++ (id <$> filter (λ ts, id ts ∉ matchedTripSheetIds final)
                             (filter isTripSheet documents))
                ≡ₚ id <$> filter isTripSheet documents).
  { pose proof (fmap_filter_id (λ x, x ∉ matchedTripSheetIds final)
                  (filter isTripSheet documents)) as E.
    simpl in E. rewrite E.
    by apply picked_and_rest. }
  split_and!; try done.
  - apply NoDup_app. split_and!; try done.
    intros x Hx Hx'.
    apply (invoice_tripSheet_ids_disjoint documents x Hnd); [|by apply HsubT].
    by eapply sublist_subseteq.
  - by rewrite HpI.
  - by rewrite HpT.
Qed.
End PairingFacts.

(** ** Insertion-ordered maps *)
Section OrderedMapFacts.
Context {K V : Type} `{EqDecision K}.
Implicit Types (m : list (K * V)) (k : K) (v : V).

Lemma mapGet_mapSet_eq k v m : JS.mapGet k (JS.mapSet k v m) = Some v.
Proof.
  induction m as [|[k' w] m IH]; simpl.
  - by rewrite decide_True.
  - destruct (decide (k' = k)) as [->|Hne]; simpl.
    + by rewrite decide_True.
    + by rewrite decide_False.
Qed.

Lemma mapGet_mapSet_ne k k' v m :
  k ≠ k' → JS.mapGet k' (JS.mapSet k v m) = JS.mapGet k' m.
Proof.
  intros Hne. induction m as [|[k0 w] m IH]; simpl.
  - by rewrite decide_False.
  - destruct (decide (k0 = k)) as [->|Hne0]; simpl.
    + by rewrite !decide_False.
    + destruct (decide (k0 = k')); [done|apply IH].
Qed.

Lemma mapSet_keys_present k v m :
  k ∈ m.*1 → (JS.mapSet k v m).*1 = m.*1.
Proof.
  induction m as [|[k0 w] m IH]; intros Hk; simpl.
  - by apply elem_of_nil in Hk.
  - destruct (decide (k0 = k)) as [->|Hne]; simpl; [done|].
    f_equal. apply IH. simpl in Hk. apply elem_of_cons in Hk as [?|?]; [congruence|done].
Qed.

Lemma mapSet_fresh k v m : k ∉ m.*1 → JS.mapSet k v m = m ++ [(k, v)].
Proof.
  induction m as [|[k0 w] m IH]; intros Hk; simpl; [done|].
  simpl in Hk. apply not_elem_of_cons in Hk as [Hne Hk].
  rewrite decide_False by done. by rewrite IH.
Qed.

Lemma mapGet_elem_of k v m : NoDup m.*1 → (k, v) ∈ m → JS.mapGet k m = Some v.
Proof.
  induction m as [|[k0 w] m IH]; intros Hnd Hin; [by apply elem_of_nil in Hin|].
  simpl in *. apply NoDup_cons in Hnd as [Hk0 Hnd].
  apply elem_of_cons in Hin as [Heq|Hin].
  - inversion Heq; subst. by rewrite decide_True.
  - rewrite decide_False; [by apply IH|].
    intros ->. apply Hk0. by apply (list_elem_of_fmap_2 fst _ (k, v)).
Qed.

Lemma mapGet_Some_elem_of k v m : JS.mapGet k m = Some v → (k, v) ∈ m.
Proof.
  induction m as [|[k0 w] m IH]; simpl; [done|].
  destruct (decide (k0 = k)) as [->|Hne].
  - intros [= ->]. apply list_elem_of_here.
  - intros Hg. apply list_elem_of_further. by apply IH.
Qed.

Lemma mapGet_over_keys (d : V) m :
  NoDup m.*1 → (λ k, default d (JS.mapGet k m)) <$> m.*1 = m.*2.
Proof.
  induction m as [|[k v] m IH]; intros Hnd; [done|].
  rewrite !fmap_cons in *. apply NoDup_cons in Hnd as [Hk Hnd].
  cbn [JS.mapGet fst snd]. rewrite decide_True by done. cbn [default]. f_equal.
  rewrite <- IH by done. apply list_fmap_ext.
  intros i k' Hk'. rewrite decide_False; [done|].
  intros ->. apply Hk. by eapply list_elem_of_lookup_2.
Qed.
End OrderedMapFacts.

(** A loop that sets every key of a map once, into a fresh map. *)
Lemma foldl_mapSet_fmap {K V W} `{EqDecision K} (f : K → V → W)
    (m : list (K * V)) (acc : list (K * W)) :
  NoDup m.*1 → (∀ k, k ∈ m.*1 → k ∉ acc.*1) →
  foldl (λ a entry, JS.mapSet entry.1 (f entry.1 entry.2) a) acc m
  = acc ++ ((λ entry, (entry.1, f entry.1 entry.2)) <$> m).
Proof.
  revert acc. induction m as [|[k v] m IH]; intros acc Hnd Hfresh.
  - simpl. by rewrite app_nil_r.
  - rewrite fmap_cons in Hnd. apply NoDup_cons in Hnd as [Hk Hnd].
    cbn [foldl fst snd].
    rewrite mapSet_fresh by (apply Hfresh; rewrite fmap_cons; apply list_elem_of_here).
    rewrite IH; [by rewrite fmap_cons, <- app_assoc|done|].
    intros k' Hk'. rewrite fmap_app, fmap_cons.
    intros [Hin|Hin]%elem_of_app.
    + eapply Hfresh; [|done]. rewrite fmap_cons. by apply list_elem_of_further.
    + apply list_elem_of_singleton in Hin. cbn in Hin. by subst.
Qed.

Definition mapValues {K V W} (f : V → W) (m : list (K * V)) : list (K * W) :=
  (λ entry, (entry.1, f entry.2)) <$> m.

Lemma mapGet_mapValues {K V W} `{EqDecision K} (f : V → W) (k : K)
    (m : list (K * V)) :
  JS.mapGet k (mapValues f m) = f <$> JS.mapGet k m.
Proof.
  induction m as [|[k0 w] m IH]; simpl; [done|].
  destruct (decide (k0 = k)); [done|apply IH].
Qed.

Lemma mapSet_mapValues {K V W} `{EqDecision K} (f : V → W) (k : K) (v : V)
    (m : list (K * V)) :
  JS.mapSet k (f v) (mapValues f m) = mapValues f (JS.mapSet k v m).
Proof.
  unfold mapValues. induction m as [|[k0 w] m IH]; [done|].
  rewrite fmap_cons. cbn [JS.mapSet fst snd].
  destruct (decide (k0 = k)); [done|]. rewrite fmap_cons. cbn [fst snd]. by rewrite IH.
Qed.

Lemma mapValues_keys {K V W} (f : V → W) (m : list (K * V)) :
  (mapValues f m).*1 = m.*1.
Proof. unfold mapValues. rewrite <- list_fmap_compose. by apply list_fmap_ext. Qed.

(** ** SortingService: the shape of the suggested order *)
Section SortingShape.
Variable currentYear : Z.

Import SortingService.

Lemma typeKeys_all (t : InvoiceType) : t ∈ typeKeys.
Proof. unfold typeKeys. destruct t; set_solver. Qed.

Lemma typeKeys_NoDup : NoDup typeKeys.
Proof.
  unfold typeKeys. repeat (apply NoDup_cons_2; [set_solver|]). apply NoDup_nil_2.
Qed.

Lemma placeInvoice_keys documents pairMap st doc :
  st.1.*1 = typeKeys →
  (placeInvoice documents pairMap st doc).1.*1 = typeKeys.
Proof.
  intros Hk. destruct st as [groups processedIds]. unfold placeInvoice.
  repeat case_match; simpl in *; try done;
    rewrite mapSet_keys_present; try done; rewrite Hk; apply typeKeys_all.
Qed.

Lemma placeTripSheet_keys st doc :
  st.1.*1 = typeKeys → (placeTripSheet st doc).1.*1 = typeKeys.
Proof.
  intros Hk. destruct st as [groups processedIds]. unfold placeTripSheet.
  repeat case_match; simpl in *; try done.
  rewrite mapSet_keys_present; try done. rewrite Hk; apply typeKeys_all.
Qed.

Lemma foldl_keys {B} (f : GroupingState → B → GroupingState) (l : list B) st :
  (∀ st b, st.1.*1 = typeKeys → (f st b).1.*1 = typeKeys) →
  st.1.*1 = typeKeys → (foldl f st l).1.*1 = typeKeys.
Proof.
  intros Hf. revert st. induction l as [|b l IH]; intros st Hst; [done|].
  simpl. apply IH. by apply Hf.
Qed.

Lemma groupByExpenseType_keys documents pairMap :
  (groupByExpenseType documents pairMap).*1 = typeKeys.
Proof.
  unfold groupByExpenseType.
  apply (foldl_keys placeTripSheet); [apply placeTripSheet_keys|].
  apply (foldl_keys (placeInvoice documents pairMap));
    [apply placeInvoice_keys|done].
Qed.

(** The buckets after sorting: every bucket of [groups] cut into
    units, the units sorted, and the units laid out again. *)
Definition sortBucket (pairMap : gmap string string) (docs : list DocumentData)
  : list DocumentData :=
  flattenUnits (sortUnits currentYear (createDocumentUnits docs pairMap)).

Lemma sortGroupsByDate_eq groups pairMap :
  NoDup groups.*1 →
  sortGroupsByDate currentYear groups pairMap
  = mapValues (sortBucket pairMap) groups.
Proof.
  intros Hnd. unfold sortGroupsByDate, mapValues.
  rewrite <- (app_nil_l (_ <$> groups)).
  rewrite <- (foldl_mapSet_fmap (λ _, sortBucket pairMap)) by set_solver.
  generalize (@nil (InvoiceType * list DocumentData)).
  clear Hnd. induction groups as [|[t docs] groups IH]; intros acc; [done|].
  simpl. rewrite IH. f_equal. by destruct docs.
Qed.

Lemma bind_fmap_typeKeys (sortedGroups : list (InvoiceType * list DocumentData)) :
  sortedGroups.*1 = typeKeys →
  generateFinalOrder sortedGroups
  = typeKeys ≫= λ t, id <$> default [] (JS.mapGet t sortedGroups).
Proof. intros Hk. unfold generateFinalOrder. by rewrite Hk. Qed.

Lemma mapGet_sortBucket (t : InvoiceType) pairMap groups :
  default [] (JS.mapGet t (mapValues (sortBucket pairMap) groups))
  = sortBucket pairMap (default [] (JS.mapGet t groups)).
Proof. rewrite mapGet_mapValues. by destruct (JS.mapGet t groups). Qed.

(** The order of [sortDocuments] written bucket by bucket. *)
Lemma suggestedOrder_buckets documents pairing :
  suggestedOrder (sortDocuments currentYear documents pairing)
  = typeKeys ≫= λ t,
      id <$> sortBucket (createPairMap pairing)
               (default [] (JS.mapGet t
                  (groupByExpenseType documents (createPairMap pairing)))).
Proof.
  unfold sortDocuments. cbn [suggestedOrder].
  rewrite sortGroupsByDate_eq
    by (rewrite groupByExpenseType_keys; apply typeKeys_NoDup).
  rewrite bind_fmap_typeKeys
    by (rewrite mapValues_keys; apply groupByExpenseType_keys).
  apply list_bind_ext; [|done]. intros t. by rewrite mapGet_sortBucket.
Qed.

(** The date by which a unit is ordered: the parsed date of its
    primary document, [None] when it does not parse. *)
Definition unitDate (u : DocumentUnit) : option Z :=
  JSDate.getTime <$> JSDate.parseDate currentYear (date (primaryDoc u)).

(** Ascending dates, the unparseable ones last. *)
Definition dateLe (a b : option Z) : Prop :=
  match a, b with
  | Some x, Some y => x ≤ y
  | _, None => True
  | None, Some _ => False
  end.

Lemma compareUnits_dateLe a b :
  (compareUnits currentYear a b <=? 0) = true ↔ dateLe (unitDate a) (unitDate b).
Proof.
  unfold compareUnits, unitDate, dateLe.
  destruct (JSDate.parseDate _ (date (primaryDoc a))),
           (JSDate.parseDate _ (date (primaryDoc b))); simpl;
    rewrite Z.leb_le; lia.
Qed.

Lemma sortUnits_sorted units :
  StronglySorted (λ a b, dateLe (unitDate a) (unitDate b))
    (sortUnits currentYear units).
Proof.
  unfold sortUnits.
  eapply StronglySorted_weaken; [|apply sort_sorted].
  - intros a b Hab. by apply compareUnits_dateLe.
  - intros a b Hab. apply compareUnits_dateLe.
    apply not_true_iff_false in Hab. rewrite compareUnits_dateLe in Hab.
    unfold dateLe in *. repeat case_match; try done; lia.
  - intros a b c. rewrite !compareUnits_dateLe. unfold dateLe.
    repeat case_match; try done; lia.
Qed.

Lemma sortUnits_stable (k : option Z) units :
  filter (λ u, unitDate u = k) (sortUnits currentYear units)
  = filter (λ u, unitDate u = k) units.
Proof.
  unfold sortUnits. apply sort_stable.
  intros x y Hx Hy. apply compareUnits_dateLe. rewrite Hx, Hy.
  unfold dateLe. destruct k; [lia|done].
Qed.

Lemma sortUnits_perm units : sortUnits currentYear units ≡ₚ units.
Proof. apply sort_perm. Qed.
End SortingShape.

(** ** SortingService: the buckets are made of units *)
Section SortingUnits.
Import SortingService.
Implicit Types (documents : list DocumentData) (pairMap : gmap string string).
Implicit Types (ug : list (InvoiceType * list DocumentUnit)).

(** The trip sheet that [placeInvoice] and [addUnit] attach to an
    invoice: the document found under the id the pair map gives, when
    that id is truthy. *)
Definition partner documents pairMap (doc : DocumentData) : option DocumentData :=
  match pairMap !! id doc with
  | Some pairedTripSheetId =>
      if JS.truthy pairedTripSheetId
      then findById pairedTripSheetId documents else None
  | None => None
  end.

Definition unitOf documents pairMap (doc : DocumentData) : DocumentUnit :=
  {| primaryDoc := doc; pairedDoc := partner documents pairMap doc |}.

Definition loneUnit (doc : DocumentData) : DocumentUnit :=
  {| primaryDoc := doc; pairedDoc := None |}.

Definition unitsOfGroups ug : list DocumentUnit := mjoin ug.*2.
Definition docsOfGroups ug : list DocumentData := flattenUnits (unitsOfGroups ug).

Global Instance flattenUnits_perm : Proper ((≡ₚ) ==> (≡ₚ)) flattenUnits.
Proof. intros us1 us2 E. unfold flattenUnits. by rewrite E. Qed.

Lemma flattenUnits_app us1 us2 :
  flattenUnits (us1 ++ us2) = flattenUnits us1 ++ flattenUnits us2.
Proof. apply bind_app. Qed.


Lemma flattenUnits_snoc us u : flattenUnits (us ++ [u]) = flattenUnits us ++ unitDocs u.
Proof. rewrite flattenUnits_app. unfold flattenUnits at 2. by rewrite bind_singleton. Qed.

Lemma elem_of_flattenUnits x us :
  x ∈ flattenUnits us ↔
  ∃ u, u ∈ us ∧ (x = primaryDoc u ∨ pairedDoc u = Some x).
Proof.
  unfold flattenUnits. rewrite list_elem_of_bind. split.
  - intros (u & Hx & Hu). exists u. split; [done|].
    unfold unitDocs in Hx. apply elem_of_cons in Hx as [->|Hx]; [by left|right].
    destruct (pairedDoc u); [|by apply elem_of_nil in Hx].
    apply list_elem_of_singleton in Hx. by subst.
  - intros (u & Hu & Hx). exists u. split; [|done].
    unfold unitDocs. destruct Hx as [-> | ->]; [apply list_elem_of_here|].
    apply list_elem_of_further, list_elem_of_here.
Qed.

Lemma partner_Some documents pairMap doc t :
  partner documents pairMap doc = Some t →
  t ∈ documents ∧ pairMap !! id doc = Some (id t) ∧ JS.truthy (id t) = true.
Proof.
  unfold partner. destruct (pairMap !! id doc) as [tid|]; [|done].
  destruct (JS.truthy tid) eqn:Htr; [|done].
  intros [Hin <-]%findById_Some. done.
Qed.

Lemma mapSet_append_perm {V} (k : InvoiceType) (x : list V)
    (m : list (InvoiceType * list V)) :
  k ∈ m.*1 →
  mjoin (JS.mapSet k (default [] (JS.mapGet k m) ++ x) m).*2 ≡ₚ mjoin m.*2 ++ x.
Proof.
  induction m as [|[k0 w] m IH]; intros Hk; [by apply elem_of_nil in Hk|].
  rewrite fmap_cons in Hk. cbn [JS.mapGet JS.mapSet].
  destruct (decide (k0 = k)) as [->|Hne].
  - cbn [default]. rewrite !fmap_cons. cbn [snd mjoin list_join].
    unfold Datatypes.id. rewrite <- !app_assoc. f_equiv. apply Permutation_app_comm.
  - rewrite !fmap_cons. cbn [snd mjoin list_join].
    rewrite IH; [by rewrite app_assoc|].
    apply elem_of_cons in Hk as [Heq|?]; [cbn in Heq; congruence|done].
Qed.

Lemma placeInvoice_invoice documents pairMap groups processedIds doc :
  id doc ∉ processedIds → isInvoice doc →
  placeInvoice documents pairMap (groups, processedIds) doc
  = (JS.mapSet (default other (invoiceType doc))
       (default [] (JS.mapGet (default other (invoiceType doc)) groups)
        ++ unitDocs (unitOf documents pairMap doc)) groups,
     list_to_set (id <$> unitDocs (unitOf documents pairMap doc)) ∪ processedIds).
Proof.
  intros Hnew Hinv. unfold placeInvoice. rewrite decide_False by done.
  rewrite Hinv. unfold unitOf, unitDocs, partner. cbn [primaryDoc pairedDoc].
  destruct (pairMap !! id doc) as [tid|]; [|f_equal; set_solver].
  destruct (JS.truthy tid); [|f_equal; set_solver].
  destruct (findById tid documents) as [t|] eqn:Hf; [|f_equal; set_solver].
  apply findById_Some in Hf as [_ <-].
  f_equal; [by rewrite <- app_assoc|set_solver].
Qed.

(** What the pair map must satisfy for the grouping to come out in
    units: a partner is a trip sheet, and no two invoices share one. *)
Record pairMapOK documents pairMap : Prop := {
    partner_tripSheet d t :
      d ∈ documents → isInvoice d →
      partner documents pairMap d = Some t → isTripSheet t;
    partner_inj d1 d2 t :
      d1 ∈ documents → d2 ∈ documents → isInvoice d1 → isInvoice d2 →
      partner documents pairMap d1 = Some t →
      partner documents pairMap d2 = Some t → d1 = d2
  }.

Lemma not_both_kinds d : isInvoice d → isTripSheet d → False.
Proof. unfold isInvoice, isTripSheet. congruence. Qed.

Lemma prefix_id_fresh (seen rest : list DocumentData) doc x :
  NoDup (id <$> seen ++ doc :: rest) → x ∈ seen → id x ≠ id doc.
Proof.
  rewrite fmap_app. intros (_ & Hdisj & _)%NoDup_app Hx Heq.
  apply (Hdisj (id x)); [by apply list_elem_of_fmap_2|].
  rewrite Heq, fmap_cons. apply list_elem_of_here.
Qed.

(** The state of the first loop of [groupByExpenseType] after the
    documents [seen]. *)
Definition invoicesPlaced documents pairMap (seen : list DocumentData)
    (st : GroupingState) ug : Prop :=
  st.1 = mapValues flattenUnits ug ∧
  ug.*1 = typeKeys ∧
  (∀ x, x ∈ st.2 ↔ x ∈ id <$> docsOfGroups ug) ∧
  NoDup (id <$> docsOfGroups ug) ∧
  (∀ u, u ∈ unitsOfGroups ug →
     primaryDoc u ∈ seen ∧ isInvoice (primaryDoc u) ∧
     u = unitOf documents pairMap (primaryDoc u)) ∧
  (∀ d, d ∈ seen → isInvoice d →
     ∃ us, JS.mapGet (default other (invoiceType d)) ug = Some us ∧
           unitOf documents pairMap d ∈ us).

Lemma mapGet_default_mapValues (t : InvoiceType) ug :
  default [] (JS.mapGet t (mapValues flattenUnits ug))
  = flattenUnits (default [] (JS.mapGet t ug)).
Proof. rewrite mapGet_mapValues. by destruct (JS.mapGet t ug). Qed.

Lemma placeInvoice_inv documents pairMap seen rest doc st ug :
  documents = seen ++ doc :: rest →
  NoDup (id <$> documents) →
  pairMapOK documents pairMap →
  invoicesPlaced documents pairMap seen st ug →
  ∃ ug', invoicesPlaced documents pairMap (seen ++ [doc])
           (placeInvoice documents pairMap st doc) ug'.
Proof.
  intros Hdocs Hnd Hok (HA & HB & HC & HD & HE & HF).
  destruct st as [groups processed]. cbn [fst snd] in *.
  assert (Hsame : ∀ a b, a ∈ documents → b ∈ documents → id a = id b → a = b)
    by (intros a b; by apply NoDup_fmap_elem_inj).
  assert (Hseen : ∀ x, x ∈ seen → x ∈ documents)
    by (intros x Hx; rewrite Hdocs; apply elem_of_app; by left).
  assert (Hdoc : doc ∈ documents)
    by (rewrite Hdocs; apply elem_of_app; right; apply list_elem_of_here).
  assert (Hfresh : ∀ x, x ∈ seen → id x ≠ id doc)
    by (intros x Hx; eapply prefix_id_fresh; [by rewrite <- Hdocs|done]).
  destruct (decide (isInvoice doc)) as [Hinv|Htrip].
  - (* an invoice: it opens a new unit *)
    assert (Hin_docs : ∀ y, y ∈ docsOfGroups ug → y ∈ documents).
    { intros y (u & Hu & Hy)%elem_of_flattenUnits.
      destruct (HE u Hu) as (Hp & _ & Hunit). destruct Hy as [->|Hy]; [by apply Hseen|].
      rewrite Hunit in Hy. cbn in Hy. by apply partner_Some in Hy as [? _]. }
    assert (Hnot : ∀ y, y ∈ docsOfGroups ug → y ≠ doc).
    { intros y (u & Hu & Hy)%elem_of_flattenUnits ->.
      destruct (HE u Hu) as (Hp & Hpi & Hunit). destruct Hy as [->|Hy].
      - by apply (Hfresh _ Hp).
      - rewrite Hunit in Hy. cbn in Hy.
        eapply not_both_kinds; [exact Hinv|].
        apply (partner_tripSheet _ _ Hok (primaryDoc u) doc (Hseen _ Hp) Hpi Hy). }
    assert (Hnew : id doc ∉ processed).
    { intros (y & Hy & Hyin)%HC%list_elem_of_fmap.
      apply (Hnot y Hyin). apply Hsame; [by apply Hin_docs|done|done]. }
    assert (Hpartner_new :
      ∀ t, partner documents pairMap doc = Some t → id t ∉ processed ∧ id t ≠ id doc).
    { intros t Ht. pose proof (partner_Some _ _ _ _ Ht) as (Htin & _).
      assert (Htt : isTripSheet t)
        by apply (partner_tripSheet _ _ Hok doc t Hdoc Hinv Ht).
      split.
      - intros (y & Hy & Hyin)%HC%list_elem_of_fmap.
        assert (y = t) by (apply Hsame; [by apply Hin_docs|done|done]).
        subst y. apply elem_of_flattenUnits in Hyin as (u & Hu & Hy').
        destruct (HE u Hu) as (Hp & Hpi & Hunit). destruct Hy' as [->|Hy'].
        + by eapply not_both_kinds.
        + rewrite Hunit in Hy'. cbn in Hy'.
          assert (primaryDoc u = doc)
            by apply (partner_inj _ _ Hok (primaryDoc u) doc t
                        (Hseen _ Hp) Hdoc Hpi Hinv Hy' Ht).
          by apply (Hfresh _ Hp); f_equal.
      - intros Heq. assert (t = doc) by by apply Hsame.
        subst t. by eapply not_both_kinds. }
    rewrite placeInvoice_invoice by done.
    set (u := unitOf documents pairMap doc).
    set (T := default other (invoiceType doc)).
    exists (JS.mapSet T (default [] (JS.mapGet T ug) ++ [u]) ug).
    assert (Hperm : unitsOfGroups (JS.mapSet T (default [] (JS.mapGet T ug) ++ [u]) ug)
                    ≡ₚ unitsOfGroups ug ++ [u])
      by (apply mapSet_append_perm; rewrite HB; apply typeKeys_all).
    assert (Hdperm : docsOfGroups (JS.mapSet T (default [] (JS.mapGet T ug) ++ [u]) ug)
                     ≡ₚ docsOfGroups ug ++ unitDocs u)
      by (unfold docsOfGroups; by rewrite Hperm, flattenUnits_snoc).
    assert (Hu_ids : ∀ x, x ∈ id <$> unitDocs u → x ∉ processed).
    { intros x (y & -> & Hy)%list_elem_of_fmap. unfold unitDocs, u, unitOf in Hy.
      cbn in Hy. apply elem_of_cons in Hy as [->|Hy]; [done|].
      destruct (partner documents pairMap doc) as [t|] eqn:Ht;
        [|by apply elem_of_nil in Hy].
      apply list_elem_of_singleton in Hy as ->. by apply Hpartner_new. }
    unfold invoicesPlaced. cbn [fst snd]. split_and!.
    + rewrite HA, mapGet_default_mapValues, <- flattenUnits_snoc.
      apply mapSet_mapValues.
    + rewrite mapSet_keys_present; [done|]. rewrite HB. apply typeKeys_all.
    + intros x. rewrite Hdperm, fmap_app, elem_of_app, elem_of_union, <- HC.
      rewrite elem_of_list_to_set. tauto.
    + rewrite Hdperm, fmap_app. apply NoDup_app. split_and!; [done| |].
      * intros x Hx%HC Hx'. by apply (Hu_ids x).
      * unfold unitDocs, u, unitOf. cbn.
        destruct (partner documents pairMap doc) as [t|] eqn:Ht.
        -- apply NoDup_cons_2; [|apply NoDup_singleton].
           intros (y & Hy & ->%list_elem_of_singleton)%list_elem_of_fmap.
           destruct (Hpartner_new t eq_refl) as [_ Hne]. by apply Hne.
        -- apply NoDup_singleton.
    + intros u'. rewrite Hperm. intros [Hu'|Hu'%list_elem_of_singleton]%elem_of_app.
      * destruct (HE u' Hu') as (? & ? & ?). split_and!; try done.
        apply elem_of_app; by left.
      * subst u'. split_and!; try done.
        apply elem_of_app; right; apply list_elem_of_here.
    + intros d [Hd| ->%list_elem_of_singleton]%elem_of_app Hdi.
      * destruct (HF d Hd Hdi) as (us & Hus & Hin).
        destruct (decide (T = default other (invoiceType d))) as [Heq|Hne].
        -- eexists. rewrite <- Heq, mapGet_mapSet_eq. split; [done|].
           rewrite Heq, Hus. cbn. apply elem_of_app; by left.
        -- exists us. by rewrite mapGet_mapSet_ne.
      * eexists. fold T. rewrite mapGet_mapSet_eq. split; [done|].
        apply elem_of_app; right; apply list_elem_of_here.
  - (* a trip sheet: left for the second loop *)
    assert (Hty : documentType doc = trip_sheet)
      by (unfold isInvoice in Htrip; by destruct (documentType doc)).
    assert (Hskip : placeInvoice documents pairMap (groups, processed) doc
                    = (groups, processed)).
    { unfold placeInvoice. rewrite Hty. by destruct (decide _). }
    rewrite Hskip. exists ug. unfold invoicesPlaced. cbn [fst snd].
    split_and!; try done.
    + intros u Hu. destruct (HE u Hu) as (? & ? & ?). split_and!; try done.
      apply elem_of_app; by left.
    + intros d [Hd| ->%list_elem_of_singleton]%elem_of_app Hdi; [by apply HF|done].
Qed.

Definition emptyUnitGroups : list (InvoiceType * list DocumentUnit) :=
  (λ t, (t, [])) <$> typeKeys.

Lemma placeInvoice_fold documents pairMap seen rest :
  documents = seen ++ rest →
  NoDup (id <$> documents) →
  pairMapOK documents pairMap →
  ∃ ug, invoicesPlaced documents pairMap seen
          (foldl (placeInvoice documents pairMap)
             (foldl (λ g t, JS.mapSet t [] g) [] typeKeys, ∅) seen) ug.
Proof.
  revert rest. induction seen as [|doc seen IH] using rev_ind;
    intros rest Hdocs Hnd Hok.
  - exists emptyUnitGroups. unfold invoicesPlaced. cbn [foldl fst snd].
    change (unitsOfGroups emptyUnitGroups) with (@nil DocumentUnit).
    change (docsOfGroups emptyUnitGroups) with (@nil DocumentData).
    split_and!.
    + done.
    + done.
    + intros x. rewrite fmap_nil. set_solver.
    + apply NoDup_nil_2.
    + intros u Hu. by apply elem_of_nil in Hu.
    + intros d Hd. by apply elem_of_nil in Hd.
  - rewrite foldl_snoc. rewrite <- app_assoc in Hdocs.
    destruct (IH _ Hdocs Hnd Hok) as (ug & Hug).
    by eapply placeInvoice_inv.
Qed.

(** The state of the second loop of [groupByExpenseType] after the
    documents [seen]. *)
Definition tripSheetsPlaced documents pairMap (seen : list DocumentData)
    (st : GroupingState) ug : Prop :=
  st.1 = mapValues flattenUnits ug ∧
  ug.*1 = typeKeys ∧
  (∀ x, x ∈ st.2 ↔ x ∈ id <$> docsOfGroups ug) ∧
  NoDup (id <$> docsOfGroups ug) ∧
  (∀ u, u ∈ unitsOfGroups ug →
     primaryDoc u ∈ documents ∧
     ((isInvoice (primaryDoc u) ∧ u = unitOf documents pairMap (primaryDoc u))
      ∨ (isTripSheet (primaryDoc u) ∧ u = loneUnit (primaryDoc u)))) ∧
  (∀ d, d ∈ documents → isInvoice d →
     ∃ us, JS.mapGet (default other (invoiceType d)) ug = Some us ∧
           unitOf documents pairMap d ∈ us) ∧
  (∀ d, d ∈ seen → isTripSheet d → id d ∈ st.2).

Lemma placeTripSheet_inv documents pairMap seen doc st ug :
  doc ∈ documents →
  tripSheetsPlaced documents pairMap seen st ug →
  ∃ ug', tripSheetsPlaced documents pairMap (seen ++ [doc])
           (placeTripSheet st doc) ug'.
Proof.
  intros Hdoc (HA & HB & HC & HD & HE & HF & HH).
  destruct st as [groups processed]. cbn [fst snd] in *.
  unfold placeTripSheet.
  destruct (documentType doc) eqn:Hty.
  - exists ug. unfold tripSheetsPlaced. cbn [fst snd]. split_and!; try done.
    intros d [Hd| ->%list_elem_of_singleton]%elem_of_app Hdt; [by apply HH|].
    unfold isTripSheet in Hdt. congruence.
  - destruct (decide (id doc ∈ processed)) as [Hin|Hnew].
    + exists ug. unfold tripSheetsPlaced. cbn [fst snd]. split_and!; try done.
      intros d [Hd| ->%list_elem_of_singleton]%elem_of_app Hdt; [by apply HH|done].
    + set (u := loneUnit doc).
      exists (JS.mapSet other (default [] (JS.mapGet other ug) ++ [u]) ug).
      assert (Hperm :
        unitsOfGroups (JS.mapSet other (default [] (JS.mapGet other ug) ++ [u]) ug)
        ≡ₚ unitsOfGroups ug ++ [u])
        by (apply mapSet_append_perm; rewrite HB; apply typeKeys_all).
      assert (Hdperm :
        docsOfGroups (JS.mapSet other (default [] (JS.mapGet other ug) ++ [u]) ug)
        ≡ₚ docsOfGroups ug ++ [doc])
        by (unfold docsOfGroups; by rewrite Hperm, flattenUnits_snoc).
      unfold tripSheetsPlaced. cbn [fst snd]. split_and!.
      * rewrite HA, mapGet_default_mapValues.
        change [doc] with (unitDocs u). rewrite <- flattenUnits_snoc.
        apply mapSet_mapValues.
      * rewrite mapSet_keys_present; [done|]. rewrite HB. apply typeKeys_all.
      * intros x. rewrite Hdperm, fmap_app, elem_of_app, elem_of_union, <- HC.
        rewrite list_fmap_singleton, list_elem_of_singleton, elem_of_singleton. tauto.
      * rewrite Hdperm, fmap_app. apply NoDup_app. split_and!; [done| |].
        -- intros x Hx%HC. rewrite list_fmap_singleton, list_elem_of_singleton.
           by intros ->.
        -- apply NoDup_singleton.
      * intros u'. rewrite Hperm.
        intros [Hu'|Hu'%list_elem_of_singleton]%elem_of_app; [by apply HE|].
        subst u'. split; [done|right]. done.
      * intros d Hd Hdi. destruct (HF d Hd Hdi) as (us & Hus & Hin).
        destruct (decide (other = default other (invoiceType d))) as [Heq|Hne].
        -- eexists. rewrite <- Heq, mapGet_mapSet_eq. split; [done|].
           rewrite Heq, Hus. cbn. apply elem_of_app; by left.
        -- exists us. by rewrite mapGet_mapSet_ne.
      * intros d [Hd| ->%list_elem_of_singleton]%elem_of_app Hdt.
        -- apply elem_of_union; right. by apply HH.
        -- apply elem_of_union; left. by apply elem_of_singleton.
Qed.

Lemma placeTripSheet_fold documents pairMap seen rest st ug :
  documents = seen ++ rest →
  tripSheetsPlaced documents pairMap [] st ug →
  ∃ ug', tripSheetsPlaced documents pairMap seen (foldl placeTripSheet st seen) ug'.
Proof.
  revert rest. induction seen as [|doc seen IH] using rev_ind; intros rest Hdocs H0.
  - by exists ug.
  - rewrite foldl_snoc. rewrite <- app_assoc in Hdocs.
    destruct (IH _ Hdocs H0) as (ug' & Hug').
    eapply placeTripSheet_inv; [|done].
    rewrite Hdocs. apply elem_of_app; right.
    apply elem_of_app; left. apply list_elem_of_here.
Qed.

(** The buckets of [groupByExpenseType], read as lists of units. *)
Record GroupedInUnits documents pairMap ug : Prop := {
    grouped_keys : ug.*1 = typeKeys;
    grouped_nodup : NoDup (id <$> docsOfGroups ug);
    grouped_perm : docsOfGroups ug ≡ₚ documents;
    grouped_shape u :
      u ∈ unitsOfGroups ug →
      primaryDoc u ∈ documents ∧
      ((isInvoice (primaryDoc u) ∧ u = unitOf documents pairMap (primaryDoc u))
       ∨ (isTripSheet (primaryDoc u) ∧ u = loneUnit (primaryDoc u)));
    grouped_invoice d :
      d ∈ documents → isInvoice d →
      ∃ us, JS.mapGet (default other (invoiceType d)) ug = Some us ∧
            unitOf documents pairMap d ∈ us
  }.

Lemma units_of_bucket (t : InvoiceType) ug us u :
  JS.mapGet t ug = Some us → u ∈ us → u ∈ unitsOfGroups ug.
Proof.
  intros Hg Hu. apply mapGet_Some_elem_of in Hg.
  unfold unitsOfGroups. apply list_elem_of_join. exists us. split; [done|].
  by apply (list_elem_of_fmap_2 snd _ (t, us)).
Qed.

Lemma groupByExpenseType_units documents pairMap :
  NoDup (id <$> documents) →
  pairMapOK documents pairMap →
  ∃ ug, groupByExpenseType documents pairMap = mapValues flattenUnits ug ∧
        GroupedInUnits documents pairMap ug.
Proof.
  intros Hnd Hok. unfold groupByExpenseType.
  destruct (placeInvoice_fold documents pairMap documents []) as (ug1 & H1);
    [by rewrite app_nil_r|done|done|].
  set (st1 := foldl (placeInvoice documents pairMap) _ documents) in *.
  destruct H1 as (HA & HB & HC & HD & HE & HF).
  destruct (placeTripSheet_fold documents pairMap documents [] st1 ug1) as (ug & H2);
    [by rewrite app_nil_r| |].
  { unfold tripSheetsPlaced. split_and!; try done.
    - intros u Hu. destruct (HE u Hu) as (? & ? & ?). split; [done|by left].
    - intros d Hd. by apply elem_of_nil in Hd. }
  destruct H2 as (HA2 & HB2 & HC2 & HD2 & HE2 & HF2 & HH2).
  exists ug. split; [done|].
  assert (Hsub : ∀ y, y ∈ docsOfGroups ug → y ∈ documents).
  { intros y (u & Hu & Hy)%elem_of_flattenUnits.
    destruct (HE2 u Hu) as (Hp & Hshape). destruct Hy as [->|Hy]; [done|].
    destruct Hshape as [[_ Hunit]|[_ Hunit]]; rewrite Hunit in Hy; cbn in Hy; [|done].
    by apply partner_Some in Hy as [? _]. }
  split; try done.
  apply NoDup_Permutation.
  - by eapply NoDup_fmap_1.
  - by eapply NoDup_fmap_1.
  - intros d. split; [apply Hsub|]. intros Hd.
    destruct (decide (isInvoice d)) as [Hdi|Hdt].
    + destruct (HF2 d Hd Hdi) as (us & Hus & Hin).
      apply elem_of_flattenUnits. exists (unitOf documents pairMap d).
      split; [by eapply units_of_bucket|by left].
    + assert (Hts : isTripSheet d)
        by (unfold isInvoice, isTripSheet in *; by destruct (documentType d)).
      pose proof (HH2 d Hd Hts) as Hin. apply HC2 in Hin.
      apply list_elem_of_fmap in Hin as (y & Hy & Hyin).
      assert (y = d) by (apply (NoDup_fmap_elem_inj id documents); auto).
      by subst.
Qed.

Lemma findById_absent wanted documents :
  wanted ∉ id <$> documents → findById wanted documents = None.
Proof.
  intros Hnot. destruct (findById wanted documents) as [d|] eqn:Hf; [|done].
  apply findById_Some in Hf as [Hd <-]. exfalso. apply Hnot.
  by apply list_elem_of_fmap_2.
Qed.

(** Looked up inside its own bucket, the partner of an invoice is the
    one found among all the documents. *)
Lemma partner_in_bucket documents pairMap (bucket : list DocumentData) d :
  (∀ y, y ∈ bucket → y ∈ documents) →
  NoDup (id <$> bucket) →
  (∀ t, partner documents pairMap d = Some t → t ∈ bucket) →
  partner bucket pairMap d = partner documents pairMap d.
Proof.
  intros Hsub Hnd Hin. unfold partner in *.
  destruct (pairMap !! id d) as [tid|]; [|done].
  destruct (JS.truthy tid); [|done].
  destruct (findById tid documents) as [t|] eqn:Hf.
  - pose proof (findById_Some _ _ _ Hf) as [_ <-].
    apply findById_unique; [done|by apply Hin].
  - apply findById_absent. intros (y & -> & Hy)%list_elem_of_fmap.
    apply findById_None in Hf. apply Hf, list_elem_of_fmap_2. by apply Hsub.
Qed.

Lemma addUnit_unit documents pairMap (bucket : list DocumentData) units processed u :
  (∀ y, y ∈ bucket → y ∈ documents) →
  NoDup (id <$> bucket) →
  (∀ y, y ∈ unitDocs u → y ∈ bucket) →
  (∀ y, y ∈ unitDocs u → id y ∉ processed) →
  (isInvoice (primaryDoc u) ∧ u = unitOf documents pairMap (primaryDoc u))
  ∨ (isTripSheet (primaryDoc u) ∧ u = loneUnit (primaryDoc u)) →
  foldl (addUnit bucket pairMap) (units, processed) (unitDocs u)
  = (units ++ [u], list_to_set (id <$> unitDocs u) ∪ processed).
Proof.
  intros Hsub Hnd Hin Hnew Hshape.
  assert (Hp : id (primaryDoc u) ∉ processed)
    by (apply Hnew; unfold unitDocs; apply list_elem_of_here).
  destruct Hshape as [[Hinv Hu]|[Hts Hu]].
  - assert (Hpartner : partner bucket pairMap (primaryDoc u) = pairedDoc u).
    { rewrite (partner_in_bucket documents); [by rewrite Hu at 2|done|done|].
      intros t Ht. apply Hin. unfold unitDocs. rewrite Hu. cbn. rewrite Ht.
      apply list_elem_of_further, list_elem_of_here. }
    unfold unitDocs in *. cbn [foldl]. unfold addUnit at 2.
    rewrite decide_False by done. rewrite Hinv.
    fold (partner bucket pairMap (primaryDoc u)). rewrite Hpartner.
    replace {| primaryDoc := primaryDoc u; pairedDoc := pairedDoc u |} with u
      by by destruct u.
    destruct (pairedDoc u) as [t|]; cbn [foldl].
    + unfold addUnit. rewrite decide_True by set_solver. f_equal. set_solver.
    + f_equal. set_solver.
  - unfold unitDocs in *. rewrite Hu in *. cbn in *.
    unfold addUnit. rewrite decide_False by done. rewrite Hts.
    f_equal. set_solver.
Qed.

Lemma createDocumentUnits_fold documents pairMap (bucket : list DocumentData) us2 :
  ∀ us1,
  bucket = flattenUnits (us1 ++ us2) →
  (∀ y, y ∈ bucket → y ∈ documents) →
  NoDup (id <$> bucket) →
  (∀ u, u ∈ us2 →
     (isInvoice (primaryDoc u) ∧ u = unitOf documents pairMap (primaryDoc u))
     ∨ (isTripSheet (primaryDoc u) ∧ u = loneUnit (primaryDoc u))) →
  (foldl (addUnit bucket pairMap)
     (us1, list_to_set (id <$> flattenUnits us1)) (flattenUnits us2)).1
  = us1 ++ us2.
Proof.
  induction us2 as [|u us2 IH]; intros us1 Hb Hsub Hnd Hshape.
  - by rewrite app_nil_r.
  - unfold flattenUnits at 2. rewrite bind_cons. fold (flattenUnits us2).
    rewrite foldl_app.
    assert (Hb' : bucket = flattenUnits us1 ++ unitDocs u ++ flattenUnits us2).
    { rewrite Hb, flattenUnits_app. unfold flattenUnits at 2.
      by rewrite bind_cons. }
    rewrite (addUnit_unit documents); try done.
    + replace (list_to_set (id <$> unitDocs u) ∪ list_to_set (id <$> flattenUnits us1))
        with (list_to_set (C:=gset string) (id <$> flattenUnits (us1 ++ [u]))).
      * rewrite IH; [by rewrite <- app_assoc|by rewrite <- app_assoc|done|done|].
        intros u' Hu'. apply Hshape. by apply list_elem_of_further.
      * rewrite flattenUnits_snoc, fmap_app, list_to_set_app_L. set_solver.
    + intros y Hy. rewrite Hb'. apply elem_of_app; right. apply elem_of_app; by left.
    + intros y Hy Hin. apply elem_of_list_to_set in Hin.
      rewrite Hb', fmap_app in Hnd. apply NoDup_app in Hnd as (_ & Hdisj & _).
      apply (Hdisj _ Hin). rewrite fmap_app. apply elem_of_app; left.
      by apply list_elem_of_fmap_2.
    + apply Hshape, list_elem_of_here.
Qed.

(** [createDocumentUnits] finds again the units a bucket is made of. *)
Lemma createDocumentUnits_units documents pairMap us :
  (∀ y, y ∈ flattenUnits us → y ∈ documents) →
  NoDup (id <$> flattenUnits us) →
  (∀ u, u ∈ us →
     (isInvoice (primaryDoc u) ∧ u = unitOf documents pairMap (primaryDoc u))
     ∨ (isTripSheet (primaryDoc u) ∧ u = loneUnit (primaryDoc u))) →
  createDocumentUnits (flattenUnits us) pairMap = us.
Proof.
  intros Hsub Hnd Hshape. unfold createDocumentUnits.
  by apply (createDocumentUnits_fold documents pairMap (flattenUnits us) us []).
Qed.
End SortingUnits.

(** ** SortingService after PairingService *)
Section SortingAfterPairing.
Variable currentYear : Z.

Import SortingService.
Implicit Types (documents : list DocumentData) (pairing : PairingResult).

Lemma createPairMap_lookup pairing k v :
  createPairMap pairing !! k = Some v →
  ∃ p, p ∈ pairs pairing ∧
       ((invoiceId p = k ∧ tripSheetId p = v)
        ∨ (tripSheetId p = k ∧ invoiceId p = v)).
Proof.
  unfold createPairMap. generalize (pairs pairing). clear pairing.
  intros l. induction l as [|q l IH] using rev_ind.
  - simpl. by rewrite lookup_empty.
  - rewrite foldl_snoc.
    intros [[<- <-]|[Hne H]]%lookup_insert_Some.
    + exists q. split; [apply elem_of_app; right; apply list_elem_of_here|by right].
    + apply lookup_insert_Some in H as [[<- <-]|[Hne' H]].
      * exists q. split; [apply elem_of_app; right; apply list_elem_of_here|by left].
      * destruct (IH H) as (p & Hp & Hcase). exists p.
        split; [apply elem_of_app; by left|done].
Qed.


(** What [pairDocuments] yields on documents with distinct ids. *)
Record PairsOfDocuments documents (pairing : PairingResult) : Prop := {
    pairs_invoices : ∀ p, p ∈ pairs pairing →
      ∃ d, d ∈ documents ∧ isInvoice d ∧ id d = invoiceId p;
    pairs_tripSheets : ∀ p, p ∈ pairs pairing →
      ∃ t, t ∈ documents ∧ isTripSheet t ∧ id t = tripSheetId p;
    pairs_invoice_once : NoDup (invoiceId <$> pairs pairing);
    pairs_tripSheet_once : NoDup (tripSheetId <$> pairs pairing)
  }.

Lemma pairDocuments_pairs documents :
  NoDup (id <$> documents) →
  PairsOfDocuments documents (PairingService.pairDocuments currentYear documents).
Proof.
  intros Hnd.
  destruct (pairDocuments_facts currentYear documents) as (HndT & HsubT & HslI).
  split.
  - intros p Hp.
    assert (Hin : invoiceId p ∈ id <$> filter isInvoice documents)
      by (eapply sublist_subseteq; [exact HslI|by apply list_elem_of_fmap_2]).
    apply list_elem_of_fmap in Hin as (d & Hid & [Hdi Hd]%list_elem_of_filter).
    by exists d.
  - intros p Hp.
    assert (Hin : tripSheetId p ∈ id <$> filter isTripSheet documents)
      by (apply HsubT; by apply list_elem_of_fmap_2).
    apply list_elem_of_fmap in Hin as (t & Hid & [Hti Ht]%list_elem_of_filter).
    by exists t.
  - apply (sublist_NoDup _ (id <$> filter isInvoice documents)); [|done].
    apply (sublist_NoDup _ (id <$> documents)); [done|apply sublist_fmap_filter].
  - done.
Qed.


Lemma pairMapOK_of_pairs documents pairing :
  NoDup (id <$> documents) → PairsOfDocuments documents pairing →
  pairMapOK documents (createPairMap pairing).
Proof.
  intros Hnd Hp.
  assert (Hpair : ∀ d t, d ∈ documents → isInvoice d →
            partner documents (createPairMap pairing) d = Some t →
            ∃ p, p ∈ pairs pairing ∧ invoiceId p = id d ∧ tripSheetId p = id t).
  { intros d t Hd Hdi Hpt. apply partner_Some in Hpt as (Ht & Hlook & _).
    apply createPairMap_lookup in Hlook as (p & Hpp & [[? ?]|[Hbad _]]);
      [by exists p|].
    exfalso. destruct (pairs_tripSheets _ _ Hp p Hpp) as (t' & Ht' & Hti' & Hidt').
    assert (t' = d) by (apply (NoDup_fmap_elem_inj id documents); auto; congruence).
    subst. by eapply not_both_kinds. }
  split.
  - intros d t Hd Hdi Hpt.
    pose proof (partner_Some _ _ _ _ Hpt) as (Ht & _).
    destruct (Hpair d t Hd Hdi Hpt) as (p & Hpp & _ & Hidt).
    destruct (pairs_tripSheets _ _ Hp p Hpp) as (t' & Ht' & Hti' & Hidt').
    assert (t' = t) by (apply (NoDup_fmap_elem_inj id documents); auto; congruence).
    by subst.
  - intros d1 d2 t Hd1 Hd2 Hi1 Hi2 Hp1 Hp2.
    destruct (Hpair d1 t Hd1 Hi1 Hp1) as (p1 & Hpp1 & Hid1 & Hit1).
    destruct (Hpair d2 t Hd2 Hi2 Hp2) as (p2 & Hpp2 & Hid2 & Hit2).
    assert (p1 = p2).
    { apply (NoDup_fmap_elem_inj tripSheetId (pairs pairing)); auto.
      - apply (pairs_tripSheet_once _ _ Hp).
      - congruence. }
    subst. apply (NoDup_fmap_elem_inj id documents); auto. congruence.
Qed.


Lemma bind_perm_pointwise {A B} (f g : A → list B) (l : list A) :
  (∀ x, f x ≡ₚ g x) → l ≫= f ≡ₚ l ≫= g.
Proof.
  intros Hfg. induction l as [|x l IH]; [done|].
  by rewrite !bind_cons, Hfg, IH.
Qed.

Lemma bind_fmap_out {A B C} (h : B → C) (f : A → list B) (l : list A) :
  l ≫= (λ x, h <$> f x) = h <$> (l ≫= f).
Proof.
  induction l as [|x l IH]; [done|]. by rewrite !bind_cons, fmap_app, IH.
Qed.

Lemma bind_flattenUnits {A} (f : A → list DocumentUnit) (l : list A) :
  l ≫= (λ x, flattenUnits (f x)) = flattenUnits (l ≫= f).
Proof.
  induction l as [|x l IH]; [done|].
  by rewrite !bind_cons, flattenUnits_app, IH.
Qed.

Lemma bind_as_join {A B} (f : A → list B) (l : list A) :
  l ≫= f = mjoin (f <$> l).
Proof. induction l as [|x l IH]; [done|]. by rewrite bind_cons, fmap_cons, IH. Qed.

Lemma sublist_of_join {A} (x : list A) (ls : list (list A)) :
  x ∈ ls → x `sublist_of` mjoin ls.
Proof.
  intros (a & b & ->)%list_elem_of_split.
  rewrite join_app. cbn [mjoin list_join].
  apply sublist_inserts_l, sublist_inserts_r. done.
Qed.

Lemma bucket_sublist (t : InvoiceType) (ug : list (InvoiceType * list DocumentUnit)) :
  default [] (JS.mapGet t ug) `sublist_of` unitsOfGroups ug.
Proof.
  destruct (JS.mapGet t ug) as [us|] eqn:Hg; [|apply sublist_nil_l].
  apply mapGet_Some_elem_of in Hg. cbn. apply sublist_of_join.
  by apply (list_elem_of_fmap_2 snd _ (t, us)).
Qed.

(** The suggested order, bucket by bucket, in units. *)
Lemma sortDocuments_units documents pairing :
  NoDup (id <$> documents) → PairsOfDocuments documents pairing →
  ∃ ug, GroupedInUnits documents (createPairMap pairing) ug ∧
        suggestedOrder (sortDocuments currentYear documents pairing)
        = typeKeys ≫= λ t,
            id <$> flattenUnits (sortUnits currentYear (default [] (JS.mapGet t ug))).
Proof.
  intros Hnd Hp.
  destruct (groupByExpenseType_units documents (createPairMap pairing) Hnd
              (pairMapOK_of_pairs _ _ Hnd Hp)) as (ug & Hgroups & Hug).
  exists ug. split; [done|].
  rewrite suggestedOrder_buckets, Hgroups.
  apply list_bind_ext; [|done]. intros t.
  rewrite mapGet_default_mapValues. unfold sortBucket.
  pose proof (bucket_sublist t ug) as Hsl.
  rewrite (createDocumentUnits_units documents); [done| | |].
  - intros y Hy. rewrite <- (grouped_perm _ _ _ Hug).
    eapply sublist_subseteq; [|exact Hy].
    unfold docsOfGroups, flattenUnits. by apply bind_sublist.
  - eapply sublist_NoDup; [apply (grouped_nodup _ _ _ Hug)|].
    apply fmap_sublist. unfold docsOfGroups, flattenUnits. by apply bind_sublist.
  - intros u Hu. apply (grouped_shape _ _ _ Hug).
    by eapply sublist_subseteq.
Qed.

End SortingAfterPairing.


(** ** The claims about pairing and sequencing *)

(** Scenario A: a taxi invoice and the trip sheet of the same ride. *)
Definition scenarioA : list DocumentData :=
  [ sampleInvoice "inv" "11/03" (21967 # 100) (Some taxi) (Some "如祺出行"%string) None;
    sampleTripSheet "trip" "11/03" (21967 # 100) "如祺出行" ].


Lemma scenarioA_ids : NoDup (id <$> scenarioA).
Proof. apply NoDup_cons_2; [set_solver|apply NoDup_singleton]. Defined.

(** C4, at the documents of scenario A. *)
Lemma pairDocuments_partition_witness :
  NoDup (id <$> scenarioA) ∧
  (let r := PairingService.pairDocuments 2025 scenarioA in
   NoDup ((invoiceId <$> pairs r) ++ (tripSheetId <$> pairs r)) ∧
   (invoiceId <$> pairs r) ++ unmatchedInvoices r
     ≡ₚ id <$> filter isInvoice scenarioA ∧
   NoDup ((invoiceId <$> pairs r) ++ unmatchedInvoices r) ∧
   (tripSheetId <$> pairs r) ++ unmatchedTripSheets r
     ≡ₚ id <$> filter isTripSheet scenarioA ∧
   NoDup ((tripSheetId <$> pairs r) ++ unmatchedTripSheets r)).
Proof.
  split; [exact scenarioA_ids|].
  exact (pairDocuments_partition 2025 scenarioA scenarioA_ids).
Defined.



(** C7.  The suggested order of [sortDocuments] is the concatenation of
    the buckets in the order consumables, hotel, taxi, shipping, toll,
    train, other; each bucket is laid out unit by unit (a primary
    document, followed by its paired trip sheet when it has one), and
    the units of a bucket are those [createDocumentUnits] makes, ordered
    by the parsed date of the primary document, ascending, the
    unparseable dates last, units of equal date in their original
    relative order. *)
Theorem sortDocuments_bucket_order (currentYear : Z)
    (documents : list DocumentData) (pairing : PairingResult) :
  let pairMap := SortingService.createPairMap pairing in
  let bucket t :=
    SortingService.createDocumentUnits
      (default [] (JS.mapGet t (SortingService.groupByExpenseType documents pairMap)))
      pairMap in
  let sorted t := SortingService.sortUnits currentYear (bucket t) in
  suggestedOrder (SortingService.sortDocuments currentYear documents pairing)
  = [consumables; hotel; taxi; shipping; toll; train; other]
      ≫= (λ t, id <$> SortingService.flattenUnits (sorted t)) ∧
  ∀ t,
    sorted t ≡ₚ bucket t ∧
    StronglySorted (λ a b, dateLe (unitDate currentYear a) (unitDate currentYear b))
      (sorted t) ∧
    ∀ k, filter (λ u, unitDate currentYear u = k) (sorted t)
         = filter (λ u, unitDate currentYear u = k) (bucket t).
Proof.
  intros pairMap bucket sorted. split.
  - apply suggestedOrder_buckets.
  - intros t. split_and!.
    + apply sortUnits_perm.
    + apply sortUnits_sorted.
    + intros k. apply sortUnits_stable.
Qed.

(** ** Scenario A: the score of a matching invoice and trip sheet *)
Section ScenarioA.
Variable currentYear : Z.

Import PairingService.

Lemma prefix_app (a b : string) : String.prefix a (String.append a b) = true.
Proof.
  induction a as [|c a IH]; simpl; [by destruct b|].
  by destruct (ascii_dec c c).
Qed.

Lemma includes_prefix (a b : string) : JS.includes (String.append a b) a = true.
Proof.
  destruct a as [|c a]; simpl; [by destruct b|].
  destruct (ascii_dec c c); [|done]. by rewrite prefix_app.
Qed.

Lemma toLowerCase_app (a b : string) :
  JS.toLowerCase (String.append a b)
  = String.append (JS.toLowerCase a) (JS.toLowerCase b).
Proof. induction a as [|c a IH]; simpl; [done|]. by rewrite IH. Qed.

Lemma checkDateProximity_same (s : string) (d : JSDate.t) :
  JSDate.parseDate currentYear s = Some d →
  checkDateProximity currentYear s s
  = (true, 30, String.append "日期相同(" (String.append (formatDate d) ")")).
Proof.
  intros Hd. unfold checkDateProximity. rewrite Hd.
  unfold JSDate.daysBetween. by rewrite Z.sub_diag.
Qed.

(** The three terms of the score in scenario A. *)
Lemma scenarioA_score (inv ts : DocumentData) :
  amount inv = (21967 # 100)%Q → date inv = "11/03"%string →
  invoiceType inv = Some taxi → vendor inv = Some "如祺出行"%string →
  amount ts = (21967 # 100)%Q → date ts = "11/03"%string →
  platform <$> tripDetails ts = Some "如祺出行"%string →
  fst (checkAmountMatch (amount inv) (amount ts)) = true ∧
  (checkDateProximity currentYear (date inv) (date ts)).1 = (true, 30) ∧
  fst (checkPlatformMatch inv ts) = true ∧
  score (calculateMatchScore currentYear inv ts) = 50 + 30 + 20.
Proof.
  intros Ha Hd Ht Hv Ha' Hd' Hp.
  assert (Hamount : fst (checkAmountMatch (amount inv) (amount ts)) = true)
    by (rewrite Ha, Ha'; by vm_compute).
  assert (Hdate : checkDateProximity currentYear (date inv) (date ts)
                  = (true, 30, String.append "日期相同("
                       (String.append (formatDate (JSDate.make currentYear 10 3)) ")")))
    by (rewrite Hd, Hd'; by apply checkDateProximity_same).
  assert (Hplatform : fst (checkPlatformMatch inv ts) = true).
  { unfold checkPlatformMatch. rewrite Ht.
    destruct (tripDetails ts) as [details|]; [|done].
    injection Hp as Hp. rewrite Hp, Hv.
    cbn [JS.truthy JS.isEmpty negb default from_option JS.join].
    unfold extractPlatformKeywords. cbn [existsb].
    rewrite toLowerCase_app, includes_prefix. done. }
  split_and!; try done.
  - by rewrite Hdate.
  - unfold calculateMatchScore. rewrite Hdate.
    destruct (checkAmountMatch _ _) as [[] ?]; [|done].
    destruct (checkPlatformMatch _ _) as [[] ?]; [|done]. done.
Qed.

(** C6.  An invoice of 219.67 dated 11/03, of category taxi and vendor
    如祺出行, and a trip sheet of 219.67 dated 11/03 on platform 如祺出行
    score 50 for the amount, 30 for the day and 20 for the platform, and
    [pairDocuments] returns exactly one pair, joining the two with
    confidence 100, and leaves nothing unmatched. *)
Theorem pairDocuments_scenarioA (inv ts : DocumentData) :
  documentType inv = invoice →
  amount inv = (21967 # 100)%Q → date inv = "11/03"%string →
  invoiceType inv = Some taxi → vendor inv = Some "如祺出行"%string →
  documentType ts = trip_sheet →
  amount ts = (21967 # 100)%Q → date ts = "11/03"%string →
  platform <$> tripDetails ts = Some "如祺出行"%string →
  let r := pairDocuments currentYear [inv; ts] in
  fst (checkAmountMatch (amount inv) (amount ts)) = true ∧
  (checkDateProximity currentYear (date inv) (date ts)).1 = (true, 30) ∧
  fst (checkPlatformMatch inv ts) = true ∧
  (∃ why, pairs r = [ {| invoiceId := id inv; tripSheetId := id ts;
                         pairConfidence := 100; matchReason := why |} ]) ∧
  unmatchedInvoices r = [] ∧ unmatchedTripSheets r = [].
Proof.
  intros Hi Ha Hd Ht Hv Hts Ha' Hd' Hp r.
  destruct (scenarioA_score inv ts Ha Hd Ht Hv Ha' Hd' Hp) as (H1 & H2 & H3 & Hscore).
  assert (Hfi : filter isInvoice [inv; ts] = [inv]).
  { rewrite filter_cons_True by done.
    rewrite filter_cons_False by (unfold isInvoice; congruence). done. }
  assert (Hft : filter isTripSheet [inv; ts] = [ts]).
  { rewrite filter_cons_False by (unfold isTripSheet; congruence).
    rewrite filter_cons_True by done. done. }
  assert (Hbest : considerTripSheet currentYear inv ∅ None ts
                  = Some {| bestTripSheet := ts; bestScore := 100;
                            bestReason :=
                              reason (calculateMatchScore currentYear inv ts) |}).
  { unfold considerTripSheet. rewrite decide_False by apply not_elem_of_empty.
    by rewrite Hscore. }
  assert (Hr : r = {| pairs := [ {| invoiceId := id inv; tripSheetId := id ts;
                                    pairConfidence := 100;
                                    matchReason :=
                                      reason (calculateMatchScore currentYear inv ts) |} ];
                      unmatchedInvoices := []; unmatchedTripSheets := [] |}).
  { unfold r, pairDocuments. rewrite Hfi, Hft. cbn [foldl].
    unfold pairInvoice. cbn [foldl matchedTripSheetIds]. rewrite Hbest.
    cbn [statePairs matchedInvoiceIds matchedTripSheetIds bestTripSheet
         bestScore bestReason app].
    rewrite !filter_cons_False, !filter_nil; [done| |].
    - intros Hnot. apply Hnot. apply elem_of_union; left. by apply elem_of_singleton.
    - intros Hnot. apply Hnot. apply elem_of_union; left. by apply elem_of_singleton. }
  rewrite Hr. split_and!; try done. by eexists.
Qed.
End ScenarioA.

(** C6, at the documents of scenario A in the year 2025, with the
    justification string the pair carries. *)
Lemma pairDocuments_scenarioA_witness :
  PairingService.pairDocuments 2025 scenarioA
  = {| pairs := [ {| invoiceId := "inv"; tripSheetId := "trip";
                     pairConfidence := 100;
                     matchReason :=
                       "金额完全匹配(219.67)，日期相同(11/3)，平台匹配(如祺出行)" |} ];
       unmatchedInvoices := []; unmatchedTripSheets := [] |} ∧
  (let r := PairingService.pairDocuments 2025 scenarioA in
   ∃ why, pairs r = [ {| invoiceId := "inv"; tripSheetId := "trip";
                         pairConfidence := 100; matchReason := why |} ]).
Proof.
  split; [by vm_compute|].
  exact (proj1 (proj2 (proj2 (proj2
           (pairDocuments_scenarioA 2025
              (sampleInvoice "inv" "11/03" (21967 # 100) (Some taxi)
                 (Some "如祺出行"%string) None)
              (sampleTripSheet "trip" "11/03" (21967 # 100) "如祺出行")
              eq_refl eq_refl eq_refl eq_refl eq_refl
              eq_refl eq_refl eq_refl eq_refl))))).
Defined.

(** ** AnomalyDetector: what each detector emits *)
Section AnomalyFacts.
Variable currentYear : Z.

Import AnomalyDetector.

Lemma filter_all {A} (P : A → Prop) `{!∀ a, Decision (P a)} (l : list A) :
  Forall P l → filter P l = l.
Proof.
  induction 1 as [|x l Hx Hl IH]; [done|].
  by rewrite filter_cons_True, IH.
Qed.

Lemma filter_none {A} (P : A → Prop) `{!∀ a, Decision (P a)} (l : list A) :
  Forall (λ a, ¬ P a) l → filter P l = [].
Proof.
  induction 1 as [|x l Hx Hl IH]; [done|].
  by rewrite filter_cons_False, IH.
Qed.

Lemma detectDuplicates_type documents :
  Forall (λ w, type w = duplicate) (detectDuplicates documents).
Proof.
  unfold detectDuplicates. apply Forall_app. split; apply Forall_bind, Forall_forall.
  - intros [number docs] _. unfold compose, numberWarning.
    destruct (1 <? length docs)%nat; repeat constructor.
  - intros [key docs] _. unfold compose, amountDateWarning.
    destruct (1 <? length docs)%nat; repeat constructor.
Qed.

Lemma detectAmountAnomalies_type documents :
  Forall (λ w, type w = amount_anomaly) (detectAmountAnomalies documents).
Proof.
  unfold detectAmountAnomalies. apply Forall_bind, Forall_forall.
  intros [t typeInvoices] _. unfold compose, typeWarnings.
  destruct (length typeInvoices <? 2)%nat; [constructor|].
  apply Forall_bind, Forall_forall. intros inv _. unfold compose.
  destruct (isAmountAnomaly _ _ _) as [[msg sev]|]; repeat constructor.
Qed.

Lemma detectDateGaps_type documents :
  Forall (λ w, type w = date_gap) (detectDateGaps currentYear documents).
Proof.
  unfold detectDateGaps.
  destruct (length (docsWithDates currentYear documents) <? 2)%nat; [constructor|].
  apply Forall_bind, Forall_forall. intros i _. unfold compose, gapWarningAt.
  repeat case_match; repeat constructor.
Qed.

Lemma detectMissingPairs_type documents pairingResult :
  Forall (λ w, type w = missing_pair)
    (detectMissingPairs documents pairingResult).
Proof.
  unfold detectMissingPairs. apply Forall_app.
  split; apply Forall_bind, Forall_forall; intros x _; unfold compose;
    repeat case_match; repeat constructor.
Qed.

Lemma Forall_other_type (t t' : WarningType) (l : list Warning) :
  t ≠ t' → Forall (λ w, type w = t) l → Forall (λ w, ¬ type w = t') l.
Proof.
  intros Hne Hl. eapply Forall_impl; [exact Hl|]. intros w Hw. cbn in *. congruence.
Qed.

Lemma detectAnomalies_amount documents pairingResult :
  filter (λ w, type w = amount_anomaly)
    (detectAnomalies currentYear documents pairingResult)
  = detectAmountAnomalies documents.
Proof.
  unfold detectAnomalies. rewrite !filter_app.
  rewrite (filter_none _ (detectDuplicates _))
    by (eapply Forall_other_type; [|apply detectDuplicates_type]; done).
  rewrite (filter_all _ (detectAmountAnomalies _))
    by apply detectAmountAnomalies_type.
  rewrite (filter_none _ (detectDateGaps _ _))
    by (eapply Forall_other_type; [|apply detectDateGaps_type]; done).
  destruct pairingResult as [pr|]; [|by rewrite app_nil_r].
  rewrite (filter_none _ (detectMissingPairs _ _))
    by (eapply Forall_other_type; [|apply detectMissingPairs_type]; done).
  by rewrite app_nil_r.
Qed.






End AnomalyFacts.


(** A document turned into a hotel invoice of a given amount. *)
Definition hotelInvoice (doc : DocumentData) (a : Q) : DocumentData :=
  {| id := id doc; fileName := fileName doc; fileType := fileType doc;
     documentType := invoice; date := date doc; amount := a;
     description := description doc; confidence := confidence doc;
     invoiceNumber := invoiceNumber doc; vendor := vendor doc;
     taxAmount := taxAmount doc; invoiceType := Some hotel;
     tripDetails := None; status := status doc;
     errorMessage := errorMessage doc |}.

(** Scenario D: four hotel invoices of 100, 102, 105 and 5000. *)
Definition scenarioD : list DocumentData :=
  [ sampleInvoice "h1" "2024-01-01" 100 (Some hotel) None None;
    sampleInvoice "h2" "2024-01-02" 102 (Some hotel) None None;
    sampleInvoice "h3" "2024-01-03" 105 (Some hotel) None None;
    sampleInvoice "h4" "2024-01-04" 5000 (Some hotel) None None ].

(** C2 fails as stated: on the four hotel invoices of scenario D,
    [detectAnomalies] emits no [amount_anomaly] warning, so none for the
    invoice of 5000 either.  The third quartile is read at index
    [floor(4 * 0.75) = 3], which is the 5000 itself. *)
Lemma detectAnomalies_scenarioD_no_warning :
  filter (λ w, type w = amount_anomaly)
    (AnomalyDetector.detectAnomalies 2025 scenarioD None) = [] ∧
  AnomalyDetector.q3
    (AnomalyDetector.calculateAmountStats
       (AnomalyDetector.sortAmounts (amount <$> scenarioD))) = 5000%Q.
Proof. split; by vm_compute. Qed.

(** C2, as amended.  For four hotel invoices of 100, 102, 105 and 5000,
    whatever their other fields, the quartiles are Q1 = 102 and
    Q3 = 5000, the 5000 is not beyond Q3 + 1.5 IQR, and [detectAnomalies]
    emits no [amount_anomaly] warning at all. *)
Theorem detectAnomalies_scenarioD (currentYear : Z)
    (d1 d2 d3 d4 : DocumentData) (pairingResult : option PairingResult) :
  let documents :=
    [hotelInvoice d1 100; hotelInvoice d2 102; hotelInvoice d3 105;
     hotelInvoice d4 5000] in
  let stats :=
    AnomalyDetector.calculateAmountStats
      (AnomalyDetector.sortAmounts (amount <$> documents)) in
  AnomalyDetector.q1 stats = 102%Q ∧
  AnomalyDetector.q3 stats = 5000%Q ∧
  AnomalyDetector.Qltb
    (AnomalyDetector.q3 stats + (3 # 2) * AnomalyDetector.iqr stats)%Q 5000 = false ∧
  filter (λ w, type w = amount_anomaly)
    (AnomalyDetector.detectAnomalies currentYear documents pairingResult) = [].
Proof.
  intros documents stats. split_and!.
  - by vm_compute.
  - by vm_compute.
  - by vm_compute.
  - rewrite detectAnomalies_amount. by vm_compute.
Qed.


(** ** AIService: the retry loop *)

(** Closes the cases in which the loop makes no further attempt. *)
Ltac retry_stops :=
  cbn [fst snd length];
  rewrite ?Nat.add_0_r;
  try match goal with H : (_ <? _)%nat = false |- _ => apply Nat.ltb_ge in H end;
  unfold AIService.MAX_RETRIES in *;
  split_and!; try done; try lia; intros; try lia; try done.

Section RetryFacts.
Context {T : Type}.
Implicit Types (operation : nat → AIError.t + T).

Import AIService.

(** The recursive equation of [retryWithBackoff] as the source writes
    it, with [retryCount] as its second argument. *)
Lemma retryFrom_equation operation (retryCount : nat) :
  (retryCount ≤ MAX_RETRIES)%nat →
  retryFrom (MAX_RETRIES - retryCount) operation retryCount
  = match operation retryCount with
    | inr value => (inr value, [])
    | inl failure =>
        if AIError.retryable failure && (retryCount <? MAX_RETRIES)%nat then
          let delay := INITIAL_RETRY_DELAY * 2 ^ Z.of_nat retryCount in
          let '(result, delays) :=
            retryFrom (MAX_RETRIES - S retryCount) operation (S retryCount) in
          (result, delay :: delays)
        else (inl failure, [])
    end.
Proof.
  intros Hle. destruct (decide (retryCount = MAX_RETRIES)) as [->|Hne].
  - rewrite Nat.sub_diag. cbn [retryFrom]. rewrite Nat.ltb_irrefl.
    destruct (operation MAX_RETRIES) as [failure|value]; [|done].
    by rewrite andb_false_r.
  - replace (MAX_RETRIES - retryCount)%nat with (S (MAX_RETRIES - S retryCount))
      by lia.
    done.
Qed.

(** What every run of the loop satisfies, from any [retryCount]. *)
Lemma retryFrom_spec (budget : nat) operation (retryCount : nat) :
  let result := fst (retryFrom budget operation retryCount) in
  let delays := snd (retryFrom budget operation retryCount) in
  (length delays ≤ budget)%nat ∧
  (length delays ≤ MAX_RETRIES - retryCount)%nat ∧
  result = operation (retryCount + length delays)%nat ∧
  (∀ j, (j < length delays)%nat →
     delays !! j = Some (INITIAL_RETRY_DELAY * 2 ^ Z.of_nat (retryCount + j)) ∧
     ∃ failure, operation (retryCount + j)%nat = inl failure ∧
                AIError.retryable failure = true) ∧
  ((length delays < budget)%nat → (length delays < MAX_RETRIES - retryCount)%nat →
     match result with
     | inl failure => AIError.retryable failure = false
     | inr _ => True
     end).
Proof.
  revert retryCount. induction budget as [|budget IH]; intros retryCount.
  - cbn [retryFrom]. destruct (operation retryCount) as [failure|value] eqn:Hop.
    + destruct (AIError.retryable failure) eqn:Hretry; cbn [andb].
      * destruct (retryCount <? MAX_RETRIES)%nat eqn:Hlt; retry_stops.
      * retry_stops.
    + retry_stops.
  - cbn [retryFrom]. destruct (operation retryCount) as [failure|value] eqn:Hop.
    + destruct (AIError.retryable failure) eqn:Hretry; cbn [andb].
      * destruct (retryCount <? MAX_RETRIES)%nat eqn:Hlt.
        -- apply Nat.ltb_lt in Hlt.
           specialize (IH (S retryCount)).
           destruct (retryFrom budget operation (S retryCount)) as [result delays].
           cbn [fst snd] in *. destruct IH as (H1 & H2 & H3 & H4 & H5).
           unfold MAX_RETRIES in *. cbn [length]. split_and!; try lia.
           ++ rewrite H3. f_equal. lia.
           ++ intros [|j] Hj.
              ** cbn. rewrite Nat.add_0_r. split; [done|by exists failure].
              ** cbn [lookup list_lookup]. destruct (H4 j ltac:(lia)) as [Hd He].
                 replace (retryCount + S j)%nat with (S retryCount + j)%nat by lia.
                 split; [done|done].
           ++ intros Hb Hm. apply H5; lia.
        -- retry_stops.
      * retry_stops.
    + retry_stops.
Qed.

(** The delays of a run are no more than three, and the first ones of
    1000, 2000, 4000. *)
Lemma retryWithBackoff_delays operation :
  let delays := snd (retryWithBackoff operation) in
  (length delays ≤ 3)%nat ∧ delays `prefix_of` [1000; 2000; 4000].
Proof.
  intros delays.
  destruct (retryFrom_spec MAX_RETRIES operation 0) as (H1 & _ & _ & H4 & _).
  fold (retryWithBackoff operation) in H1, H4. fold delays in H1, H4.
  change MAX_RETRIES with 3%nat in *. split; [done|].
  destruct delays as [|d0 [|d1 [|d2 [|d3 ?]]]]; cbn [length] in *; try lia.
  - apply prefix_nil.
  - destruct (H4 0%nat ltac:(lia)) as [[= ->] _]. by exists [2000; 4000].
  - destruct (H4 0%nat ltac:(lia)) as [[= ->] _].
    destruct (H4 1%nat ltac:(lia)) as [[= ->] _]. by exists [4000].
  - destruct (H4 0%nat ltac:(lia)) as [[= ->] _].
    destruct (H4 1%nat ltac:(lia)) as [[= ->] _].
    destruct (H4 2%nat ltac:(lia)) as [[= ->] _]. by exists [].
Qed.
End RetryFacts.

(** An operation that always times out, and one that is refused for
    its credential. *)
Definition alwaysTimeout (k : nat) : AIError.t + DocumentData :=
  inl (AIService.handleAPIError
         (AIService.ThrownAxios
            {| AxiosError.code := Some "ECONNABORTED"%string;
               AxiosError.message := "timeout of 30000ms exceeded";
               AxiosError.response := None |})).

Definition alwaysUnauthorized (k : nat) : AIError.t + DocumentData :=
  inl (AIService.handleAPIError
         (AIService.ThrownAxios
            {| AxiosError.code := Some "ERR_BAD_REQUEST"%string;
               AxiosError.message := "Request failed with status code 401";
               AxiosError.response := Some (401, None) |})).

(** C8.  [retryWithBackoff] retries a failure only when it is marked
    retryable, at most 3 times; the delay before the retry number [k]
    (from 0) is 1000 * 2^k milliseconds, so 1000, 2000, 4000; the result
    is the outcome of the last attempt made, and the loop stops before
    the third retry only on a success or on a failure that is not
    retryable.  A first failure that is not retryable is returned at
    once with no delay, and [handleAPIError] marks a 401 or 403 answer
    as an invalid credential that is not retryable. *)
Theorem retryWithBackoff_schedule (T : Type) (operation : nat → AIError.t + T) :
  let result := fst (AIService.retryWithBackoff operation) in
  let delays := snd (AIService.retryWithBackoff operation) in
  (length delays ≤ 3)%nat ∧
  delays `prefix_of` [1000; 2000; 4000] ∧
  (∀ k, (k < length delays)%nat →
     delays !! k = Some (AIService.INITIAL_RETRY_DELAY * 2 ^ Z.of_nat k) ∧
     ∃ failure, operation k = inl failure ∧ AIError.retryable failure = true) ∧
  result = operation (length delays) ∧
  ((length delays < 3)%nat →
     match result with
     | inl failure => AIError.retryable failure = false
     | inr _ => True
     end) ∧
  (∀ failure, operation 0%nat = inl failure → AIError.retryable failure = false →
     AIService.retryWithBackoff operation = (inl failure, [])) ∧
  (∀ (code : option string) (message : string) (status : Z) (data : option string),
     code ≠ Some "ECONNABORTED"%string → code ≠ Some "ETIMEDOUT"%string →
     status = 401 ∨ status = 403 →
     AIService.handleAPIError
       (AIService.ThrownAxios
          {| AxiosError.code := code; AxiosError.message := message;
             AxiosError.response := Some (status, data) |})
     = {| AIError.type := AIErrorType.API_KEY_INVALID;
          AIError.retryable := false;
          AIError.message := "API密钥无效或已过期，请检查配置" |}) ∧
  snd (AIService.retryWithBackoff alwaysTimeout) = [1000; 2000; 4000] ∧
  snd (AIService.retryWithBackoff alwaysUnauthorized) = [].
Proof.
  intros result delays.
  destruct (retryFrom_spec AIService.MAX_RETRIES operation 0)
    as (H1 & _ & H3 & H4 & H5).
  fold (AIService.retryWithBackoff operation) in H1, H3, H4, H5.
  fold result in H3, H5. fold delays in H1, H3, H4, H5.
  change AIService.MAX_RETRIES with 3%nat in *.
  split_and!.
  - done.
  - apply (retryWithBackoff_delays operation).
  - done.
  - done.
  - intros Hlt. apply H5; lia.
  - intros failure Hop Hretry. unfold AIService.retryWithBackoff.
    cbn [AIService.retryFrom AIService.MAX_RETRIES]. by rewrite Hop, Hretry.
  - intros code message status data Hc1 Hc2 Hstatus.
    unfold AIService.handleAPIError. cbn [AxiosError.code AxiosError.response].
    rewrite !bool_decide_eq_false_2 by done. cbn [orb].
    by destruct Hstatus as [-> | ->].
  - by vm_compute.
  - by vm_compute.
Qed.

(** ** BatchProcessor: recognition calls in flight *)

(** The number of recognition calls in flight after an event. *)
Definition inFlightStep (n : nat) (e : BatchProcessor.Event) : nat :=
  match e with
  | BatchProcessor.RecognitionStarted _ => S n
  | BatchProcessor.RecognitionSettled _ => pred n
  | BatchProcessor.Progress _ _ _ => n
  end.

(** The number of calls in flight after each event of a trace, from [n]. *)
Fixpoint inFlightCounts (n : nat) (trace : list BatchProcessor.Event) : list nat :=
  match trace with
  | [] => []
  | e :: rest => inFlightStep n e :: inFlightCounts (inFlightStep n e) rest
  end.

(** A stretch of trace that leaves as many calls in flight as it found,
    and never has more than one of its own in flight. *)
Definition balanced (trace : list BatchProcessor.Event) : Prop :=
  ∀ n, foldl inFlightStep n trace = n ∧
       Forall (λ m, (m ≤ S n)%nat) (inFlightCounts n trace).

Lemma inFlightCounts_app n t1 t2 :
  inFlightCounts n (t1 ++ t2)
  = inFlightCounts n t1 ++ inFlightCounts (foldl inFlightStep n t1) t2.
Proof. revert n. induction t1 as [|e t1 IH]; intros n; [done|]. cbn. by rewrite IH. Qed.

Lemma balanced_nil : balanced [].
Proof. intros n. split; [done|constructor]. Qed.

Lemma balanced_app t1 t2 : balanced t1 → balanced t2 → balanced (t1 ++ t2).
Proof.
  intros H1 H2 n. destruct (H1 n) as [E1 F1]. destruct (H2 n) as [E2 F2].
  rewrite foldl_app, inFlightCounts_app, E1. split; [done|].
  apply Forall_app. done.
Qed.

Lemma balanced_progress stage currentStep totalSteps :
  balanced [BatchProcessor.Progress stage currentStep totalSteps].
Proof. intros n. split; [done|]. repeat constructor. Qed.

Lemma balanced_call name :
  balanced [BatchProcessor.RecognitionStarted name;
            BatchProcessor.RecognitionSettled name].
Proof. intros n. split; [done|]. repeat constructor. Qed.

Section BatchFacts.
Variable currentYear : Z.
Variable processFileToBase64 : nat → BatchProcessor.File → BatchProcessor.Failure + list string.
Variable recognizeDocument :
  nat → nat → string → APIConfig → string → BatchProcessor.Failure + DocumentData.
Variable errorNonce : nat → Z * string.

Import BatchProcessor.

Notation recognizePages := (BatchProcessor.recognizePages recognizeDocument).
Notation processFile :=
  (BatchProcessor.processFile processFileToBase64 recognizeDocument).
Notation recognizeFiles :=
  (BatchProcessor.recognizeFiles processFileToBase64 recognizeDocument errorNonce).
Notation processBatch :=
  (BatchProcessor.processBatch currentYear processFileToBase64 recognizeDocument
     errorNonce).

Lemma recognizePages_trace fileIndex file apiConfig pageCount page images docs trace :
  ∃ calls,
    snd (recognizePages fileIndex file apiConfig pageCount page images docs trace)
    = trace ++ calls ∧ balanced calls.
Proof.
  revert page docs trace. induction images as [|image images IH];
    intros page docs trace; cbn [BatchProcessor.recognizePages].
  - exists []. split; [by rewrite app_nil_r|apply balanced_nil].
  - destruct (recognizeDocument _ _ _ _ _) as [failure|document].
    + eexists. cbn [snd]. rewrite <- app_assoc. split; [done|]. apply balanced_call.
    + destruct (IH (S page) (docs ++ [document])
                  ((trace ++ [RecognitionStarted (pageFileName file pageCount page)])
                   ++ [RecognitionSettled (pageFileName file pageCount page)]))
        as (calls & -> & Hcalls).
      eexists. rewrite <- !app_assoc. split; [done|].
      apply (balanced_app [_; _]); [apply balanced_call|done].
Qed.

Lemma processFile_trace fileIndex file apiConfig :
  balanced (snd (processFile fileIndex file apiConfig)).
Proof.
  unfold BatchProcessor.processFile.
  destruct (processFileToBase64 fileIndex file) as [failure|images];
    [apply balanced_nil|].
  destruct (recognizePages_trace fileIndex file apiConfig (length images) 0
              images [] []) as (calls & -> & Hcalls).
  done.
Qed.

Lemma recognizeFiles_trace totalSteps apiConfig i files st :
  balanced (trace st) →
  balanced (trace (recognizeFiles totalSteps apiConfig i files st)).
Proof.
  revert i st. induction files as [|file files IH]; intros i st Hst; [done|].
  cbn [BatchProcessor.recognizeFiles].
  pose proof (processFile_trace i file apiConfig) as Hcalls.
  destruct (processFile i file apiConfig) as [outcome calls]. cbn [snd] in Hcalls.
  apply IH. destruct outcome; cbn [trace];
    (apply balanced_app; [apply balanced_app; [done|apply balanced_progress]|done]).
Qed.

Lemma processBatch_trace files apiConfig :
  balanced (snd (processBatch files apiConfig)).
Proof.
  unfold BatchProcessor.processBatch.
  pose proof (recognizeFiles_trace (length files) apiConfig 0 files
                {| documents := []; errors := [];
                   trace := [Progress Stage.recognizing 0 (length files)] |}
                (balanced_progress _ _ _)) as Hst.
  destruct (documents _); cbn [snd].
  - apply balanced_app; [done|apply balanced_progress].
  - apply balanced_app; [done|].
    apply (balanced_app [_]); [apply balanced_progress|].
    apply (balanced_app [_]); [apply balanced_progress|].
    apply (balanced_app [_]); apply balanced_progress.
Qed.

(** The records one file contributes: its recognized pages, or the
    placeholder made for its failure. *)
Definition fileRecords (apiConfig : APIConfig) (i : nat) (file : File)
  : list DocumentData :=
  match fst (processFile i file apiConfig) with
  | inr processedDocuments => processedDocuments
  | inl failure =>
      [createErrorDocument (errorNonce i) file (getErrorMessage failure)]
  end.

Lemma recognizeFiles_documents totalSteps apiConfig i files st :
  documents (recognizeFiles totalSteps apiConfig i files st)
  = documents st ++ mjoin (imap (λ k, fileRecords apiConfig (i + k)) files).
Proof.
  revert i st. induction files as [|file files IH]; intros i st.
  - cbn. by rewrite app_nil_r.
  - cbn [BatchProcessor.recognizeFiles imap mjoin list_join].
    unfold fileRecords at 1. rewrite Nat.add_0_r.
    assert (Hshift : imap ((λ k, fileRecords apiConfig (i + k)) ∘ S) files
                     = imap (λ k, fileRecords apiConfig (S i + k)) files)
      by (apply imap_ext; intros k f _; cbn; f_equal; lia).
    destruct (processFile i file apiConfig) as [[failure|docs] calls]; cbn [fst];
      rewrite IH, Hshift; cbn [documents]; by rewrite <- app_assoc.
Qed.

Lemma processBatch_documents files apiConfig result events :
  processBatch files apiConfig = (inr result, events) →
  resultDocuments result = mjoin (imap (fileRecords apiConfig) files) ∧
  resultPairs result
  = PairingService.pairDocuments currentYear (resultDocuments result) ∧
  resultSorting result
  = SortingService.sortDocuments currentYear (resultDocuments result)
      (resultPairs result) ∧
  resultWarnings result
  = AnomalyDetector.detectAnomalies currentYear (resultDocuments result)
      (Some (resultPairs result)).
Proof.
  unfold BatchProcessor.processBatch.
  pose proof (recognizeFiles_documents (length files) apiConfig 0 files
                {| documents := []; errors := [];
                   trace := [Progress Stage.recognizing 0 (length files)] |}) as Hd.
  cbn [documents app] in Hd.
  destruct (documents _) as [|d ds] eqn:Hdocs; [done|].
  intros [= <- _]. cbn [resultDocuments resultPairs resultSorting resultWarnings].
  split_and!; try done.
Qed.
End BatchFacts.

(** ** Documents that enter the pipeline as invoices *)

Lemma invoice_in_pairing (currentYear : Z) (documents : list DocumentData) d :
  d ∈ documents → isInvoice d →
  let r := PairingService.pairDocuments currentYear documents in
  id d ∈ (invoiceId <$> pairs r) ++ unmatchedInvoices r.
Proof.
  intros Hd Hdi. cbn zeta. unfold PairingService.pairDocuments.
  cbn [pairs unmatchedInvoices].
  pose proof (pairing_fold_inv currentYear (filter isTripSheet documents)
                (filter isInvoice documents)) as (HI & _).
  set (final := foldl _ _ _) in *.
  apply elem_of_app.
  destruct (decide (id d ∈ PairingService.matchedInvoiceIds final)) as [Hin|Hout].
  - left. rewrite HI in Hin. by apply elem_of_list_to_set in Hin.
  - right. apply (list_elem_of_fmap_2 id).
    apply list_elem_of_filter. split; [done|]. by apply list_elem_of_filter.
Qed.

(** An element pushed under its key is found under that key at the end
    of the loop. *)
Lemma foldl_mapPush_member {K A} `{EqDecision K} (key : A → K) (P : A → bool)
    (l : list A) (m : list (K * list A)) (x : A) :
  x ∈ default [] (JS.mapGet (key x) m) ∨ (x ∈ l ∧ P x = true) →
  x ∈ default []
        (JS.mapGet (key x)
           (foldl (λ m a, if P a then JS.mapPush (key a) a m else m) m l)).
Proof.
  revert m. induction l as [|a l IH]; intros m Hx.
  - destruct Hx as [Hx|[Hx _]]; [done|by apply elem_of_nil in Hx].
  - cbn [foldl]. apply IH.
    destruct Hx as [Hx|[Hx HP]].
    + left. destruct (P a); [|done]. unfold JS.mapPush.
      destruct (decide (key a = key x)) as [Heq|Hne].
      * rewrite Heq, mapGet_mapSet_eq. cbn. apply elem_of_app; by left.
      * by rewrite mapGet_mapSet_ne.
    + apply elem_of_cons in Hx as [->|Hx]; [|by right].
      left. rewrite HP. unfold JS.mapPush. rewrite mapGet_mapSet_eq. cbn.
      apply elem_of_app; right. apply list_elem_of_here.
Qed.

Lemma invoice_in_invoicesByType (documents : list DocumentData) d :
  d ∈ documents → isInvoice d →
  d ∈ default []
        (JS.mapGet (default other (invoiceType d))
           (AnomalyDetector.invoicesByType documents)).
Proof.
  intros Hd Hdi. unfold AnomalyDetector.invoicesByType.
  apply (foldl_mapPush_member (λ inv, default other (invoiceType inv)) (λ _, true)).
  right. split; [|done]. by apply list_elem_of_filter.
Qed.

Lemma invoice_in_invoicesByAmountDate (documents : list DocumentData) d :
  d ∈ documents → isInvoice d →
  AnomalyDetector.checkedByAmountDate
    (AnomalyDetector.invoicesByNumber documents) d = true →
  d ∈ default []
        (JS.mapGet (AnomalyDetector.amountDateKey d)
           (AnomalyDetector.invoicesByAmountDate documents)).
Proof.
  intros Hd Hdi Hchecked. unfold AnomalyDetector.invoicesByAmountDate.
  apply (foldl_mapPush_member AnomalyDetector.amountDateKey
           (AnomalyDetector.checkedByAmountDate
              (AnomalyDetector.invoicesByNumber documents))).
  right. split; [|done]. by apply list_elem_of_filter.
Qed.

Lemma invoice_in_bucket (currentYear : Z) (documents : list DocumentData) d :
  NoDup (id <$> documents) → d ∈ documents → isInvoice d →
  d ∈ default []
        (JS.mapGet (default other (invoiceType d))
           (SortingService.groupByExpenseType documents
              (SortingService.createPairMap
                 (PairingService.pairDocuments currentYear documents)))).
Proof.
  intros Hnd Hd Hdi.
  pose proof (pairDocuments_pairs currentYear documents Hnd) as Hp.
  destruct (groupByExpenseType_units documents _ Hnd
              (pairMapOK_of_pairs _ _ Hnd Hp)) as (ug & -> & Hug).
  destruct (grouped_invoice _ _ _ Hug d Hd Hdi) as (us & Hus & Hin).
  rewrite mapGet_default_mapValues, Hus. cbn.
  apply elem_of_flattenUnits. eexists. split; [exact Hin|by left].
Qed.

(** ** The claims about the orchestrator *)

(** One uploaded image. *)
Definition sampleFile (name : string) : BatchProcessor.File :=
  {| BatchProcessor.originalname := name; BatchProcessor.mimetype := "image/png" |}.

Definition sampleConfig : APIConfig :=
  {| endpoint := "https://api.openai.com/v1"; apiKey := "test-key"; model := "gpt-4o" |}.

Definition otherConfig : APIConfig :=
  {| endpoint := "http://localhost:8000/v1"; apiKey := "another-key"; model := "qwen-vl" |}.

(** Every file converts to one image. *)
Definition onePage (i : nat) (file : BatchProcessor.File)
  : BatchProcessor.Failure + list string := inr ["aW1hZ2U="%string].

(** Every recognition is refused for its credential. *)
Definition refuseAll (i page : nat) (image : string) (apiConfig : APIConfig)
    (name : string) : BatchProcessor.Failure + DocumentData :=
  inl (BatchProcessor.AIFailure
         {| AIError.type := AIErrorType.API_KEY_INVALID;
            AIError.retryable := false;
            AIError.message := "API密钥无效或已过期，请检查配置" |}).

(** The first file is refused, the others are recognized as the taxi
    invoice of scenario A. *)
Definition refuseFirst (i page : nat) (image : string) (apiConfig : APIConfig)
    (name : string) : BatchProcessor.Failure + DocumentData :=
  match i with
  | O => refuseAll i page image apiConfig name
  | S _ => inr (sampleInvoice "doc_1" "11/03" (21967 # 100) (Some taxi)
                  (Some "如祺出行"%string) None)
  end.

Definition sampleNonce (i : nat) : Z * string :=
  (1700000000000 + Z.of_nat i, "k3j9x2a"%string).

(** C1, at a batch of one file whose recognition fails: [processBatch]
    does not abort.  It makes the placeholder, so the record list is not
    empty, runs pairing, sorting and detection over it, reports
    [completed] and returns a result with the one error listed. *)
Theorem processBatch_all_failed_proceeds :
  let outcome :=
    BatchProcessor.processBatch 2025 onePage refuseAll sampleNonce
      [sampleFile "a.png"] sampleConfig in
  (match fst outcome with
   | inr result =>
       (status <$> BatchProcessor.resultDocuments result) = [error] ∧
       BatchProcessor.resultPairs result
       = {| pairs := []; unmatchedInvoices := ["error_1700000000000_k3j9x2a"%string];
            unmatchedTripSheets := [] |} ∧
       suggestedOrder (BatchProcessor.resultSorting result)
       = ["error_1700000000000_k3j9x2a"%string] ∧
       BatchProcessor.resultErrors result
       = [("a.png", "AI识别错误: API密钥无效或已过期，请检查配置")]%string
   | inl _ => False
   end) ∧
  snd outcome
  = [ BatchProcessor.Progress Stage.recognizing 0 1;
      BatchProcessor.Progress Stage.recognizing 1 1;
      BatchProcessor.RecognitionStarted "a.png";
      BatchProcessor.RecognitionSettled "a.png";
      BatchProcessor.Progress Stage.pairing 1 1;
      BatchProcessor.Progress Stage.sorting 1 1;
      BatchProcessor.Progress Stage.detecting 1 1;
      BatchProcessor.Progress Stage.completed 1 1 ].
Proof. by vm_compute. Qed.

(** C3 fails as stated: two configurations that differ in every field
    get the same per-call timeout and the same retry schedule, and a
    batch of two files has its recognition calls one after the other. *)
Lemma recognition_settings_ignore_config :
  AIService.timeout (AIService.recognitionRequest "aW1hZ2U=" sampleConfig) = 30000 ∧
  AIService.timeout (AIService.recognitionRequest "aW1hZ2U=" otherConfig) = 30000 ∧
  snd (AIService.recognizeDocument
         (λ _ _ _, inl (AIService.ThrownAxios
                          {| AxiosError.code := Some "ETIMEDOUT"%string;
                             AxiosError.message := "timeout";
                             AxiosError.response := None |}))
         "aW1hZ2U=" sampleConfig "a.png") = [1000; 2000; 4000] ∧
  snd (AIService.recognizeDocument
         (λ _ _ _, inl (AIService.ThrownAxios
                          {| AxiosError.code := Some "ETIMEDOUT"%string;
                             AxiosError.message := "timeout";
                             AxiosError.response := None |}))
         "aW1hZ2U=" otherConfig "a.png") = [1000; 2000; 4000] ∧
  inFlightCounts 0
    (snd (BatchProcessor.processBatch 2025 onePage refuseFirst sampleNonce
            [sampleFile "a.png"; sampleFile "b.png"] otherConfig))
  = [0; 0; 1; 0; 0; 1; 0; 0; 0; 0; 0]%nat.
Proof. split_and!; by vm_compute. Qed.

(** C3, as amended.  [processBatch] has at most one recognition call
    in flight at any time, whatever the configuration; every request is
    sent with the timeout of 30000 ms, and a recognition is retried at
    most 3 times, after 1000, 2000 and 4000 ms: the three values are
    constants of [AIService], not taken from the configuration. *)
Theorem recognition_is_sequential_with_fixed_settings
    (currentYear : Z)
    (processFileToBase64 : nat → BatchProcessor.File → BatchProcessor.Failure + list string)
    (recognizeDocument :
       nat → nat → string → APIConfig → string → BatchProcessor.Failure + DocumentData)
    (errorNonce : nat → Z * string)
    (files : list BatchProcessor.File) (apiConfig : APIConfig) :
  Forall (λ n, (n ≤ 1)%nat)
    (inFlightCounts 0
       (snd (BatchProcessor.processBatch currentYear processFileToBase64
               recognizeDocument errorNonce files apiConfig))) ∧
  (∀ image, AIService.timeout (AIService.recognitionRequest image apiConfig) = 30000) ∧
  (∀ respond image name,
     let delays :=
       snd (AIService.recognizeDocument respond image apiConfig name) in
     (length delays ≤ 3)%nat ∧ delays `prefix_of` [1000; 2000; 4000]).
Proof.
  split_and!.
  - apply (processBatch_trace currentYear processFileToBase64 recognizeDocument
             errorNonce files apiConfig 0%nat).
  - done.
  - intros respond image name delays. unfold delays, AIService.recognizeDocument.
    apply (retryWithBackoff_delays
             (λ k, match respond (AIService.recognitionRequest image apiConfig)
                           name k with
                   | inl thrown => inl (AIService.handleAPIError thrown)
                   | inr doc => inr doc
                   end)).
Qed.

(** C10.  When the file at position [i] of a batch fails, [processBatch]
    does not abort; the record list it returns and hands to
    [pairDocuments], [sortDocuments] and [detectAnomalies] contains the
    placeholder of that file, which is an invoice of amount 0 with an
    empty date (one that does not parse), an empty description,
    confidence 0, status [error] and no category.  The placeholder is
    among the invoices of the pairing (paired or unmatched), in the
    [other] bucket of the amount statistics, in the bucket of key
    "0.00_" of the amount-and-date duplicates and, when the ids of the
    records are distinct, in the [other] bucket of the grouping. *)
Theorem processBatch_placeholder (currentYear : Z)
    (processFileToBase64 : nat → BatchProcessor.File → BatchProcessor.Failure + list string)
    (recognizeDocument :
       nat → nat → string → APIConfig → string → BatchProcessor.Failure + DocumentData)
    (errorNonce : nat → Z * string)
    (files : list BatchProcessor.File) (apiConfig : APIConfig)
    (i : nat) (file : BatchProcessor.File) (failure : BatchProcessor.Failure) :
  files !! i = Some file →
  fst (BatchProcessor.processFile processFileToBase64 recognizeDocument
         i file apiConfig) = inl failure →
  let placeholder :=
    BatchProcessor.createErrorDocument (errorNonce i) file
      (BatchProcessor.getErrorMessage failure) in
  (documentType placeholder = invoice ∧ amount placeholder = 0%Q ∧
   date placeholder = EmptyString ∧ description placeholder = EmptyString ∧
   confidence placeholder = 0 ∧ status placeholder = error ∧
   invoiceType placeholder = None ∧
   JSDate.parseDate currentYear (date placeholder) = None) ∧
  ∃ result events,
    BatchProcessor.processBatch currentYear processFileToBase64 recognizeDocument
      errorNonce files apiConfig = (inr result, events) ∧
    let records := BatchProcessor.resultDocuments result in
    placeholder ∈ records ∧
    BatchProcessor.resultPairs result
    = PairingService.pairDocuments currentYear records ∧
    BatchProcessor.resultSorting result
    = SortingService.sortDocuments currentYear records
        (BatchProcessor.resultPairs result) ∧
    BatchProcessor.resultWarnings result
    = AnomalyDetector.detectAnomalies currentYear records
        (Some (BatchProcessor.resultPairs result)) ∧
    id placeholder
      ∈ (invoiceId <$> pairs (BatchProcessor.resultPairs result))
        ++ unmatchedInvoices (BatchProcessor.resultPairs result) ∧
    placeholder
      ∈ default [] (JS.mapGet other (AnomalyDetector.invoicesByType records)) ∧
    placeholder
      ∈ default [] (JS.mapGet "0.00_"%string
                      (AnomalyDetector.invoicesByAmountDate records)) ∧
    (NoDup (id <$> records) →
     placeholder
       ∈ default []
           (JS.mapGet other
              (SortingService.groupByExpenseType records
                 (SortingService.createPairMap (BatchProcessor.resultPairs result))))).
Proof.
  intros Hfile Hfail placeholder. split; [by split_and!|].
  assert (Hin : placeholder
                ∈ mjoin (imap (fileRecords processFileToBase64 recognizeDocument
                                 errorNonce apiConfig) files)).
  { apply list_elem_of_join. eexists. split; [|by apply elem_of_lookup_imap_2].
    unfold fileRecords. rewrite Hfail. apply list_elem_of_here. }
  destruct (BatchProcessor.processBatch currentYear processFileToBase64
              recognizeDocument errorNonce files apiConfig)
    as [[message|result] events] eqn:Hbatch.
  - exfalso. unfold BatchProcessor.processBatch in Hbatch.
    pose proof (recognizeFiles_documents processFileToBase64 recognizeDocument
                  errorNonce (length files) apiConfig 0 files
                  {| BatchProcessor.documents := []; BatchProcessor.errors := [];
                     BatchProcessor.trace :=
                       [BatchProcessor.Progress Stage.recognizing 0 (length files)] |})
      as Hd.
    cbn [BatchProcessor.documents app] in Hd.
    destruct (BatchProcessor.documents _) as [|d ds]; [|done].
    assert (Hnil : mjoin (imap (fileRecords processFileToBase64 recognizeDocument
                                  errorNonce apiConfig) files) = [])
      by (symmetry; exact Hd).
    rewrite Hnil in Hin. by apply elem_of_nil in Hin.
  - exists result, events. split; [done|].
    destruct (processBatch_documents currentYear processFileToBase64
                recognizeDocument errorNonce files apiConfig result events Hbatch)
      as (Hdocs & Hpairs & Hsorting & Hwarnings).
    cbn zeta. rewrite Hdocs in *.
    set (records := mjoin _) in *.
    assert (Hinv : isInvoice placeholder) by done.
    split_and!; try done.
    + rewrite Hpairs. by apply invoice_in_pairing.
    + by apply (invoice_in_invoicesByType records placeholder).
    + by apply (invoice_in_invoicesByAmountDate records placeholder).
    + intros Hnd. rewrite Hpairs.
      by apply (invoice_in_bucket currentYear records placeholder).
Qed.

(** C10, at a batch of two files of which the first is refused. *)
Lemma processBatch_placeholder_witness :
  ∃ result,
    fst (BatchProcessor.processBatch 2025 onePage refuseFirst sampleNonce
           [sampleFile "a.png"; sampleFile "b.png"] sampleConfig) = inr result ∧
    BatchProcessor.createErrorDocument (sampleNonce 0) (sampleFile "a.png")
      "AI识别错误: API密钥无效或已过期，请检查配置"
    ∈ BatchProcessor.resultDocuments result.
Proof.
  destruct (processBatch_placeholder 2025 onePage refuseFirst sampleNonce
              [sampleFile "a.png"; sampleFile "b.png"] sampleConfig
              0 (sampleFile "a.png") _ eq_refl eq_refl)
    as (_ & result & events & Hbatch & Hin & _).
  exists result. rewrite Hbatch. split; [done|exact Hin].
Defined.

(** * Further properties of the services *)

(** ** PairingService: how a pair is chosen *)
Section PairingChoice.
Variable currentYear : Z.

Import PairingService.

Notation scoreOf inv ts := (score (calculateMatchScore currentYear inv ts)).
Notation reasonOf inv ts := (reason (calculateMatchScore currentYear inv ts)).

Lemma checkDateProximity_score date1 date2 :
  0 ≤ (checkDateProximity currentYear date1 date2).1.2 ≤ 30.
Proof.
  unfold checkDateProximity. repeat case_match; simpl; lia.
Qed.

Lemma calculateMatchScore_range inv ts : 0 ≤ scoreOf inv ts ≤ 100.
Proof.
  unfold calculateMatchScore.
  pose proof (checkDateProximity_score (date inv) (date ts)) as Hd.
  destruct (checkDateProximity currentYear (date inv) (date ts)) as [[m s] r].
  cbn [fst snd] in Hd.
  destruct (checkAmountMatch (amount inv) (amount ts)).1, m,
    (checkPlatformMatch inv ts).1; cbn [score]; lia.
Qed.

(** One turn of the inner loop never lowers the best score, and
    takes a free trip sheet that scores 50 or more into account. *)
Lemma considerTripSheet_step inv matched best ts :
  let r := considerTripSheet currentYear inv matched best ts in
  (∀ b0, best = Some b0 → ∃ b, r = Some b ∧ bestScore b0 ≤ bestScore b) ∧
  (id ts ∉ matched → 50 ≤ scoreOf inv ts →
   ∃ b, r = Some b ∧ scoreOf inv ts ≤ bestScore b).
Proof.
  cbn zeta. unfold considerTripSheet. split.
  - intros b0 ->. destruct (decide (id ts ∈ matched)); [by exists b0|].
    destruct (_ && _) eqn:Hc; [|by exists b0].
    apply andb_true_iff in Hc as [_ Hc]. apply Z.ltb_lt in Hc.
    eexists. split; [done|]. cbn [bestScore]. lia.
  - intros Hfree Hscore. rewrite decide_False by done.
    destruct (_ && _) eqn:Hc; [by eexists|].
    apply andb_false_iff in Hc as [Hc|Hc]; [apply Z.leb_gt in Hc; lia|].
    destruct best as [b0|]; [|done]. apply Z.ltb_ge in Hc. by exists b0.
Qed.

(** The inner loop keeps the best score seen so far, and ends on a
    score at least that of every trip sheet that is free and scores 50
    or more. *)
Lemma considerTripSheet_fold_best inv matched tripSheets best :
  let r := foldl (considerTripSheet currentYear inv matched) best tripSheets in
  (∀ b0, best = Some b0 → ∃ b, r = Some b ∧ bestScore b0 ≤ bestScore b) ∧
  (∀ t, t ∈ tripSheets → id t ∉ matched → 50 ≤ scoreOf inv t →
        ∃ b, r = Some b ∧ scoreOf inv t ≤ bestScore b).
Proof.
  revert best. induction tripSheets as [|ts l IH]; intros best; cbn zeta.
  - split; [intros b0 ->; by exists b0|]. intros t Ht. by apply elem_of_nil in Ht.
  - cbn [foldl].
    destruct (considerTripSheet_step inv matched best ts) as [S1 S2].
    cbn zeta in S1, S2.
    destruct (IH (considerTripSheet currentYear inv matched best ts))
      as [IH1 IH2]. cbn zeta in IH1, IH2.
    set (next := considerTripSheet currentYear inv matched best ts) in *.
    split.
    + intros b0 Hb0. destruct (S1 b0 Hb0) as (b1 & Hb1 & Hle1).
      destruct (IH1 b1 Hb1) as (b & Hb & Hle). exists b. split; [done|lia].
    + intros t [->|Ht]%elem_of_cons Hfree Hscore; [|by apply IH2].
      destruct (S2 Hfree Hscore) as (b1 & Hb1 & Hle1).
      destruct (IH1 b1 Hb1) as (b & Hb & Hle). exists b. split; [done|lia].
Qed.

(** What the outer loop keeps true of the pairs made so far and of
    the invoices left without a pair. *)
Definition chosenPair (tripSheets processed : list DocumentData)
    (free : gset string) (p : PairingPair) : Prop :=
  ∃ inv ts,
    inv ∈ processed ∧ ts ∈ tripSheets ∧
    invoiceId p = id inv ∧ tripSheetId p = id ts ∧
    pairConfidence p = scoreOf inv ts ∧ matchReason p = reasonOf inv ts ∧
    50 ≤ pairConfidence p ∧
    ∀ t, t ∈ tripSheets → id t ∉ free → scoreOf inv t ≤ pairConfidence p.

Definition choiceInv (tripSheets processed : list DocumentData)
    (st : PairingState) : Prop :=
  Forall (chosenPair tripSheets processed (matchedTripSheetIds st))
    (statePairs st) ∧
  ∀ inv t, inv ∈ processed → id inv ∉ matchedInvoiceIds st →
           t ∈ tripSheets → id t ∉ matchedTripSheetIds st →
           scoreOf inv t < 50.

Lemma chosenPair_mono tripSheets processed processed' (free free' : gset string) p :
  processed ⊆ processed' → free ⊆ free' →
  chosenPair tripSheets processed free p →
  chosenPair tripSheets processed' free' p.
Proof.
  intros Hp Hf (inv & ts & ? & ? & ? & ? & ? & ? & ? & Hbest).
  exists inv, ts. split_and!; try done; [by apply Hp|].
  intros t Ht Hfree. apply Hbest; [done|]. set_solver.
Qed.

Lemma pairInvoice_choice tripSheets processed st inv :
  choiceInv tripSheets processed st →
  choiceInv tripSheets (processed ++ [inv])
    (pairInvoice currentYear tripSheets st inv).
Proof.
  intros [Hpairs Hleft]. unfold pairInvoice.
  pose proof (considerTripSheet_fold_best inv (matchedTripSheetIds st)
                tripSheets None) as [_ Hbest]. cbn zeta in Hbest.
  destruct (foldl _ None tripSheets) as [b|] eqn:Hb.
  - apply considerTripSheet_fold in Hb as [Hb|(Hin & Hnot & Hs & Hr & H50)]; [done|].
    split; cbn [statePairs matchedInvoiceIds matchedTripSheetIds].
    + apply Forall_app. split.
      * eapply Forall_impl; [exact Hpairs|]. intros p.
        apply chosenPair_mono; set_solver.
      * apply Forall_singleton. exists inv, (bestTripSheet b).
        cbn [invoiceId tripSheetId pairConfidence matchReason].
        split_and!; try done; [set_solver|].
        intros t Ht Hfree.
        destruct (decide (50 ≤ scoreOf inv t)) as [Hge|Hlt]; [|lia].
        destruct (Hbest t Ht) as (b' & [= <-] & Hle); [set_solver|done|done].
    + intros inv' t [Hin'|Heq]%elem_of_app Hun Ht Hfree.
      * apply (Hleft inv' t); set_solver.
      * apply list_elem_of_singleton in Heq as ->. set_solver.
  - split; [eapply Forall_impl; [exact Hpairs|]; intros p;
            apply chosenPair_mono; set_solver|].
    intros inv' t [Hin'|Heq]%elem_of_app Hun Ht Hfree; [by apply (Hleft inv' t)|].
    apply list_elem_of_singleton in Heq as ->.
    destruct (decide (50 ≤ scoreOf inv t)) as [Hge|Hlt]; [|lia].
    by destruct (Hbest t Ht Hfree Hge) as (b' & [=] & _).
Qed.

Lemma pairing_fold_choice tripSheets invoices :
  choiceInv tripSheets invoices
    (foldl (pairInvoice currentYear tripSheets)
       {| statePairs := []; matchedInvoiceIds := ∅; matchedTripSheetIds := ∅ |}
       invoices).
Proof.
  induction invoices as [|inv l IH] using rev_ind.
  - split; [apply Forall_nil_2|]. intros inv t Hin. by apply elem_of_nil in Hin.
  - rewrite foldl_snoc. by apply pairInvoice_choice.
Qed.

(** X1.  Every pair [pairDocuments] returns joins an invoice and a
    trip sheet of the input; its confidence is the score
    [calculateMatchScore] gives the two, its reason the reason given
    with that score, and the confidence lies between 50 and 100. *)
Theorem pairDocuments_pair_scores (documents : list DocumentData) :
  Forall (λ p,
      50 ≤ pairConfidence p ≤ 100 ∧
      ∃ inv ts,
        inv ∈ documents ∧ isInvoice inv ∧ ts ∈ documents ∧ isTripSheet ts ∧
        invoiceId p = id inv ∧ tripSheetId p = id ts ∧
        pairConfidence p = scoreOf inv ts ∧ matchReason p = reasonOf inv ts)
    (pairs (pairDocuments currentYear documents)).
Proof.
  unfold pairDocuments. cbn [pairs].
  destruct (pairing_fold_choice (filter isTripSheet documents)
              (filter isInvoice documents)) as [Hpairs _].
  eapply Forall_impl; [exact Hpairs|].
  intros p (inv & ts & [Hi Hinv]%list_elem_of_filter & [Ht Hts]%list_elem_of_filter
            & ? & ? & Hscore & ? & ? & _).
  split.
  - rewrite Hscore. pose proof (calculateMatchScore_range inv ts). lia.
  - by exists inv, ts.
Qed.

(** X2.  [pairDocuments] leaves no match unmade: an invoice and a trip
    sheet that both end in the unmatched lists score below 50 against
    each other. *)
Theorem pairDocuments_no_missed_match (documents : list DocumentData)
    (inv t : DocumentData) :
  inv ∈ documents → isInvoice inv → t ∈ documents → isTripSheet t →
  id inv ∈ unmatchedInvoices (pairDocuments currentYear documents) →
  id t ∈ unmatchedTripSheets (pairDocuments currentYear documents) →
  scoreOf inv t < 50.
Proof.
  unfold pairDocuments. cbn [unmatchedInvoices unmatchedTripSheets].
  intros Hinv Hi Ht Hts Hui Hut.
  destruct (pairing_fold_choice (filter isTripSheet documents)
              (filter isInvoice documents)) as [_ Hleft].
  apply list_elem_of_fmap in Hui as (inv' & Hid & [Hfree _]%list_elem_of_filter).
  apply list_elem_of_fmap in Hut as (t' & Hidt & [Hfreet _]%list_elem_of_filter).
  apply (Hleft inv t).
  - by apply list_elem_of_filter.
  - by rewrite Hid.
  - by apply list_elem_of_filter.
  - by rewrite Hidt.
Qed.

(** X3.  The trip sheet of a pair is the best one that was left: no
    trip sheet that ends unmatched scores higher against the invoice
    of a pair than the trip sheet the invoice was paired with. *)
Theorem pairDocuments_best_available (documents : list DocumentData) :
  let r := pairDocuments currentYear documents in
  Forall (λ p,
      ∃ inv ts,
        inv ∈ documents ∧ isInvoice inv ∧ ts ∈ documents ∧ isTripSheet ts ∧
        invoiceId p = id inv ∧ tripSheetId p = id ts ∧
        ∀ t, t ∈ documents → isTripSheet t → id t ∈ unmatchedTripSheets r →
             scoreOf inv t ≤ scoreOf inv ts)
    (pairs r).
Proof.
  unfold pairDocuments. cbn [pairs unmatchedTripSheets].
  destruct (pairing_fold_choice (filter isTripSheet documents)
              (filter isInvoice documents)) as [Hpairs _].
  eapply Forall_impl; [exact Hpairs|].
  intros p (inv & ts & [Hi Hinv]%list_elem_of_filter & [Ht Hts]%list_elem_of_filter
            & ? & ? & Hscore & _ & _ & Hbest).
  exists inv, ts. split_and!; try done.
  intros t Hin Htt Hun. rewrite <- Hscore.
  apply list_elem_of_fmap in Hun as (t' & Hidt & [Hfree _]%list_elem_of_filter).
  apply Hbest; [by apply list_elem_of_filter|by rewrite Hidt].
Qed.

(** X4.  [pairDocuments] keeps the order of the input: the pairs come
    in the order of their invoices, and each unmatched list in the
    order of the documents of its kind. *)
Theorem pairDocuments_keeps_order (documents : list DocumentData) :
  let r := pairDocuments currentYear documents in
  (invoiceId <$> pairs r) `sublist_of` (id <$> filter isInvoice documents) ∧
  unmatchedInvoices r `sublist_of` (id <$> filter isInvoice documents) ∧
  unmatchedTripSheets r `sublist_of` (id <$> filter isTripSheet documents).
Proof.
  cbn zeta. split_and!.
  - apply pairDocuments_facts.
  - unfold pairDocuments. cbn [unmatchedInvoices].
    apply fmap_sublist, sublist_filter.
  - unfold pairDocuments. cbn [unmatchedTripSheets].
    apply fmap_sublist, sublist_filter.
Qed.
End PairingChoice.

Definition strangers : list DocumentData :=
  [ sampleInvoice "a" "" 1 (Some taxi) None None;
    sampleTripSheet "t" "" 5 "" ].

(** X2, at an invoice and a trip sheet of different amounts whose
    dates do not parse. *)
Lemma pairDocuments_no_missed_match_witness :
  PairingService.score
    (PairingService.calculateMatchScore 2025
       (sampleInvoice "a" "" 1 (Some taxi) None None)
       (sampleTripSheet "t" "" 5 "")) < 50.
Proof.
  apply (pairDocuments_no_missed_match 2025 strangers).
  - apply list_elem_of_here.
  - reflexivity.
  - apply list_elem_of_further, list_elem_of_here.
  - reflexivity.
  - vm_compute. apply list_elem_of_here.
  - vm_compute. apply list_elem_of_here.
Defined.

(** ** SortingService: the grouping information *)

Lemma map_as_keys {K V} `{EqDecision K} (d : V) (m : list (K * V)) :
  NoDup m.*1 → m = (λ k, (k, default d (JS.mapGet k m))) <$> m.*1.
Proof.
  induction m as [|[k v] m IH]; intros Hnd; [done|].
  rewrite !fmap_cons in *. apply NoDup_cons in Hnd as [Hk Hnd].
  cbn [JS.mapGet fst snd]. rewrite decide_True by done. cbn [default]. f_equal.
  rewrite (IH Hnd) at 1. apply list_fmap_ext.
  intros i k' Hk'. rewrite decide_False; [done|].
  intros ->. apply Hk. by eapply list_elem_of_lookup_2.
Qed.

Lemma mapGet_filter_keys {K V} `{EqDecision K} (P : K * V → Prop)
    `{!∀ e, Decision (P e)} (g : K → V) (keys : list K) (k : K) :
  k ∈ keys → P (k, g k) →
  JS.mapGet k (filter P ((λ k, (k, g k)) <$> keys)) = Some (g k).
Proof.
  intros Hk HP. induction keys as [|k0 keys IH]; [by apply elem_of_nil in Hk|].
  rewrite fmap_cons, filter_cons.
  destruct (decide (k0 = k)) as [->|Hne].
  - rewrite decide_True by done. cbn [JS.mapGet]. by rewrite decide_True.
  - apply elem_of_cons in Hk as [Hk|Hk]; [congruence|].
    destruct (decide (P (k0, g k0))); [|by apply IH].
    cbn [JS.mapGet]. rewrite decide_False by done. by apply IH.
Qed.

Lemma join_filter_nonempty {K A} (l : list (K * list A)) :
  mjoin (filter (λ e, e.2 ≠ []) l).*2 = mjoin l.*2.
Proof.
  induction l as [|[k x] l IH]; [done|].
  rewrite filter_cons. cbn [snd]. destruct (decide (x ≠ [])) as [Hx|Hx].
  - rewrite !fmap_cons. cbn [mjoin list_join snd]. f_equal. exact IH.
  - apply dec_stable in Hx as ->. rewrite fmap_cons. exact IH.
Qed.

Section GroupingFacts.
Variable currentYear : Z.

Import SortingService.

Lemma generateGroupingInfo_from (sortedGroups : list (InvoiceType * list DocumentData))
    (acc : list (InvoiceType * list string)) :
  NoDup sortedGroups.*1 → (∀ k, k ∈ sortedGroups.*1 → k ∉ acc.*1) →
  foldl (λ (grouping : list (InvoiceType * list string))
           (entry : InvoiceType * list DocumentData),
           let '(type, docs) := entry in
           match docs with
           | [] => grouping
           | _ => JS.mapSet type (id <$> docs) grouping
           end) acc sortedGroups
  = acc ++ filter (λ e, e.2 ≠ [])
             ((λ e : InvoiceType * list DocumentData, (e.1, id <$> e.2))
                <$> sortedGroups).
Proof.
  revert acc. induction sortedGroups as [|[t docs] sg IH]; intros acc Hnd Hfresh.
  - cbn. by rewrite app_nil_r.
  - rewrite fmap_cons in Hnd. apply NoDup_cons in Hnd as [Ht Hnd].
    cbn [foldl]. rewrite fmap_cons, filter_cons. cbn [fst snd].
    destruct docs as [|doc docs].
    + rewrite fmap_nil, decide_False by (by intros H).
      apply IH; [done|]. intros k Hk. apply Hfresh. rewrite fmap_cons.
      by apply list_elem_of_further.
    + rewrite decide_True by done.
      rewrite mapSet_fresh
        by (apply Hfresh; rewrite fmap_cons; apply list_elem_of_here).
      rewrite IH; [by rewrite <- app_assoc|done|].
      intros k Hk. rewrite fmap_app, fmap_cons.
      intros [Hin|Hin]%elem_of_app.
      * eapply Hfresh; [|done]. rewrite fmap_cons. by apply list_elem_of_further.
      * apply list_elem_of_singleton in Hin. cbn in Hin. by subst.
Qed.

Lemma grouping_buckets documents pairing :
  grouping (sortDocuments currentYear documents pairing)
  = filter (λ e, e.2 ≠ [])
      ((λ t, (t, id <$> sortBucket currentYear (createPairMap pairing)
                          (default [] (JS.mapGet t
                             (groupByExpenseType documents (createPairMap pairing))))))
         <$> typeKeys).
Proof.
  unfold sortDocuments. cbn [grouping].
  pose proof (groupByExpenseType_keys documents (createPairMap pairing)) as Hkeys.
  set (groups := groupByExpenseType documents (createPairMap pairing)) in *.
  assert (Hnd : NoDup groups.*1) by (rewrite Hkeys; apply typeKeys_NoDup).
  rewrite sortGroupsByDate_eq by done.
  unfold generateGroupingInfo.
  rewrite generateGroupingInfo_from;
    [|by rewrite mapValues_keys|intros k _ Hk; by apply elem_of_nil in Hk].
  rewrite app_nil_l. f_equal.
  unfold mapValues. rewrite <- list_fmap_compose.
  rewrite (map_as_keys [] groups Hnd) at 1.
  rewrite <- list_fmap_compose, Hkeys.
  apply list_fmap_ext. intros i t _. done.
Qed.

(** X5.  The grouping [sortDocuments] reports lists, in the order of
    the categories, the ids of every category that has documents and
    no other category; read one list after the other, it is the
    suggested order. *)
Theorem sortDocuments_grouping (documents : list DocumentData)
    (pairing : PairingResult) :
  let r := sortDocuments currentYear documents pairing in
  let pairMap := createPairMap pairing in
  let ids t :=
    id <$> flattenUnits
             (sortUnits currentYear
                (createDocumentUnits
                   (default [] (JS.mapGet t (groupByExpenseType documents pairMap)))
                   pairMap)) in
  grouping r
  = filter (λ e, e.2 ≠ [])
      ((λ t, (t, ids t))
         <$> [consumables; hotel; taxi; shipping; toll; train; other]) ∧
  mjoin (grouping r).*2 = suggestedOrder r.
Proof.
  intros r pairMap ids. split; [apply grouping_buckets|].
  unfold r. rewrite grouping_buckets, join_filter_nonempty.
  rewrite suggestedOrder_buckets, bind_as_join.
  by rewrite <- list_fmap_compose.
Qed.

Lemma sortBucket_units documents pairMap ug (t : InvoiceType) :
  GroupedInUnits documents pairMap ug →
  sortBucket currentYear pairMap
    (default [] (JS.mapGet t (mapValues flattenUnits ug)))
  = flattenUnits (sortUnits currentYear (default [] (JS.mapGet t ug))).
Proof.
  intros Hug. rewrite mapGet_default_mapValues. unfold sortBucket.
  pose proof (bucket_sublist t ug) as Hsl.
  rewrite (createDocumentUnits_units documents); [done| | |].
  - intros y Hy. rewrite <- (grouped_perm _ _ _ Hug).
    eapply sublist_subseteq; [|exact Hy].
    unfold docsOfGroups, flattenUnits. by apply bind_sublist.
  - eapply sublist_NoDup; [apply (grouped_nodup _ _ _ Hug)|].
    apply fmap_sublist. unfold docsOfGroups, flattenUnits. by apply bind_sublist.
  - intros u Hu. apply (grouped_shape _ _ _ Hug).
    by eapply sublist_subseteq.
Qed.

(** X6.  For documents with distinct ids paired by [pairDocuments],
    the grouping of [sortDocuments] files every invoice under its own
    category, and an invoice without a category under [other]. *)
Theorem sortDocuments_grouping_category (documents : list DocumentData)
    (d : DocumentData) :
  NoDup (id <$> documents) → d ∈ documents → isInvoice d →
  ∃ ids,
    JS.mapGet (default other (invoiceType d))
      (grouping (sortDocuments currentYear documents
                   (PairingService.pairDocuments currentYear documents)))
    = Some ids ∧ id d ∈ ids.
Proof.
  intros Hnd Hd Hdi.
  set (pairing := PairingService.pairDocuments currentYear documents).
  pose proof (pairDocuments_pairs currentYear documents Hnd) as Hp.
  fold pairing in Hp.
  destruct (groupByExpenseType_units documents (createPairMap pairing) Hnd
              (pairMapOK_of_pairs _ _ Hnd Hp)) as (ug & Hgroups & Hug).
  destruct (grouped_invoice _ _ _ Hug d Hd Hdi) as (us & Hus & Hin).
  set (T := default other (invoiceType d)) in *.
  assert (Hid : id d ∈ id <$> sortBucket currentYear (createPairMap pairing)
                          (default [] (JS.mapGet T
                             (groupByExpenseType documents (createPairMap pairing))))).
  { rewrite Hgroups, (sortBucket_units documents) by done.
    rewrite Hus. cbn [default]. apply list_elem_of_fmap_2.
    apply elem_of_flattenUnits. exists (unitOf documents (createPairMap pairing) d).
    split; [by rewrite sortUnits_perm|by left]. }
  eexists. split; [|exact Hid].
  rewrite grouping_buckets.
  apply (mapGet_filter_keys _
           (λ t, id <$> sortBucket currentYear (createPairMap pairing)
                          (default [] (JS.mapGet t
                             (groupByExpenseType documents (createPairMap pairing)))))).
  - apply typeKeys_all.
  - cbn [snd]. intros Hnil. rewrite Hnil in Hid. by apply elem_of_nil in Hid.
Qed.
End GroupingFacts.

(** X6, at the documents of scenario A. *)
Lemma sortDocuments_grouping_category_witness :
  ∃ ids,
    JS.mapGet taxi
      (grouping (SortingService.sortDocuments 2025 scenarioA
                   (PairingService.pairDocuments 2025 scenarioA)))
    = Some ids ∧ "inv"%string ∈ ids.
Proof.
  apply (sortDocuments_grouping_category 2025 scenarioA
           (sampleInvoice "inv" "11/03" (21967 # 100) (Some taxi)
              (Some "如祺出行"%string) None)).
  - exact scenarioA_ids.
  - apply list_elem_of_here.
  - reflexivity.
Defined.

(** ** Loops that collect the elements of a list under their keys *)
Section GroupBy.
Context {K A : Type} `{EqDecision K} (key : A → K) (P : A → bool).

(** [for (const a of l) if (P(a)) push a under key(a)], from the map [m]. *)
Definition pushed (m : list (K * list A)) (l : list A) : list (K * list A) :=
  foldl (λ m a, if P a then JS.mapPush (key a) a m else m) m l.

(** The elements of [l] collected under [k], in order. *)
Definition groupOf (k : K) (l : list A) : list A :=
  filter (λ a, P a = true ∧ key a = k) l.

Lemma mapSet_NoDup_keys {V} (k : K) (v : V) (m : list (K * V)) :
  NoDup m.*1 → NoDup (JS.mapSet k v m).*1.
Proof.
  intros Hnd. destruct (decide (k ∈ m.*1)) as [Hk|Hk].
  - by rewrite mapSet_keys_present.
  - rewrite mapSet_fresh, fmap_app by done. apply NoDup_app.
    split_and!; [done| |apply NoDup_singleton].
    intros x Hx Hx'. apply list_elem_of_singleton in Hx'. cbn in Hx'. by subst.
Qed.

Lemma pushed_keys_NoDup m l : NoDup m.*1 → NoDup (pushed m l).*1.
Proof.
  revert m. induction l as [|a l IH]; intros m Hnd; [done|].
  cbn [pushed foldl]. apply IH. destruct (P a); [|done].
  by apply mapSet_NoDup_keys.
Qed.

Lemma pushed_lookup m l k :
  JS.mapGet k (pushed m l)
  = match groupOf k l with
    | [] => JS.mapGet k m
    | g => Some (default [] (JS.mapGet k m) ++ g)
    end.
Proof.
  revert m. induction l as [|a l IH]; intros m; [done|].
  cbn [pushed foldl]. fold (pushed (if P a then JS.mapPush (key a) a m else m) l).
  rewrite IH. unfold groupOf. rewrite filter_cons.
  destruct (P a) eqn:HP.
  - destruct (decide (key a = k)) as [Hk|Hk].
    + rewrite decide_True by done. unfold JS.mapPush.
      rewrite Hk, mapGet_mapSet_eq.
      destruct (filter _ l); cbn [default]; [done|].
      unfold Datatypes.id. by rewrite <- app_assoc.
    + rewrite decide_False by (by intros [_ ?]).
      unfold JS.mapPush. by rewrite mapGet_mapSet_ne.
  - by rewrite decide_False by (by intros [? _]).
Qed.

Lemma pushed_entries l k g :
  (k, g) ∈ pushed [] l → g = groupOf k l ∧ g ≠ [].
Proof.
  intros Hin. apply mapGet_elem_of in Hin;
    [|apply pushed_keys_NoDup, NoDup_nil_2].
  rewrite pushed_lookup in Hin. cbn [JS.mapGet default app] in Hin.
  destruct (groupOf k l) as [|a g']; [done|]. by inversion Hin.
Qed.

Lemma pushed_entry_of l a :
  a ∈ l → P a = true → (key a, groupOf (key a) l) ∈ pushed [] l.
Proof.
  intros Ha HP. apply mapGet_Some_elem_of. rewrite pushed_lookup.
  assert (Hin : a ∈ groupOf (key a) l) by by apply list_elem_of_filter.
  destruct (groupOf (key a) l); [by apply elem_of_nil in Hin|done].
Qed.

Lemma groupOf_elem k l a : a ∈ groupOf k l → a ∈ l ∧ P a = true ∧ key a = k.
Proof. intros [[? ?] ?]%list_elem_of_filter. done. Qed.
End GroupBy.

(** ** AnomalyDetector: what the warnings are about *)
Section AnomalyGroups.
Import AnomalyDetector.

(** The key and the test of the first loop of [detectDuplicates]. *)
Definition numberKey (inv : DocumentData) : string :=
  default EmptyString (invoiceNumber inv).

Definition hasNumber (inv : DocumentData) : bool :=
  match invoiceNumber inv with
  | Some number => JS.truthy number
  | None => false
  end.

Definition category (inv : DocumentData) : InvoiceType :=
  default other (invoiceType inv).

Lemma invoicesByNumber_pushed documents :
  invoicesByNumber documents = pushed numberKey hasNumber [] (invoicesOf documents).
Proof.
  unfold invoicesByNumber, pushed.
  generalize (@nil (string * list DocumentData)).
  induction (invoicesOf documents) as [|inv l IH]; intros m; [done|].
  cbn [foldl]. rewrite IH. f_equal. unfold hasNumber, numberKey.
  destruct (invoiceNumber inv); [|done]. by destruct (JS.truthy _).
Qed.

Lemma invoicesByType_pushed documents :
  invoicesByType documents = pushed category (λ _, true) [] (invoicesOf documents).
Proof. reflexivity. Qed.

Lemma invoicesByAmountDate_pushed documents :
  invoicesByAmountDate documents
  = pushed amountDateKey (checkedByAmountDate (invoicesByNumber documents)) []
      (invoicesOf documents).
Proof. reflexivity. Qed.

(** The invoices of [documents] that carry the number [n]. *)
Definition sameNumber (n : string) (documents : list DocumentData)
  : list DocumentData :=
  filter (λ d, isInvoice d ∧ invoiceNumber d = Some n) documents.

Lemma groupOf_sameNumber n documents :
  JS.truthy n = true →
  groupOf numberKey hasNumber n (invoicesOf documents) = sameNumber n documents.
Proof.
  intros Hn. unfold groupOf, invoicesOf, sameNumber.
  rewrite list_filter_filter. apply list_filter_iff. intros d.
  unfold hasNumber, numberKey. split.
  - intros [[Hh Hk] Hi]. split; [done|].
    destruct (invoiceNumber d); [|done]. cbn in Hk. by subst.
  - intros [Hi Hd]. rewrite Hd. done.
Qed.

Definition numberWarningOf (n : string) (group : list DocumentData) : Warning :=
  {| type := duplicate;
     message := String.append "检测到重复发票号: " n;
     documentIds := id <$> group;
     severity := Some high |}.

Lemma detectDuplicates_named (documents : list DocumentData) :
  Forall (λ w, (2 ≤ length (documentIds w))%nat ∧
               documentIds w ⊆ id <$> filter isInvoice documents)
    (detectDuplicates documents).
Proof.
  unfold detectDuplicates. apply Forall_app.
  split; apply Forall_bind, Forall_forall; intros [k g] Hin; unfold compose.
  - rewrite invoicesByNumber_pushed in Hin.
    apply pushed_entries in Hin as [-> _]. unfold numberWarning.
    destruct (1 <? length _)%nat eqn:Hlen; [|constructor].
    apply Nat.ltb_lt in Hlen. apply Forall_singleton. cbn [documentIds].
    split; [rewrite length_fmap; lia|].
    intros x (d & -> & Hd)%list_elem_of_fmap.
    apply groupOf_elem in Hd as [Hd _]. by apply list_elem_of_fmap_2.
  - rewrite invoicesByAmountDate_pushed in Hin.
    apply pushed_entries in Hin as [-> _]. unfold amountDateWarning.
    destruct (1 <? length _)%nat eqn:Hlen; [|constructor].
    apply Nat.ltb_lt in Hlen. apply Forall_singleton. cbn [documentIds].
    split; [rewrite length_fmap; lia|].
    intros x (d & -> & Hd)%list_elem_of_fmap.
    apply groupOf_elem in Hd as [Hd _]. by apply list_elem_of_fmap_2.
Qed.

(** X7.  Every duplicate warning names at least two documents, all of
    them invoices of the input.  An invoice number that is not empty
    is reported, at high severity and with the ids of all the invoices
    that carry it in input order, exactly when at least two invoices
    carry it. *)
Theorem detectDuplicates_by_number (documents : list DocumentData) :
  Forall (λ w, (2 ≤ length (documentIds w))%nat ∧
               documentIds w ⊆ id <$> filter isInvoice documents)
    (detectDuplicates documents) ∧
  ∀ n, JS.truthy n = true →
    (numberWarningOf n (sameNumber n documents) ∈ detectDuplicates documents
     ↔ (2 ≤ length (sameNumber n documents))%nat).
Proof.
  split; [apply detectDuplicates_named|].
  - intros n Hn. unfold detectDuplicates. split.
    + intros [Hin|Hin]%elem_of_app.
      * apply list_elem_of_bind in Hin as ([k g] & Hw & Hin).
        unfold numberWarning in Hw.
        destruct (1 <? length g)%nat eqn:Hlen; [|by apply elem_of_nil in Hw].
        apply Nat.ltb_lt in Hlen. apply list_elem_of_singleton in Hw.
        apply (f_equal (λ w, length (documentIds w))) in Hw.
        cbn [documentIds numberWarningOf] in Hw. rewrite !length_fmap in Hw. lia.
      * apply list_elem_of_bind in Hin as ([k g] & Hw & Hin).
        unfold amountDateWarning in Hw.
        destruct (1 <? length g)%nat eqn:Hlen; [|by apply elem_of_nil in Hw].
        apply list_elem_of_singleton in Hw. by inversion Hw.
    + intros Hlen. apply elem_of_app. left.
      destruct (sameNumber n documents) as [|d rest] eqn:Hgroup; [cbn in Hlen; lia|].
      assert (Hd : d ∈ sameNumber n documents) by (rewrite Hgroup; apply list_elem_of_here).
      apply list_elem_of_filter in Hd as [[Hdi Hdn] Hd].
      apply list_elem_of_bind. exists (n, sameNumber n documents). split.
      * unfold numberWarning. rewrite Hgroup.
        destruct (1 <? _)%nat eqn:Hl; [apply list_elem_of_here|].
        apply Nat.ltb_ge in Hl. lia.
      * rewrite invoicesByNumber_pushed, <- groupOf_sameNumber by done.
        assert (Hkey : numberKey d = n) by (unfold numberKey; by rewrite Hdn).
        rewrite <- Hkey. apply pushed_entry_of.
        -- by apply list_elem_of_filter.
        -- unfold hasNumber. by rewrite Hdn.
Qed.
End AnomalyGroups.

Lemma filter_bind {A B} (P : B → Prop) `{!∀ b, Decision (P b)}
    (f : A → list B) (l : list A) :
  filter P (l ≫= f) = l ≫= (λ x, filter P (f x)).
Proof.
  induction l as [|x l IH]; [done|]. by rewrite !bind_cons, filter_app, IH.
Qed.

(** A loop over a map that produces something for one key only
    produces what that key gives. *)
Lemma bind_at_most_one {K V B} (l : list (K * V)) (h : K * V → list B) (k0 : K) :
  NoDup l.*1 →
  (∀ e, e ∈ l → (length (h e) ≤ 1)%nat) →
  (∀ e, e ∈ l → h e ≠ [] → e.1 = k0) →
  (length (l ≫= h) ≤ 1)%nat.
Proof.
  induction l as [|e l IH]; intros Hnd Hlen Hkey; [cbn; lia|].
  rewrite fmap_cons in Hnd. apply NoDup_cons in Hnd as [He Hnd].
  rewrite bind_cons, length_app.
  destruct (h e) as [|b bs] eqn:Hhe.
  - cbn [length]. apply IH; [done| |].
    + intros e' He'. apply Hlen. by apply list_elem_of_further.
    + intros e' He'. apply Hkey. by apply list_elem_of_further.
  - assert (Hk : e.1 = k0)
      by (apply Hkey; [apply list_elem_of_here|by rewrite Hhe]).
    assert (Hrest : l ≫= h = []).
    { clear IH Hlen. induction l as [|e' l IH']; [done|].
      rewrite bind_cons.
      rewrite fmap_cons in He, Hnd. apply not_elem_of_cons in He as [Hne He].
      apply NoDup_cons in Hnd as [_ Hnd].
      destruct (h e') eqn:Hhe'.
      - cbn [app]. apply IH'; [done|done|].
        intros e'' [->|He'']%elem_of_cons; [intros; done|].
        apply Hkey. by do 2 apply list_elem_of_further.
      - exfalso. apply Hne. rewrite Hk. symmetry. apply Hkey.
        + apply list_elem_of_further, list_elem_of_here.
        + by rewrite Hhe'. }
    rewrite Hrest. cbn [length]. rewrite Nat.add_0_r.
    specialize (Hlen e (list_elem_of_here _ _)). by rewrite Hhe in Hlen.
Qed.

Section DuplicateOnce.
Import AnomalyDetector.

(** X8.  For documents with distinct ids, an invoice is named by at
    most one duplicate warning: the invoices of a shared number are
    left out of the comparison by amount and date. *)
Theorem detectDuplicates_once (documents : list DocumentData) (d : DocumentData) :
  NoDup (id <$> documents) → d ∈ documents →
  (length (filter (λ w, id d ∈ documentIds w) (detectDuplicates documents)) ≤ 1)%nat.
Proof.
  intros Hnd Hd.
  assert (Hsame : ∀ g : list DocumentData,
             id d ∈ id <$> g → (∀ x, x ∈ g → x ∈ documents) → d ∈ g).
  { intros g (d' & Hid & Hd')%list_elem_of_fmap Hsub.
    assert (d = d') by (apply (NoDup_fmap_elem_inj id documents); auto).
    by subst. }
  unfold detectDuplicates. rewrite filter_app, length_app, !filter_bind.
  set (byNumber := invoicesByNumber documents ≫= _).
  set (byAmountDate := invoicesByAmountDate documents ≫= _).
  assert (H1 : ∀ e, e ∈ invoicesByNumber documents →
               filter (λ w, id d ∈ documentIds w) (numberWarning e) ≠ [] →
               e = (numberKey d,
                    groupOf numberKey hasNumber (numberKey d) (invoicesOf documents))
               ∧ hasNumber d = true ∧ (1 < length e.2)%nat).
  { intros [k g] Hin Hne. rewrite invoicesByNumber_pushed in Hin.
    apply pushed_entries in Hin as [Hg _].
    unfold numberWarning in Hne.
    destruct (1 <? length g)%nat eqn:Hlen; [|done]. apply Nat.ltb_lt in Hlen.
    rewrite filter_cons in Hne. cbn [documentIds] in Hne.
    destruct (decide (id d ∈ id <$> g)) as [Hid|]; [|done].
    assert (Hdg : d ∈ g).
    { apply (Hsame g Hid). intros x Hx. rewrite Hg in Hx.
      apply groupOf_elem in Hx as [Hx _]. by apply list_elem_of_filter in Hx as [_ ?]. }
    rewrite Hg in Hdg. apply groupOf_elem in Hdg as (_ & HP & Hk).
    subst k. by rewrite <- Hg. }
  assert (H2 : ∀ e, e ∈ invoicesByAmountDate documents →
               filter (λ w, id d ∈ documentIds w) (amountDateWarning e) ≠ [] →
               e.1 = amountDateKey d
               ∧ checkedByAmountDate (invoicesByNumber documents) d = true).
  { intros [k g] Hin Hne. rewrite invoicesByAmountDate_pushed in Hin.
    apply pushed_entries in Hin as [Hg _].
    unfold amountDateWarning in Hne.
    destruct (1 <? length g)%nat eqn:Hlen; [|done].
    rewrite filter_cons in Hne. cbn [documentIds] in Hne.
    destruct (decide (id d ∈ id <$> g)) as [Hid|]; [|done].
    assert (Hdg : d ∈ g).
    { apply (Hsame g Hid). intros x Hx. rewrite Hg in Hx.
      apply groupOf_elem in Hx as [Hx _]. by apply list_elem_of_filter in Hx as [_ ?]. }
    rewrite Hg in Hdg. by apply groupOf_elem in Hdg as (_ & HP & Hk). }
  assert (Hlen1 : (length byNumber ≤ 1)%nat).
  { apply (bind_at_most_one _ _ (numberKey d)).
    - rewrite invoicesByNumber_pushed. apply pushed_keys_NoDup, NoDup_nil_2.
    - intros [k g] _. unfold numberWarning.
      destruct (1 <? length g)%nat; [|cbn; lia].
      rewrite filter_cons. case_match; cbn; lia.
    - intros e He Hne. by destruct (H1 e He Hne) as [-> _]. }
  assert (Hlen2 : (length byAmountDate ≤ 1)%nat).
  { apply (bind_at_most_one _ _ (amountDateKey d)).
    - rewrite invoicesByAmountDate_pushed. apply pushed_keys_NoDup, NoDup_nil_2.
    - intros [k g] _. unfold amountDateWarning.
      destruct (1 <? length g)%nat; [|cbn; lia].
      rewrite filter_cons. case_match; cbn; lia.
    - intros e He Hne. by destruct (H2 e He Hne) as [-> _]. }
  destruct byNumber as [|w1 ws1] eqn:E1; [cbn [length]; lia|].
  destruct byAmountDate as [|w2 ws2] eqn:E2; [cbn [length] in *; lia|].
  exfalso.
  assert (Hw1 : w1 ∈ byNumber) by (rewrite E1; apply list_elem_of_here).
  assert (Hw2 : w2 ∈ byAmountDate) by (rewrite E2; apply list_elem_of_here).
  clear E1 E2.
  apply list_elem_of_bind in Hw1 as (e1 & Hw1 & He1).
  apply list_elem_of_bind in Hw2 as (e2 & Hw2 & He2).
  destruct (H1 e1 He1) as (-> & Hhas & Hlen); [by intros Hnil; rewrite Hnil in Hw1; apply elem_of_nil in Hw1|].
  destruct (H2 e2 He2) as (_ & Hchecked); [by intros Hnil; rewrite Hnil in Hw2; apply elem_of_nil in Hw2|].
  apply mapGet_elem_of in He1;
    [|rewrite invoicesByNumber_pushed; apply pushed_keys_NoDup, NoDup_nil_2].
  unfold checkedByAmountDate in Hchecked. unfold hasNumber in Hhas.
  unfold numberKey at 1 in He1.
  destruct (invoiceNumber d) as [n|]; [|done]. cbn [default] in He1.
  unfold Datatypes.id in He1. rewrite Hhas, He1 in Hchecked. apply bool_decide_eq_true in Hchecked.
  cbn [snd] in Hlen. lia.
Qed.
End DuplicateOnce.

Definition twoCopies : list DocumentData :=
  [ sampleInvoice "a" "11/03" 10 (Some taxi) None (Some "N-1"%string);
    sampleInvoice "b" "11/03" 10 (Some taxi) None (Some "N-1"%string) ].

(** X8, at two invoices that share their number, amount and date. *)
Lemma detectDuplicates_once_witness :
  (length (filter (λ w, "a"%string ∈ documentIds w)
             (AnomalyDetector.detectDuplicates twoCopies)) ≤ 1)%nat.
Proof.
  apply (detectDuplicates_once twoCopies
           (sampleInvoice "a" "11/03" 10 (Some taxi) None (Some "N-1"%string))).
  - apply NoDup_cons_2; [set_solver|apply NoDup_singleton].
  - apply list_elem_of_here.
Defined.

(** ** AnomalyDetector: amounts out of line *)
From Stdlib Require Import Lqa.

Section AmountFacts.
Import AnomalyDetector.

(** The invoices of [documents] of category [t]; an invoice without a
    category counts under [other]. *)
Definition sameCategory (t : InvoiceType) (documents : list DocumentData)
  : list DocumentData :=
  filter (λ d, isInvoice d ∧ category d = t) documents.

Lemma groupOf_sameCategory t documents :
  groupOf category (λ _, true) t (invoicesOf documents) = sameCategory t documents.
Proof.
  unfold groupOf, invoicesOf, sameCategory.
  rewrite list_filter_filter. apply list_filter_iff. intros d. naive_solver.
Qed.

Definition anomalyWarningOf (inv : DocumentData) (msg : string) (sev : Severity)
  : Warning :=
  {| type := amount_anomaly;
     message := msg;
     documentIds := [id inv];
     severity := Some sev |}.

Lemma detectAmountAnomalies_member (documents : list DocumentData) (w : Warning) :
  w ∈ detectAmountAnomalies documents →
  ∃ inv msg sev,
    inv ∈ documents ∧ isInvoice inv ∧
    (2 ≤ length (sameCategory (category inv) documents))%nat ∧
    isAmountAnomaly (amount inv)
      (calculateAmountStats
         (sortAmounts (amount <$> sameCategory (category inv) documents)))
      (category inv) = Some (msg, sev) ∧
    w = anomalyWarningOf inv msg sev.
Proof.
  unfold detectAmountAnomalies. rewrite invoicesByType_pushed.
  intros ([t g] & Hw & Hin)%list_elem_of_bind.
  apply pushed_entries in Hin as [Hg _].
  rewrite groupOf_sameCategory in Hg. subst g.
  unfold typeWarnings in Hw.
  destruct (length _ <? 2)%nat eqn:Hlen; [by apply elem_of_nil in Hw|].
  apply Nat.ltb_ge in Hlen.
  apply list_elem_of_bind in Hw as (inv & Hw & Hinv).
  apply list_elem_of_filter in Hinv as [[Hi Hc] Hinv]. subst t.
  destruct (isAmountAnomaly _ _ _) as [[msg sev]|] eqn:Ha;
    [|by apply elem_of_nil in Hw].
  apply list_elem_of_singleton in Hw. by exists inv, msg, sev.
Qed.

(** X9.  [detectAmountAnomalies] judges every invoice against the
    invoices of its own category: a warning is issued for an invoice
    exactly when its category has at least two invoices and
    [isAmountAnomaly] flags its amount against the statistics of the
    sorted amounts of that category. *)
Theorem detectAmountAnomalies_by_category (documents : list DocumentData)
    (w : Warning) :
  w ∈ detectAmountAnomalies documents ↔
  ∃ inv msg sev,
    inv ∈ documents ∧ isInvoice inv ∧
    (2 ≤ length (sameCategory (category inv) documents))%nat ∧
    isAmountAnomaly (amount inv)
      (calculateAmountStats
         (sortAmounts (amount <$> sameCategory (category inv) documents)))
      (category inv) = Some (msg, sev) ∧
    w = anomalyWarningOf inv msg sev.
Proof.
  split; [apply detectAmountAnomalies_member|].
  unfold detectAmountAnomalies. rewrite invoicesByType_pushed.
  - intros (inv & msg & sev & Hinv & Hi & Hlen & Ha & ->).
    apply list_elem_of_bind.
    exists (category inv, sameCategory (category inv) documents). split.
    + unfold typeWarnings.
      destruct (length _ <? 2)%nat eqn:Hl; [apply Nat.ltb_lt in Hl; lia|].
      apply list_elem_of_bind. exists inv. split.
      * rewrite Ha. apply list_elem_of_here.
      * by apply list_elem_of_filter.
    + rewrite <- groupOf_sameCategory.
      apply (pushed_entry_of category (λ _, true)); [|done].
      by apply list_elem_of_filter.
Qed.

Lemma amount_order (a b : Q) : Qle_bool (a - b) 0 = true ↔ (a <= b)%Q.
Proof. rewrite Qle_bool_iff. split; intros; lra. Qed.

Lemma sortAmounts_sorted (amounts : list Q) :
  StronglySorted Qle (sortAmounts amounts).
Proof.
  unfold sortAmounts.
  eapply StronglySorted_weaken; [|apply sort_sorted].
  - intros a b Hab. by apply amount_order.
  - intros a b Hab. apply amount_order.
    apply not_true_iff_false in Hab. rewrite amount_order in Hab. lra.
  - intros a b c. rewrite !amount_order. lra.
Qed.

Lemma sorted_at (l : list Q) (i j : nat) :
  StronglySorted Qle l → (i ≤ j)%nat → (j < length l)%nat →
  (at_ l i <= at_ l j)%Q.
Proof.
  unfold at_. intros Hs. revert i j.
  induction Hs as [|a l Hl IH Ha]; intros i j Hij Hj; [cbn in Hj; lia|].
  destruct j as [|j].
  - assert (i = 0%nat) as -> by lia. cbn. lra.
  - destruct i as [|i].
    + cbn [nth]. rewrite Forall_forall in Ha. apply Ha.
      apply list_elem_of_In, nth_In. cbn in Hj. lia.
    + cbn [nth]. apply IH; cbn in Hj; lia.
Qed.

Lemma elem_at (l : list Q) (a : Q) :
  a ∈ l → ∃ i, (i < length l)%nat ∧ at_ l i = a.
Proof.
  intros Ha. apply list_elem_of_In in Ha.
  destruct (In_nth l a 0%Q Ha) as (i & Hi & Hn). by exists i.
Qed.

(** X10.  In a category of two, three or four invoices the third
    quartile is the largest amount, so no amount of the category lies
    above the upper bounds of [isAmountAnomaly]: whatever is flagged
    there is flagged for being low. *)
Theorem isAmountAnomaly_small_category (typeInvoices : list DocumentData)
    (inv : DocumentData) :
  (2 ≤ length typeInvoices ≤ 4)%nat → inv ∈ typeInvoices →
  let stats :=
    calculateAmountStats (sortAmounts (amount <$> typeInvoices)) in
  q3 stats = max stats ∧
  Qltb (q3 stats + (3 # 2) * iqr stats) (amount inv) = false ∧
  Qltb (q3 stats + (3 # 1) * iqr stats) (amount inv) = false.
Proof.
  intros Hlen Hinv stats.
  set (amounts := sortAmounts (amount <$> typeInvoices)) in *.
  assert (Hn : length amounts = length typeInvoices)
    by (unfold amounts, sortAmounts; by rewrite sort_length, length_fmap).
  pose proof (sortAmounts_sorted (amount <$> typeInvoices)) as Hs.
  fold amounts in Hs.
  assert (Hq3 : q3 stats = at_ amounts (length amounts - 1)).
  { unfold stats, calculateAmountStats. cbn [q3]. rewrite Hn.
    destruct (length typeInvoices) as [|[|[|[|[|n]]]]]; try lia; done. }
  assert (Hq1 : (q1 stats <= q3 stats)%Q).
  { rewrite Hq3. unfold stats, calculateAmountStats. cbn [q1].
    apply sorted_at; [done| |lia]. rewrite Hn.
    destruct (length typeInvoices) as [|[|[|[|[|n]]]]]; try lia; cbn; lia. }
  assert (Ha : (amount inv <= q3 stats)%Q).
  { assert (Hin : amount inv ∈ amounts).
    { unfold amounts, sortAmounts. rewrite sort_perm. by apply list_elem_of_fmap_2. }
    apply elem_at in Hin as (i & Hi & <-). rewrite Hq3.
    apply sorted_at; [done|lia|lia]. }
  assert (Hiqr : iqr stats = (q3 stats - q1 stats)%Q) by done.
  split_and!.
  - rewrite Hq3. unfold stats, calculateAmountStats. cbn [max]. done.
  - unfold Qltb. apply negb_false_iff, Qle_bool_iff. rewrite Hiqr. lra.
  - unfold Qltb. apply negb_false_iff, Qle_bool_iff. rewrite Hiqr. lra.
Qed.
End AmountFacts.

(** X10, at the four hotel invoices of scenario D and the largest of
    them. *)
Lemma isAmountAnomaly_small_category_witness :
  let stats :=
    AnomalyDetector.calculateAmountStats
      (AnomalyDetector.sortAmounts (amount <$> scenarioD)) in
  AnomalyDetector.q3 stats = AnomalyDetector.max stats ∧
  AnomalyDetector.Qltb
    (AnomalyDetector.q3 stats + (3 # 2) * AnomalyDetector.iqr stats) 5000 = false ∧
  AnomalyDetector.Qltb
    (AnomalyDetector.q3 stats + (3 # 1) * AnomalyDetector.iqr stats) 5000 = false.
Proof.
  apply (isAmountAnomaly_small_category scenarioD
           (sampleInvoice "h4" "2024-01-04" 5000 (Some hotel) None None)).
  - cbn. lia.
  - do 3 apply list_elem_of_further. apply list_elem_of_here.
Defined.

(** ** AnomalyDetector: the documents a warning names *)

Lemma filter_iff_in {A} (P1 P2 : A → Prop)
    `{!∀ x, Decision (P1 x), !∀ x, Decision (P2 x)} (l : list A) :
  (∀ x, x ∈ l → (P1 x ↔ P2 x)) → filter P1 l = filter P2 l.
Proof.
  induction l as [|a l IH]; intros Hiff; [done|].
  rewrite !filter_cons.
  rewrite IH by (intros x Hx; apply Hiff; by apply list_elem_of_further).
  destruct (decide (P1 a)) as [H1|H1], (decide (P2 a)) as [H2|H2]; try done.
  - exfalso. apply H2. by apply (Hiff a (list_elem_of_here _ _)).
  - exfalso. apply H1. by apply (Hiff a (list_elem_of_here _ _)).
Qed.
Section WarningIds.
Variable currentYear : Z.

Import AnomalyDetector.

Lemma bind_all_nil {A B} (f : A → list B) (l : list A) :
  (∀ x, x ∈ l → f x = []) → l ≫= f = [].
Proof.
  induction l as [|x l IH]; intros Hf; [done|].
  rewrite bind_cons, (Hf x) by apply list_elem_of_here.
  apply IH. intros y Hy. apply Hf. by apply list_elem_of_further.
Qed.

Lemma detectDateGaps_ids documents :
  Forall (λ w, documentIds w ⊆ id <$> documents)
    (detectDateGaps currentYear documents).
Proof.
  unfold detectDateGaps.
  destruct (length _ <? 2)%nat; [constructor|].
  assert (Hdated : ∀ e, e ∈ docsWithDates currentYear documents → id e.1 ∈ id <$> documents).
  { intros [doc day] He. unfold docsWithDates in He. rewrite sort_perm in He.
    apply list_elem_of_omap in He as (doc' & Hdoc' & Heq).
    destruct (JSDate.parseDate currentYear (date doc')); [|done].
    cbn in Heq. inversion Heq; subst. by apply list_elem_of_fmap_2. }
  apply Forall_bind, Forall_forall. intros i _. unfold compose, gapWarningAt.
  destruct (_ !! (i - 1)%nat) as [prev|] eqn:Hprev; [|constructor].
  destruct (_ !! i) as [curr|] eqn:Hcurr; [|constructor].
  destruct (7 <? _); [|constructor].
  apply Forall_singleton. cbn [documentIds].
  apply list_elem_of_lookup_2 in Hprev, Hcurr.
  intros x [->|[->|Hx]%elem_of_cons]%elem_of_cons.
  - by apply Hdated.
  - by apply Hdated.
  - by apply elem_of_nil in Hx.
Qed.

(** X11.  A warning of [detectAnomalies] only names documents of the
    input, whatever pairing result it is given; on an empty input
    there is no warning. *)
Theorem detectAnomalies_ids (documents : list DocumentData)
    (pairingResult : option PairingResult) :
  Forall (λ w, documentIds w ⊆ id <$> documents)
    (detectAnomalies currentYear documents pairingResult) ∧
  detectAnomalies currentYear [] pairingResult = [].
Proof.
  split.
  - unfold detectAnomalies. rewrite !Forall_app. split_and!.
    + eapply Forall_impl; [apply detectDuplicates_named|]. intros w [_ Hsub] x Hx.
      apply Hsub in Hx. eapply sublist_subseteq; [|exact Hx].
      apply fmap_sublist, sublist_filter.
    + apply Forall_forall. intros w Hw.
      apply detectAmountAnomalies_member in Hw
        as (inv & msg & sev & Hinv & _ & _ & _ & ->).
      cbn [documentIds anomalyWarningOf].
      intros x ->%list_elem_of_singleton. by apply list_elem_of_fmap_2.
    + apply detectDateGaps_ids.
    + destruct pairingResult as [pr|]; [|constructor].
      unfold detectMissingPairs. apply Forall_app.
      split; apply Forall_bind, Forall_forall; intros i _; unfold compose.
      * destruct (findById i documents) as [inv|] eqn:Hf; [|constructor].
        apply findById_Some in Hf as [Hin <-].
        destruct (invoiceType inv) as [[]|]; try constructor; [|constructor].
        cbn [documentIds]. intros x ->%list_elem_of_singleton.
        by apply list_elem_of_fmap_2.
      * destruct (findById i documents) as [ts|] eqn:Hf; [|constructor].
        apply findById_Some in Hf as [Hin <-].
        constructor; [|constructor].
        cbn [documentIds]. intros x ->%list_elem_of_singleton.
        by apply list_elem_of_fmap_2.
  - unfold detectAnomalies.
    destruct pairingResult as [pr|]; [|done].
    unfold detectMissingPairs. rewrite !bind_all_nil; done.
Qed.

(** X12.  After [pairDocuments], [detectMissingPairs] gives one
    warning to every unmatched invoice that is a taxi invoice and one
    to every unmatched trip sheet, in this order and each at medium
    severity; an unmatched invoice of another category, or of none,
    gets no warning. *)
Theorem detectMissingPairs_after_pairing (documents : list DocumentData) :
  NoDup (id <$> documents) →
  let r := PairingService.pairDocuments currentYear documents in
  let lonelyTaxis :=
    filter (λ d, isInvoice d ∧ id d ∈ unmatchedInvoices r
                 ∧ invoiceType d = Some taxi) documents in
  let lonelyTripSheets :=
    filter (λ d, isTripSheet d ∧ id d ∈ unmatchedTripSheets r) documents in
  detectMissingPairs documents r
  = ((λ d, {| type := missing_pair;
              message := String.append "出租车发票缺少对应的行程单: " (fileName d);
              documentIds := [id d];
              severity := Some medium |}) <$> lonelyTaxis)
    ++ ((λ d, {| type := missing_pair;
                 message := String.append "行程单缺少对应的发票: " (fileName d);
                 documentIds := [id d];
                 severity := Some medium |}) <$> lonelyTripSheets).
Proof.
  intros Hnd r lonelyTaxis lonelyTripSheets.
  assert (Hmember : ∀ (P : DocumentData → Prop) `{!∀ x, Decision (P x)}
                      (Q : DocumentData → Prop) `{!∀ x, Decision (Q x)} d,
             d ∈ documents → P d →
             (id d ∈ id <$> filter (λ a, Q a ∧ P a) documents ↔ Q d)).
  { intros P ? Q ? d Hd HP. split.
    - intros (d' & Hid & [[HQ _] Hd']%list_elem_of_filter)%list_elem_of_fmap.
      assert (d = d') by (apply (NoDup_fmap_elem_inj id documents); auto).
      by subst.
    - intros HQ. apply list_elem_of_fmap_2. by apply list_elem_of_filter. }
  unfold detectMissingPairs. f_equal.
  - unfold r, PairingService.pairDocuments. cbn [unmatchedInvoices].
    set (final := foldl _ _ _).
    set (Q := λ inv : DocumentData, id inv ∉ PairingService.matchedInvoiceIds final).
    assert (E : lonelyTaxis
                = filter (λ d, invoiceType d = Some taxi)
                    (filter Q (filter isInvoice documents))).
    { unfold lonelyTaxis, r, PairingService.pairDocuments. cbn [unmatchedInvoices].
      fold final. fold Q. rewrite !list_filter_filter.
      apply filter_iff_in. intros d Hd. split.
      - intros (Hi & Hun & Ht). split_and!; try done.
        by apply (Hmember isInvoice _ Q _ d Hd Hi).
      - intros (Ht & HQ & Hi). split_and!; try done.
        by apply (Hmember isInvoice _ Q _ d Hd Hi). }
    rewrite E.
    assert (Hsub : ∀ x, x ∈ filter Q (filter isInvoice documents) → x ∈ documents).
    { intros x [_ [_ ?]%list_elem_of_filter]%list_elem_of_filter. done. }
    revert Hsub. generalize (filter Q (filter isInvoice documents)).
    intros l. induction l as [|d l IH]; intros Hsub; [done|].
    rewrite fmap_cons, bind_cons, filter_cons.
    rewrite (findById_unique documents d Hnd)
      by (apply Hsub, list_elem_of_here).
    rewrite IH by (intros x Hx; apply Hsub; by apply list_elem_of_further).
    destruct (decide (invoiceType d = Some taxi)) as [Ht|Ht].
    + by rewrite Ht.
    + destruct (invoiceType d) as [[]|]; done.
  - unfold r, PairingService.pairDocuments. cbn [unmatchedTripSheets].
    set (final := foldl _ _ _).
    set (Q := λ ts : DocumentData, id ts ∉ PairingService.matchedTripSheetIds final).
    assert (E : lonelyTripSheets = filter Q (filter isTripSheet documents)).
    { unfold lonelyTripSheets, r, PairingService.pairDocuments.
      cbn [unmatchedTripSheets]. fold final. fold Q. rewrite !list_filter_filter.
      apply filter_iff_in. intros d Hd. split.
      - intros (Hi & Hun). split; [|done].
        by apply (Hmember isTripSheet _ Q _ d Hd Hi).
      - intros (HQ & Hi). split; [done|].
        by apply (Hmember isTripSheet _ Q _ d Hd Hi). }
    rewrite E.
    assert (Hsub : ∀ x, x ∈ filter Q (filter isTripSheet documents) → x ∈ documents).
    { intros x [_ [_ ?]%list_elem_of_filter]%list_elem_of_filter. done. }
    revert Hsub. generalize (filter Q (filter isTripSheet documents)).
    intros l. induction l as [|d l IH]; intros Hsub; [done|].
    rewrite !fmap_cons, bind_cons.
    rewrite (findById_unique documents d Hnd)
      by (apply Hsub, list_elem_of_here).
    rewrite IH by (intros x Hx; apply Hsub; by apply list_elem_of_further).
    done.
Qed.
End WarningIds.

Definition lonelyDocuments : list DocumentData :=
  [ sampleInvoice "taxi" "11/03" 30 (Some taxi) None None;
    sampleInvoice "hotel" "11/03" 400 (Some hotel) None None;
    sampleTripSheet "trip" "01/20" 75 "滴滴出行" ].

(** X12, at a taxi invoice, a hotel invoice and a trip sheet that
    match nothing. *)
Lemma detectMissingPairs_after_pairing_witness :
  documentIds
    <$> AnomalyDetector.detectMissingPairs lonelyDocuments
          (PairingService.pairDocuments 2025 lonelyDocuments)
  = [["taxi"]; ["trip"]]%string.
Proof.
  rewrite (detectMissingPairs_after_pairing 2025 lonelyDocuments).
  - by vm_compute.
  - repeat (apply NoDup_cons_2; [set_solver|]). apply NoDup_nil_2.
Defined.

(** ** AIService: how a failure is classified *)

(** X13.  [handleAPIError] marks a failure as retryable exactly when
    it is an Axios error that is a timeout, that got no response, or
    whose response has status 429 or a status of 500 and above.  It
    never produces a [PARSING_ERROR]: an error that is not an Axios
    error, such as the parsing error thrown inside [recognizeDocument]
    for an empty answer, comes out as a [NETWORK_ERROR] that is not
    retried. *)
Theorem handleAPIError_retryable (thrown : AIService.Thrown) :
  (AIError.retryable (AIService.handleAPIError thrown) = true ↔
   ∃ e, thrown = AIService.ThrownAxios e ∧
        (AxiosError.code e = Some "ECONNABORTED"%string
         ∨ AxiosError.code e = Some "ETIMEDOUT"%string
         ∨ AxiosError.response e = None
         ∨ ∃ status data, AxiosError.response e = Some (status, data)
                          ∧ (status = 429 ∨ 500 ≤ status))) ∧
  AIError.type (AIService.handleAPIError thrown) ≠ AIErrorType.PARSING_ERROR ∧
  ∀ respond imageBase64 apiConfig fileName m,
    respond (AIService.recognitionRequest imageBase64 apiConfig) fileName 0%nat
    = inl (AIService.ThrownError m) →
    AIService.recognizeDocument respond imageBase64 apiConfig fileName
    = (inl {| AIError.type := AIErrorType.NETWORK_ERROR;
              AIError.retryable := false;
              AIError.message := String.append "未知错误: " m |}, []).
Proof.
  split_and!.
  - destruct thrown as [e| |]; cbn [AIService.handleAPIError]; [|split..].
    + destruct e as [code msg response]. cbn [AxiosError.code AxiosError.response].
      destruct (bool_decide (code = Some "ECONNABORTED"%string)) eqn:H1.
      { apply bool_decide_eq_true in H1. cbn. split; [|done].
        intros _. eexists. split; [done|]. by left. }
      destruct (bool_decide (code = Some "ETIMEDOUT"%string)) eqn:H2.
      { apply bool_decide_eq_true in H2. cbn. split; [|done].
        intros _. eexists. split; [done|]. right. by left. }
      apply bool_decide_eq_false in H1, H2. cbn [orb].
      destruct response as [[status data]|].
      * destruct ((status =? 401) || (status =? 403)) eqn:H3.
        { apply orb_true_iff in H3. cbn. split; [done|].
          intros (e & [= <-] & [?|[?|[?|(s & dt & [= <- <-] & Hs)]]]); try done.
          destruct H3 as [H3|H3]; apply Z.eqb_eq in H3; lia. }
        apply orb_false_iff in H3 as [H3 H4].
        apply Z.eqb_neq in H3, H4.
        destruct (status =? 429) eqn:H5.
        { apply Z.eqb_eq in H5. cbn. split; [|done].
          intros _. eexists. split; [done|]. do 3 right. exists status, data. auto. }
        apply Z.eqb_neq in H5. cbn [AIError.retryable]. rewrite Z.leb_le. split.
        -- intros Hs. eexists. split; [done|]. do 3 right. exists status, data. auto.
        -- intros (e & [= <-] & [?|[?|[?|(s & dt & [= <- <-] & Hs)]]]); try done.
           lia.
      * cbn. split; [|done]. intros _. eexists. split; [done|]. do 2 right. by left.
    + done.
    + by intros (e & ? & _).
    + done.
    + by intros (e & ? & _).
  - destruct thrown as [e| |]; cbn [AIService.handleAPIError]; [|done..].
    repeat case_match; done.
  - intros respond imageBase64 apiConfig fileName m Hm.
    unfold AIService.recognizeDocument, AIService.retryWithBackoff.
    cbn [AIService.retryFrom AIService.MAX_RETRIES]. by rewrite Hm.
Qed.

(** ** BatchProcessor: what a batch returns *)
Section BatchOutcome.
Variable currentYear : Z.
Variable processFileToBase64 : nat → BatchProcessor.File → BatchProcessor.Failure + list string.
Variable recognizeDocument :
  nat → nat → string → APIConfig → string → BatchProcessor.Failure + DocumentData.
Variable errorNonce : nat → Z * string.

Import BatchProcessor.

Notation recognizePages := (BatchProcessor.recognizePages recognizeDocument).
Notation processFile :=
  (BatchProcessor.processFile processFileToBase64 recognizeDocument).
Notation recognizeFiles :=
  (BatchProcessor.recognizeFiles processFileToBase64 recognizeDocument errorNonce).
Notation processBatch :=
  (BatchProcessor.processBatch currentYear processFileToBase64 recognizeDocument
     errorNonce).

(** The two events of the recognition of page [k] of a file. *)
Definition pageEvents (file : File) (pageCount k : nat) : list Event :=
  [ RecognitionStarted (pageFileName file pageCount k);
    RecognitionSettled (pageFileName file pageCount k) ].

Lemma recognizePages_run i file apiConfig pageCount page images docs trace :
  let call k img :=
    recognizeDocument i k img apiConfig (pageFileName file pageCount k) in
  let run := recognizePages i file apiConfig pageCount page images docs trace in
  match fst run with
  | inr out =>
      ∃ new, out = docs ++ new ∧
             imap (λ k, call (page + k)%nat) images = inr <$> new ∧
             snd run = trace ++ (seq page (length images) ≫= pageEvents file pageCount)
  | inl failure =>
      ∃ k img, images !! k = Some img ∧ call (page + k)%nat img = inl failure ∧
               (∀ j img', (j < k)%nat → images !! j = Some img' →
                          ∃ doc, call (page + j)%nat img' = inr doc) ∧
               snd run = trace ++ (seq page (S k) ≫= pageEvents file pageCount)
  end.
Proof.
  cbn zeta. revert page docs trace.
  induction images as [|img rest IH]; intros page docs trace.
  - cbn. exists []. by rewrite !app_nil_r.
  - cbn [BatchProcessor.recognizePages].
    destruct (recognizeDocument i page img apiConfig (pageFileName file pageCount page))
      as [failure|doc] eqn:Hcall.
    + cbn [fst snd]. exists 0%nat, img. rewrite Nat.add_0_r.
      split_and!; [done|done|intros; lia|].
      cbn [seq]. rewrite bind_cons. cbn. by rewrite <- app_assoc.
    + specialize (IH (S page) (docs ++ [doc])
                    ((trace ++ [RecognitionStarted (pageFileName file pageCount page)])
                     ++ [RecognitionSettled (pageFileName file pageCount page)])).
      destruct (fst (recognizePages i file apiConfig pageCount (S page) rest _ _))
        as [failure|out].
      * destruct IH as (k & img' & Hk & Hfail & Hbefore & Htrace).
        exists (S k), img'. split_and!.
        -- done.
        -- by rewrite Nat.add_succ_r.
        -- intros j img'' Hj Hlook. destruct j as [|j].
           ++ cbn in Hlook. inversion Hlook; subst. rewrite Nat.add_0_r. by exists doc.
           ++ rewrite Nat.add_succ_r. apply (Hbefore j); [lia|done].
        -- rewrite Htrace. cbn [seq]. rewrite (bind_cons _ page).
           unfold pageEvents at 3. by rewrite <- !app_assoc.
      * destruct IH as (new & -> & Hcalls & Htrace).
        exists (doc :: new). split_and!.
        -- by rewrite <- app_assoc.
        -- cbn [imap]. rewrite Nat.add_0_r, Hcall, fmap_cons. f_equal.
           rewrite <- Hcalls. apply imap_ext. intros k x _. cbn.
           by rewrite Nat.add_succ_r.
        -- rewrite Htrace. cbn [length seq]. rewrite (bind_cons _ page).
           unfold pageEvents at 3. by rewrite <- !app_assoc.
Qed.

(** X14.  [processFile] sends the pages of a file for recognition in
    order, each under the name of its page, and stops at the first page
    that fails.  When every page succeeds the outcome is the records of
    the pages in order; otherwise it is the failure of the first page
    that failed, and the records of the pages before it are dropped. *)
Theorem processFile_outcome (i : nat) (file : File) (apiConfig : APIConfig)
    (images : list string) :
  processFileToBase64 i file = inr images →
  let call k img :=
    recognizeDocument i k img apiConfig (pageFileName file (length images) k) in
  let run := processFile i file apiConfig in
  match fst run with
  | inr out =>
      imap call images = inr <$> out ∧
      snd run = seq 0 (length images) ≫= pageEvents file (length images)
  | inl failure =>
      ∃ k img, images !! k = Some img ∧ call k img = inl failure ∧
               (∀ j img', (j < k)%nat → images !! j = Some img' →
                          ∃ doc, call j img' = inr doc) ∧
               snd run = seq 0 (S k) ≫= pageEvents file (length images)
  end.
Proof.
  intros Himages. cbn zeta. unfold BatchProcessor.processFile. rewrite Himages.
  pose proof (recognizePages_run i file apiConfig (length images) 0 images [] [])
    as Hrun. cbn zeta in Hrun.
  destruct (fst (recognizePages i file apiConfig (length images) 0 images [] []))
    as [failure|out].
  - destruct Hrun as (k & img & ? & ? & ? & ?). exists k, img. done.
  - destruct Hrun as (new & -> & ? & ?). done.
Qed.

(** The error entry a file contributes. *)
Definition fileErrors (apiConfig : APIConfig) (i : nat) (file : File)
  : list (string * string) :=
  match fst (processFile i file apiConfig) with
  | inr _ => []
  | inl failure => [(originalname file, getErrorMessage failure)]
  end.

Lemma recognizeFiles_errors totalSteps apiConfig i files st :
  errors (recognizeFiles totalSteps apiConfig i files st)
  = errors st ++ mjoin (imap (λ k, fileErrors apiConfig (i + k)) files).
Proof.
  revert i st. induction files as [|file files IH]; intros i st.
  - cbn. by rewrite app_nil_r.
  - cbn [BatchProcessor.recognizeFiles imap mjoin list_join].
    unfold fileErrors at 1. rewrite Nat.add_0_r.
    assert (Hshift : imap ((λ k, fileErrors apiConfig (i + k)) ∘ S) files
                     = imap (λ k, fileErrors apiConfig (S i + k)) files)
      by (apply imap_ext; intros k f _; cbn; f_equal; lia).
    destruct (processFile i file apiConfig) as [[failure|docs] calls]; cbn [fst];
      rewrite IH, Hshift; cbn [errors]; by rewrite <- ?app_assoc.
Qed.

(** X15.  A batch that returns lists the records file by file, in the
    order of the files: the recognized pages of a file that succeeded,
    and for a file that failed one placeholder; its error list has one
    entry for every file that failed, in the same order, with the name
    of the file and the message kept in the placeholder. *)
Theorem processBatch_records_and_errors (files : list File) (apiConfig : APIConfig)
    (result : BatchProcessResult) (events : list Event) :
  processBatch files apiConfig = (inr result, events) →
  resultDocuments result
  = mjoin (imap (λ i file,
             match fst (processFile i file apiConfig) with
             | inr processedDocuments => processedDocuments
             | inl failure =>
                 [createErrorDocument (errorNonce i) file (getErrorMessage failure)]
             end) files) ∧
  resultErrors result
  = mjoin (imap (λ i file,
             match fst (processFile i file apiConfig) with
             | inr _ => []
             | inl failure => [(originalname file, getErrorMessage failure)]
             end) files).
Proof.
  intros Hbatch. split.
  - by destruct (processBatch_documents currentYear processFileToBase64
                   recognizeDocument errorNonce files apiConfig result events Hbatch)
      as [-> _].
  - unfold BatchProcessor.processBatch in Hbatch.
    pose proof (recognizeFiles_errors (length files) apiConfig 0 files
                  {| documents := []; errors := [];
                     trace := [Progress Stage.recognizing 0 (length files)] |}) as He.
    cbn [errors app] in He.
    destruct (documents _) as [|d ds]; [done|].
    inversion Hbatch; subst. cbn [resultErrors]. exact He.
Qed.

Lemma join_nil_iff {A} (ls : list (list A)) : mjoin ls = [] ↔ Forall (λ l, l = []) ls.
Proof.
  induction ls as [|l ls IH]; [by split; constructor|]. split.
  - intros H. simpl in H. apply app_eq_nil in H as [-> H].
    constructor; [done|]. by apply IH.
  - intros [-> H]%Forall_cons. simpl. by apply IH.
Qed.

(** X16.  [processBatch] throws exactly when no file contributes a
    record: every file is processed without a failure and yields no
    page.  One failed file is enough for the batch to return.  The
    error thrown is the all-files-failed message, the last progress
    notice has stage [error], and the empty batch is such a batch. *)
Theorem processBatch_throws (files : list File) (apiConfig : APIConfig) :
  ((∃ message, fst (processBatch files apiConfig) = inl message)
   ↔ ∀ i file, files !! i = Some file → fst (processFile i file apiConfig) = inr []) ∧
  (∀ message, fst (processBatch files apiConfig) = inl message →
     message = allFailedMessage ∧
     last (snd (processBatch files apiConfig))
     = Some (Progress Stage.error 0 (length files))) ∧
  fst (processBatch [] apiConfig) = inl allFailedMessage.
Proof.
  assert (Hnone : mjoin (imap (fileRecords processFileToBase64 recognizeDocument
                                 errorNonce apiConfig) files) = []
                  ↔ ∀ i file, files !! i = Some file →
                              fst (processFile i file apiConfig) = inr []).
  { rewrite join_nil_iff, Forall_forall. split.
    - intros Hall i file Hfile.
      specialize (Hall _ (elem_of_lookup_imap_2 _ _ _ _ Hfile)).
      unfold fileRecords in Hall.
      destruct (fst (processFile i file apiConfig)); [done|by subst].
    - intros Hall l (i & file & -> & Hfile)%elem_of_lookup_imap.
      unfold fileRecords. by rewrite (Hall i file Hfile). }
  pose proof (recognizeFiles_documents processFileToBase64 recognizeDocument
                errorNonce (length files) apiConfig 0 files
                {| documents := []; errors := [];
                   trace := [Progress Stage.recognizing 0 (length files)] |}) as Hd.
  cbn [documents app] in Hd.
  assert (Hd' : documents
                  (recognizeFiles (length files) apiConfig 0 files
                     {| documents := []; errors := [];
                        trace := [Progress Stage.recognizing 0 (length files)] |})
                = mjoin (imap (fileRecords processFileToBase64 recognizeDocument
                                 errorNonce apiConfig) files)) by exact Hd.
  clear Hd. split_and!.
  - rewrite <- Hnone, <- Hd'. unfold BatchProcessor.processBatch.
    destruct (documents _); cbn [fst]; split; try done.
    + intros _. by eexists.
    + by intros [? ?].
  - intros message. unfold BatchProcessor.processBatch.
    destruct (documents _); cbn [fst snd]; [|done].
    intros [= <-]. split; [done|]. by rewrite last_snoc.
  - done.
Qed.

Definition isProgress (e : Event) : bool :=
  match e with Progress _ _ _ => true | _ => false end.

Lemma recognizePages_no_progress i file apiConfig pageCount page images docs trace :
  filter isProgress (snd (recognizePages i file apiConfig pageCount page images docs trace))
  = filter isProgress trace.
Proof.
  revert page docs trace. induction images as [|img rest IH]; intros page docs trace;
    cbn [BatchProcessor.recognizePages]; [done|].
  destruct (recognizeDocument _ _ _ _ _) as [failure|doc]; cbn [snd].
  - rewrite !filter_app. cbn. by rewrite !app_nil_r.
  - rewrite IH, !filter_app. cbn. by rewrite !app_nil_r.
Qed.

Lemma processFile_no_progress i file apiConfig :
  filter isProgress (snd (processFile i file apiConfig)) = [].
Proof.
  unfold BatchProcessor.processFile.
  destruct (processFileToBase64 i file); [done|].
  by rewrite recognizePages_no_progress.
Qed.

Lemma recognizeFiles_progress totalSteps apiConfig i files st :
  filter isProgress (trace (recognizeFiles totalSteps apiConfig i files st))
  = filter isProgress (trace st)
    ++ imap (λ k _, Progress Stage.recognizing (i + k + 1) totalSteps) files.
Proof.
  revert i st. induction files as [|file files IH]; intros i st.
  - cbn. by rewrite app_nil_r.
  - cbn [BatchProcessor.recognizeFiles imap].
    pose proof (processFile_no_progress i file apiConfig) as Hcalls.
    assert (Hshift : imap ((λ k (_ : File),
                              Progress Stage.recognizing (i + k + 1) totalSteps) ∘ S)
                       files
                     = imap (λ k _, Progress Stage.recognizing (S i + k + 1) totalSteps)
                         files)
      by (apply imap_ext; intros k f _; cbn; f_equal; lia).
    destruct (processFile i file apiConfig) as [[failure|docs] calls];
      cbn [snd] in Hcalls; rewrite IH, Hshift; cbn [trace];
      rewrite !filter_app, Hcalls, app_nil_r; cbn [filter list_filter];
      rewrite Nat.add_0_r; cbn; by rewrite <- app_assoc.
Qed.

(** X17.  The progress notices of a batch of [n] files are, in order:
    stage [recognizing] at step 0, then at the steps 1 to [n], one
    before each file; then, for a batch that returns, the stages
    [pairing], [sorting], [detecting] and [completed], each at step
    [n]; for a batch that throws, the stage [error] at step 0. *)
Theorem processBatch_progress (files : list File) (apiConfig : APIConfig) :
  let n := length files in
  filter isProgress (snd (processBatch files apiConfig))
  = Progress Stage.recognizing 0 n
    :: imap (λ i _, Progress Stage.recognizing (i + 1) n) files
    ++ match fst (processBatch files apiConfig) with
       | inr _ =>
           [ Progress Stage.pairing n n; Progress Stage.sorting n n;
             Progress Stage.detecting n n; Progress Stage.completed n n ]
       | inl _ => [Progress Stage.error 0 n]
       end.
Proof.
  cbn zeta. unfold BatchProcessor.processBatch.
  pose proof (recognizeFiles_progress (length files) apiConfig 0 files
                {| documents := []; errors := [];
                   trace := [Progress Stage.recognizing 0 (length files)] |}) as Ht.
  cbn [trace] in Ht.
  destruct (documents _); cbn [fst snd]; rewrite filter_app, Ht; cbn;
    by rewrite <- ?app_assoc.
Qed.
End BatchOutcome.

(** A PDF of three pages, of which the second is refused. *)
Definition threePages (i : nat) (file : BatchProcessor.File)
  : BatchProcessor.Failure + list string :=
  inr ["cGFnZTE="; "cGFnZTI="; "cGFnZTM="]%string.

Definition refuseSecondPage (i page : nat) (image : string) (apiConfig : APIConfig)
    (name : string) : BatchProcessor.Failure + DocumentData :=
  match page with
  | 1%nat => refuseAll i page image apiConfig name
  | _ => inr (sampleInvoice name "11/03" 10 (Some taxi) None None)
  end.

(** X14, at a file of three pages whose second page is refused: two
    calls are made, and the outcome is the refusal. *)
Lemma processFile_outcome_witness :
  let file := {| BatchProcessor.originalname := "scan.pdf";
                 BatchProcessor.mimetype := "application/pdf" |} in
  let images := ["cGFnZTE="; "cGFnZTI="; "cGFnZTM="]%string in
  let call k img :=
    refuseSecondPage 0 k img sampleConfig (BatchProcessor.pageFileName file 3 k) in
  ∃ k img, images !! k = Some img ∧
           call k img = refuseAll 0 1 "cGFnZTI=" sampleConfig "scan.pdf (第2页)" ∧
           (∀ j img', (j < k)%nat → images !! j = Some img' →
                      ∃ doc, call j img' = inr doc) ∧
           snd (BatchProcessor.processFile threePages refuseSecondPage 0 file sampleConfig)
           = seq 0 (S k) ≫= pageEvents file 3.
Proof.
  exact (processFile_outcome threePages refuseSecondPage 0
           {| BatchProcessor.originalname := "scan.pdf";
              BatchProcessor.mimetype := "application/pdf" |}
           sampleConfig ["cGFnZTE="; "cGFnZTI="; "cGFnZTM="]%string eq_refl).
Defined.

(** X15, at a batch of two files of which the first is refused. *)
Lemma processBatch_records_and_errors_witness :
  ∃ result,
    fst (BatchProcessor.processBatch 2025 onePage refuseFirst sampleNonce
           [sampleFile "a.png"; sampleFile "b.png"] sampleConfig) = inr result ∧
    BatchProcessor.resultErrors result
    = [("a.png", "AI识别错误: API密钥无效或已过期，请检查配置")]%string ∧
    status <$> BatchProcessor.resultDocuments result = [error; completed].
Proof.
  destruct (BatchProcessor.processBatch 2025 onePage refuseFirst sampleNonce
              [sampleFile "a.png"; sampleFile "b.png"] sampleConfig)
    as [[message|result] events] eqn:Hbatch.
  - by vm_compute in Hbatch.
  - exists result. split; [done|].
    destruct (processBatch_records_and_errors 2025 onePage refuseFirst sampleNonce
                [sampleFile "a.png"; sampleFile "b.png"] sampleConfig
                result events Hbatch) as [-> ->].
    split; by vm_compute.
Defined.

(** ** AIService: the type of a file by its name *)

Lemma split_nonempty (sep : ascii) (s : string) : JS.split sep s ≠ [].
Proof.
  destruct s as [|c s]; cbn [JS.split]; [done|].
  destruct (Ascii.eqb c sep); [done|]. by destruct (JS.split sep s).
Qed.

Lemma split_app (sep : ascii) (a b : string) :
  JS.split sep (String.append a (String sep b)) = JS.split sep a ++ JS.split sep b.
Proof.
  induction a as [|c a IH]; simpl.
  - by rewrite Ascii.eqb_refl.
  - rewrite IH. destruct (Ascii.eqb c sep); [reflexivity|].
    pose proof (split_nonempty sep a) as Hne.
    destruct (JS.split sep a); [done|reflexivity].
Qed.

(** A string in which the separator does not occur is one piece. *)
Lemma split_whole (sep : ascii) (s : string) :
  sep ∉ list_ascii_of_string s → JS.split sep s = [s].
Proof.
  induction s as [|c s IH]; intros Hsep; [done|].
  cbn [list_ascii_of_string] in Hsep. apply not_elem_of_cons in Hsep as [Hne Hsep].
  cbn [JS.split]. rewrite (proj2 (Ascii.eqb_neq c sep)) by done.
  by rewrite IH.
Qed.

Lemma lowerAscii_dot (c : ascii) :
  JS.lowerAscii c = "."%char ↔ c = "."%char.
Proof.
  destruct c as [[] [] [] [] [] [] [] []]; vm_compute; split; congruence.
Qed.

Lemma toLowerCase_no_dot (s : string) :
  "."%char ∉ list_ascii_of_string s →
  "."%char ∉ list_ascii_of_string (JS.toLowerCase s).
Proof.
  induction s as [|c s IH]; [done|].
  cbn [list_ascii_of_string JS.toLowerCase].
  rewrite !not_elem_of_cons. intros [Hne Hs]. split; [|by apply IH].
  intros Heq. apply Hne. symmetry. apply lowerAscii_dot. by symmetry.
Qed.

(** X18.  [getFileType] decides by the text after the last dot of the
    file name, whatever its case: the file is a PDF exactly when that
    text, in lower case, is pdf. *)
Theorem getFileType_by_extension (base ext : string) :
  "."%char ∉ list_ascii_of_string ext →
  AIService.getFileType (String.append base (String "." ext))
  = if bool_decide (JS.toLowerCase ext = "pdf"%string) then pdf else image.
Proof.
  intros Hext. unfold AIService.getFileType.
  rewrite toLowerCase_app. cbn [JS.toLowerCase].
  replace (JS.lowerAscii ".") with "."%char by (symmetry; by apply lowerAscii_dot).
  rewrite split_app, (split_whole _ (JS.toLowerCase ext))
    by by apply toLowerCase_no_dot.
  rewrite last_snoc.
  destruct (decide (JS.toLowerCase ext = "pdf"%string)) as [->|Hne].
  - done.
  - rewrite !bool_decide_eq_false_2; [done|done|congruence].
Qed.

(** X18, at a scan whose extension is in upper case. *)
Lemma getFileType_by_extension_witness :
  AIService.getFileType "scan.v2.PDF" = pdf.
Proof.
  apply (getFileType_by_extension "scan.v2" "PDF").
  vm_compute. set_solver.
Defined.

(** ** PackageService: numbering the files *)
Section PackageFacts.
Import PackageService.

Lemma generateFileNames_fold (docs : list DocumentData)
    (fileNames : list (string * string)) (fileNumber : Z) :
  NoDup (id <$> docs) → (∀ d, d ∈ docs → id d ∉ fileNames.*1) →
  fst (foldl (λ (st : list (string * string) * Z) doc,
                let '(fileNames, fileNumber) := st in
                (JS.mapSet (id doc) (newFileName fileNumber doc) fileNames,
                 fileNumber + 1))
             (fileNames, fileNumber) docs)
  = fileNames
    ++ imap (λ k d, (id d, newFileName (fileNumber + Z.of_nat k) d)) docs.
Proof.
  revert fileNames fileNumber.
  induction docs as [|d docs IH]; intros fileNames fileNumber Hnd Hfresh.
  - cbn. by rewrite app_nil_r.
  - rewrite fmap_cons in Hnd. apply NoDup_cons in Hnd as [Hd Hnd].
    cbn [foldl imap].
    rewrite mapSet_fresh by (apply Hfresh, list_elem_of_here).
    rewrite IH; [|done|].
    + rewrite <- app_assoc. cbn [app]. rewrite Z.add_0_r. do 2 f_equal.
      apply imap_ext. intros k x _. cbn. do 2 f_equal. lia.
    + intros x Hx. rewrite fmap_app, fmap_cons. cbn [fst fmap list_fmap].
      intros [Hin|Hin]%elem_of_app.
      * eapply Hfresh; [|done]. by apply list_elem_of_further.
      * apply list_elem_of_singleton in Hin. apply Hd. rewrite <- Hin.
        by apply list_elem_of_fmap_2.
Qed.

Lemma generateFileNames_sorted documents sorting :
  NoDup (id <$> sortedDocs documents sorting) →
  generateFileNames documents sorting
  = imap (λ k d, (id d, newFileName (Z.of_nat k + 1) d))
      (sortedDocs documents sorting).
Proof.
  intros Hnd. unfold generateFileNames.
  rewrite generateFileNames_fold; [|done|intros d _ Hd; by apply elem_of_nil in Hd].
  rewrite app_nil_l. apply imap_ext. intros k d _. cbn. do 2 f_equal. lia.
Qed.




Lemma calculateCategoryTotals_fold (documents : list DocumentData)
    (totals : list (InvoiceType * Q)) (t : InvoiceType) :
  JS.mapGet t
    (foldl (λ totals doc,
              match documentType doc, invoiceType doc with
              | invoice, Some type =>
                  JS.mapSet type
                    (default 0%Q (JS.mapGet type totals) + amount doc)%Q totals
              | _, _ => totals
              end) totals documents)
  = match filter (λ d, isInvoice d ∧ invoiceType d = Some t) documents with
    | [] => JS.mapGet t totals
    | group =>
        Some (foldl Qplus (default 0%Q (JS.mapGet t totals)) (amount <$> group))
    end.
Proof.
  revert totals. induction documents as [|d documents IH]; intros totals; [done|].
  cbn [foldl]. rewrite IH, filter_cons.
  destruct (decide (isInvoice d ∧ invoiceType d = Some t)) as [[Hi Ht]|Hn].
  - unfold isInvoice in Hi. rewrite Hi, Ht, mapGet_mapSet_eq. cbn [default].
    by destruct (filter _ documents).
  - assert (Hsame : JS.mapGet t
                      match documentType d, invoiceType d with
                      | invoice, Some type =>
                          JS.mapSet type
                            (default 0%Q (JS.mapGet type totals) + amount d)%Q totals
                      | _, _ => totals
                      end = JS.mapGet t totals).
    { destruct (documentType d) eqn:Hdt; [|done].
      destruct (invoiceType d) as [type|] eqn:Hit; [|done].
      apply mapGet_mapSet_ne. intros ->. by apply Hn. }
    by rewrite Hsame.
Qed.

(** X21.  The subtotal [calculateCategoryTotals] keeps for a category
    is the sum of the amounts of the invoices of that category, added
    in input order; a category without an invoice has no subtotal, and
    an invoice without a category, like a trip sheet, is counted in no
    subtotal. *)
Theorem calculateCategoryTotals_sums (documents : list DocumentData)
    (t : InvoiceType) :
  JS.mapGet t (calculateCategoryTotals documents)
  = match filter (λ d, isInvoice d ∧ invoiceType d = Some t) documents with
    | [] => None
    | group => Some (foldl Qplus 0%Q (amount <$> group))
    end.
Proof. unfold calculateCategoryTotals. by rewrite calculateCategoryTotals_fold. Qed.
End PackageFacts.

Lemma sortedDocs_ids (documents : list DocumentData) (sorting : SortingResult) :
  (∀ i, i ∈ suggestedOrder sorting → i ∈ id <$> documents) →
  id <$> PackageService.sortedDocs documents sorting = suggestedOrder sorting.
Proof.
  unfold PackageService.sortedDocs.
  induction (suggestedOrder sorting) as [|i order IH]; intros Hall; [done|].
  cbn [omap list_omap].
  destruct (findById i documents) as [d|] eqn:Hf.
  - apply findById_Some in Hf as [_ <-]. rewrite fmap_cons. f_equal.
    apply IH. intros x Hx. apply Hall. by apply list_elem_of_further.
  - apply findById_None in Hf. exfalso. apply Hf, Hall, list_elem_of_here.
Qed.

Lemma sortDocuments_ids_perm (currentYear : Z) (documents : list DocumentData)
    (pairing : PairingResult) :
  NoDup (id <$> documents) → PairsOfDocuments documents pairing →
  suggestedOrder (SortingService.sortDocuments currentYear documents pairing)
  ≡ₚ id <$> documents.
Proof.
  intros Hnd Hp.
  destruct (sortDocuments_units currentYear documents pairing Hnd Hp)
    as (ug & Hug & ->).
  rewrite (bind_perm_pointwise _
             (λ t, id <$> SortingService.flattenUnits (default [] (JS.mapGet t ug)))).
  2:{ intros t. by rewrite sortUnits_perm. }
  rewrite bind_fmap_out, bind_flattenUnits, bind_as_join.
  rewrite <- (grouped_keys _ _ _ Hug), mapGet_over_keys
    by (rewrite (grouped_keys _ _ _ Hug); apply typeKeys_NoDup).
  by rewrite <- (grouped_perm _ _ _ Hug).
Qed.

(** X22.  For documents with distinct ids that are paired by
    [pairDocuments] and ordered by [sortDocuments], [generateFileNames]
    names every document exactly once: its keys are the suggested
    order, and the document at place [k] of that order gets the number
    [k + 1]. *)
Theorem generateFileNames_after_sorting (currentYear : Z)
    (documents : list DocumentData) :
  NoDup (id <$> documents) →
  let sorting :=
    SortingService.sortDocuments currentYear documents
      (PairingService.pairDocuments currentYear documents) in
  let names := PackageService.generateFileNames documents sorting in
  names.*1 = suggestedOrder sorting ∧
  names.*1 ≡ₚ id <$> documents ∧
  ∀ k i, suggestedOrder sorting !! k = Some i →
    ∃ d, d ∈ documents ∧ id d = i ∧
         JS.mapGet i names
         = Some (PackageService.newFileName (Z.of_nat k + 1) d).
Proof.
  intros Hnd sorting names.
  pose proof (sortDocuments_ids_perm currentYear documents _ Hnd
                (pairDocuments_pairs currentYear documents Hnd)) as Hperm.
  fold sorting in Hperm.
  assert (Hids : id <$> PackageService.sortedDocs documents sorting
                 = suggestedOrder sorting).
  { apply sortedDocs_ids. intros i Hi. by rewrite <- Hperm. }
  assert (Hnd' : NoDup (id <$> PackageService.sortedDocs documents sorting))
    by by rewrite Hids, Hperm.
  assert (Hnames : names.*1 = suggestedOrder sorting).
  { unfold names. rewrite generateFileNames_sorted by done.
    rewrite fmap_imap, <- Hids.
    etrans; [|apply (imap_const id)]. by apply imap_ext. }
  split_and!; [done|by rewrite Hnames|].
  intros k i Hk. rewrite <- Hids in Hk.
  apply list_lookup_fmap_Some in Hk as (d & -> & Hd).
  assert (Hin : d ∈ documents).
  { apply list_elem_of_lookup_2 in Hd. unfold PackageService.sortedDocs in Hd.
    apply list_elem_of_omap in Hd as (w & _ & Hf). by apply findById_Some in Hf as [? _]. }
  exists d. split_and!; [done|done|].
  apply mapGet_elem_of; [by rewrite Hnames, Hperm|].
  unfold names. rewrite generateFileNames_sorted by done.
  apply list_elem_of_lookup. exists k. by rewrite list_lookup_imap, Hd.
Qed.





(** X22, at the documents of scenario A. *)
Lemma generateFileNames_after_sorting_witness :
  let sorting :=
    SortingService.sortDocuments 2025 scenarioA
      (PairingService.pairDocuments 2025 scenarioA) in
  let names := PackageService.generateFileNames scenarioA sorting in
  names.*1 = suggestedOrder sorting ∧
  names.*1 ≡ₚ id <$> scenarioA ∧
  ∀ k i, suggestedOrder sorting !! k = Some i →
    ∃ d, d ∈ scenarioA ∧ id d = i ∧
         JS.mapGet i names
         = Some (PackageService.newFileName (Z.of_nat k + 1) d).
Proof. exact (generateFileNames_after_sorting 2025 scenarioA scenarioA_ids). Defined.

(** ** MemoryManager: the cache *)

Lemma StronglySorted_app_cross {A} (R : relation A) (l1 l2 : list A) :
  StronglySorted R (l1 ++ l2) → ∀ x y, x ∈ l1 → y ∈ l2 → R x y.
Proof.
  induction l1 as [|a l1 IH]; intros Hs x y Hx Hy; [by apply elem_of_nil in Hx|].
  cbn [app] in Hs. apply StronglySorted_inv in Hs as [Hs Ha].
  apply elem_of_cons in Hx as [->|Hx]; [|by apply IH].
  rewrite Forall_forall in Ha. apply Ha. apply elem_of_app. by right.
Qed.

Section CacheFacts.
Context {Data : Type}.
Implicit Types (m : MemoryManager.t Data)
  (c : list (string * MemoryManager.CacheEntry Data)).

Import MemoryManager.

Notation older :=
  (λ a b : string * CacheEntry Data, timestamp (snd a) - timestamp (snd b) <=? 0).

Lemma mapGet_mapDelete_eq key c : JS.mapGet key (mapDelete key c) = None.
Proof.
  unfold mapDelete. induction c as [|[k e] c IH]; [done|].
  rewrite filter_cons. cbn [fst].
  destruct (decide (k ≠ key)) as [Hne|Heq]; [|done].
  cbn [JS.mapGet]. by rewrite decide_False.
Qed.

Lemma mapGet_mapDelete_ne key key' c :
  key ≠ key' → JS.mapGet key' (mapDelete key c) = JS.mapGet key' c.
Proof.
  intros Hne. unfold mapDelete. induction c as [|[k e] c IH]; [done|].
  rewrite filter_cons. cbn [fst JS.mapGet].
  destruct (decide (k ≠ key)) as [Hk|Hk].
  - cbn [JS.mapGet]. by rewrite IH.
  - apply dec_stable in Hk as ->. by rewrite decide_False.
Qed.

(** X23.  The cache gives back what was put in: a key that was just
    set yields the data set, whatever had to be evicted to make room;
    a key that was deleted, or any key after [clearAll], yields nothing;
    and deleting a key leaves the data under the other keys alone. *)
Theorem cache_round_trip m (now now' : Z) (key : string) (value : Data)
    (estimatedSizeMB : Q) :
  fst (get now' key (set now key value estimatedSizeMB m)) = Some value ∧
  fst (get now' key (snd (delete key m))) = None ∧
  fst (get now' key (clearAll m)) = None ∧
  ∀ key', key' ≠ key →
    fst (get now' key' (snd (delete key m))) = fst (get now' key' m).
Proof.
  split_and!.
  - unfold get, set. cbn [cache withCache]. by rewrite mapGet_mapSet_eq.
  - unfold get, delete. cbn [snd cache withCache]. by rewrite mapGet_mapDelete_eq.
  - done.
  - intros key' Hne. unfold get, delete. cbn [snd cache withCache].
    rewrite mapGet_mapDelete_ne by done. by destruct (JS.mapGet key' (cache m)).
Qed.

Lemma foldl_mapDelete c (victims : list (string * CacheEntry Data)) :
  foldl (λ c e, mapDelete (fst e) c) c victims
  = filter (λ e, e.1 ∉ victims.*1) c.
Proof.
  revert c. induction victims as [|v victims IH]; intros c.
  - cbn. symmetry. apply filter_all, Forall_forall. intros e _ He.
    by apply elem_of_nil in He.
  - cbn [foldl]. rewrite IH. unfold mapDelete. rewrite list_filter_filter.
    apply list_filter_iff. intros e. rewrite fmap_cons, not_elem_of_cons. naive_solver.
Qed.

(** What [clearOldestEntries] removes and what it keeps: the entries
    sorted by time are cut after the first [count]. *)
Lemma clearOldestEntries_cut (count : nat) m :
  NoDup (cache m).*1 →
  let removed := take count (JS.sort older (cache m)) in
  let kept := drop count (JS.sort older (cache m)) in
  cache (clearOldestEntries count m)
  = filter (λ e, e.1 ∉ removed.*1) (cache m) ∧
  cache (clearOldestEntries count m) ≡ₚ kept ∧
  (∀ r k, r ∈ removed → k ∈ kept → timestamp (snd r) ≤ timestamp (snd k)).
Proof.
  intros Hnd removed kept.
  pose proof (sort_perm older (cache m)) as Hperm.
  assert (Hcut : JS.sort older (cache m) = removed ++ kept)
    by (symmetry; apply take_drop).
  assert (Hnds : NoDup (removed.*1 ++ kept.*1))
    by (by rewrite <- fmap_app, <- Hcut, Hperm).
  assert (Htake : take (Nat.min count (length (JS.sort older (cache m))))
                    (JS.sort older (cache m)) = removed).
  { unfold removed. destruct (Nat.min_spec count (length (JS.sort older (cache m))))
      as [[_ ->]|[Hle ->]]; [done|].
    by rewrite !take_ge by lia. }
  assert (Hfilter : cache (clearOldestEntries count m)
                    = filter (λ e, e.1 ∉ removed.*1) (cache m)).
  { unfold clearOldestEntries. cbn [cache withCache].
    by rewrite Htake, foldl_mapDelete. }
  split_and!.
  - done.
  - rewrite Hfilter, <- Hperm, Hcut, filter_app.
    apply NoDup_app in Hnds as (_ & Hdisj & _).
    rewrite (filter_none _ removed)
      by (apply Forall_forall; intros x Hx Hnot; apply Hnot;
          by apply list_elem_of_fmap_2).
    rewrite (filter_all _ kept); [done|].
    apply Forall_forall. intros x Hx Hin. apply (Hdisj x.1 Hin).
    by apply list_elem_of_fmap_2.
  - intros r k Hr Hk.
    pose proof (sort_sorted older (cache m)) as Hs.
    rewrite Hcut in Hs.
    assert (Hrk : older r k = true).
    { apply (StronglySorted_app_cross (λ a b, older a b = true) removed kept);
        [|done|done].
      apply Hs.
      - intros a b Hab. apply Z.leb_gt in Hab. apply Z.leb_le. lia.
      - intros a b c' Hab Hbc. apply Z.leb_le in Hab, Hbc. apply Z.leb_le. lia. }
    apply Z.leb_le in Hrk. lia.
Qed.

Lemma clearOldestEntries_length (count : nat) m :
  NoDup (cache m).*1 →
  length (cache (clearOldestEntries count m))
  = (length (cache m) - Nat.min count (length (cache m)))%nat.
Proof.
  intros Hnd. destruct (clearOldestEntries_cut count m Hnd) as (_ & -> & _).
  rewrite length_drop, sort_length. lia.
Qed.

Lemma clearOldestEntries_NoDup (count : nat) m :
  NoDup (cache m).*1 → NoDup (cache (clearOldestEntries count m)).*1.
Proof.
  intros Hnd. destruct (clearOldestEntries_cut count m Hnd) as (-> & _ & _).
  eapply sublist_NoDup; [exact Hnd|]. apply fmap_sublist, sublist_filter.
Qed.

Lemma mapSet_length {V} (k : string) (v : V) (l : list (string * V)) :
  (length (JS.mapSet k v l) ≤ S (length l))%nat.
Proof.
  induction l as [|[k0 w] l IH]; cbn [JS.mapSet length]; [lia|].
  destruct (decide (k0 = k)); cbn [length]; lia.
Qed.

(** X24.  [set] keeps the cache within its capacity: from a cache of
    at most [maxCacheSize] entries, with a capacity of at least one,
    it leads to a cache of at most [maxCacheSize] entries, and the
    limits are unchanged. *)
Theorem set_within_capacity m (now : Z) (key : string) (value : Data)
    (estimatedSizeMB : Q) :
  NoDup (cache m).*1 → (0 < maxCacheSize m)%nat →
  (length (cache m) ≤ maxCacheSize m)%nat →
  let m' := set now key value estimatedSizeMB m in
  (length (cache m') ≤ maxCacheSize m')%nat ∧
  NoDup (cache m').*1 ∧
  maxCacheSize m' = maxCacheSize m ∧ maxMemoryMB m' = maxMemoryMB m.
Proof.
  intros Hnd Hpos Hlen. cbn zeta. unfold set.
  destruct (maxCacheSize m <=? length (cache m))%nat eqn:Hfull.
  - apply Nat.leb_le in Hfull.
    pose proof (clearOldestEntries_length 1 m Hnd) as Hl.
    pose proof (clearOldestEntries_NoDup 1 m Hnd) as Hn.
    set (m1 := clearOldestEntries 1 m) in *.
    assert (Hmax : maxCacheSize m1 = maxCacheSize m) by done.
    cbn [cache maxCacheSize maxMemoryMB withCache]. split_and!; try done.
    + pose proof (mapSet_length key
                    {| data := value; timestamp := now; size := estimatedSizeMB |}
                    (cache m1)). lia.
    + by apply mapSet_NoDup_keys.
  - apply Nat.leb_gt in Hfull.
    cbn [cache maxCacheSize maxMemoryMB withCache]. split_and!; try done.
    + pose proof (mapSet_length key
                    {| data := value; timestamp := now; size := estimatedSizeMB |}
                    (cache m)). lia.
    + by apply mapSet_NoDup_keys.
Qed.

(** X25.  [clearOldestEntries] removes the [count] entries that were
    used longest ago, or all of them when there are fewer: what it
    keeps is part of the cache in its order, the number of entries
    drops by [count] or to zero, and no entry it removes is newer than
    an entry it keeps.  [monitorAndClean] leaves the cache alone while
    the heap in use, rounded to megabytes, is within the limit. *)
Theorem clearOldestEntries_oldest (count : nat) m :
  NoDup (cache m).*1 →
  let m' := clearOldestEntries count m in
  cache m' `sublist_of` cache m ∧
  length (cache m') = (length (cache m) - count)%nat ∧
  (∀ removed kept, removed ∈ cache m → removed ∉ cache m' → kept ∈ cache m' →
     timestamp (snd removed) ≤ timestamp (snd kept)) ∧
  ∀ heapUsedBytes, megabytes heapUsedBytes ≤ maxMemoryMB m →
    monitorAndClean m heapUsedBytes = m.
Proof.
  intros Hnd. cbn zeta.
  destruct (clearOldestEntries_cut count m Hnd) as (Hfilter & Hkept & Hold).
  split_and!.
  - rewrite Hfilter. apply sublist_filter.
  - rewrite clearOldestEntries_length by done. lia.
  - intros removed kept Hin Hout Hk. apply Hold.
    + rewrite <- (sort_perm older (cache m)) in Hin.
      rewrite <- (take_drop count (JS.sort older (cache m))) in Hin.
      apply elem_of_app in Hin as [Hin|Hin]; [done|].
      exfalso. apply Hout. by rewrite Hkept.
    + by rewrite <- Hkept.
  - intros heapUsedBytes Hheap. unfold monitorAndClean, isMemoryExceeded.
    by rewrite (proj2 (Z.ltb_ge _ _)).
Qed.
End CacheFacts.

Definition sampleCache : MemoryManager.t string :=
  {| MemoryManager.cache :=
       [ ("s1:a", {| MemoryManager.data := "A"; MemoryManager.timestamp := 30;
                     MemoryManager.size := 1 |});
         ("s1:b", {| MemoryManager.data := "B"; MemoryManager.timestamp := 10;
                     MemoryManager.size := 1 |}) ]%string;
     MemoryManager.maxMemoryMB := 500;
     MemoryManager.maxCacheSize := 2 |}.

Lemma sampleCache_keys : NoDup (MemoryManager.cache sampleCache).*1.
Proof. apply NoDup_cons_2; [set_solver|apply NoDup_singleton]. Defined.

(** X24, at a full cache of two entries. *)
Lemma set_within_capacity_witness :
  let m' := MemoryManager.set 40 "s2:c" "C"%string 1 sampleCache in
  (length (MemoryManager.cache m') ≤ MemoryManager.maxCacheSize m')%nat ∧
  NoDup (MemoryManager.cache m').*1 ∧
  MemoryManager.maxCacheSize m' = 2%nat ∧ MemoryManager.maxMemoryMB m' = 500.
Proof.
  apply (set_within_capacity sampleCache 40 "s2:c" "C"%string 1).
  - exact sampleCache_keys.
  - cbn. lia.
  - cbn. lia.
Defined.

(** X25, at a cache of two entries of which one is to go. *)
Lemma clearOldestEntries_oldest_witness :
  let m' := MemoryManager.clearOldestEntries 1 sampleCache in
  MemoryManager.cache m' `sublist_of` MemoryManager.cache sampleCache ∧
  length (MemoryManager.cache m') = 1%nat ∧
  (∀ removed kept,
     removed ∈ MemoryManager.cache sampleCache →
     removed ∉ MemoryManager.cache m' → kept ∈ MemoryManager.cache m' →
     MemoryManager.timestamp (snd removed) ≤ MemoryManager.timestamp (snd kept)) ∧
  ∀ heapUsedBytes, MemoryManager.megabytes heapUsedBytes ≤ 500 →
    MemoryManager.monitorAndClean sampleCache heapUsedBytes = sampleCache.
Proof. exact (clearOldestEntries_oldest 1 sampleCache sampleCache_keys). Defined.

(** ** FileService: what comes out of the conversion *)
Section FileFacts.
Context {Buffer : Type}.
Variable pdfToImages : Buffer → string → FileError.t + list Buffer.
Variable compressImage : Buffer → string → FileError.t + Buffer.
Variable toBase64 : Buffer → string.

Import FileService.

Lemma compressPages_length (imageBuffers : list Buffer) (name : string)
    (base64Images out : list string) :
  compressPages compressImage toBase64 imageBuffers name base64Images = inr out →
  length out = (length base64Images + length imageBuffers)%nat.
Proof.
  revert base64Images. induction imageBuffers as [|b rest IH]; intros acc Hout.
  - cbn in Hout. inversion Hout; subst. cbn. lia.
  - cbn [compressPages] in Hout. destruct (compressImage b name); [done|].
    apply IH in Hout. rewrite Hout, length_app. cbn. lia.
Qed.

(** X26.  [processFileToBase64] only returns images for a file that
    passes [validateFile]: one of at most 10 MB whose type is JPEG, PNG
    or PDF.  A PDF gives one image for each page [pdfToImages] cuts it
    into, any other accepted file gives exactly one image. *)
Theorem processFileToBase64_images (file : Upload Buffer) (images : list string) :
  processFileToBase64 pdfToImages compressImage toBase64 file = inr images →
  size file ≤ 10 * 1024 * 1024 ∧
  mimetype file ∈ ["image/jpeg"; "image/jpg"; "image/png"; "application/pdf"]%string ∧
  if bool_decide (mimetype file = "application/pdf"%string)
  then ∃ pages, pdfToImages (buffer file) (originalname file) = inr pages ∧
                length images = length pages
  else length images = 1%nat.
Proof.
  unfold processFileToBase64, validateFile, MAX_FILE_SIZE, ALLOWED_MIME_TYPES.
  destruct (10 * 1024 * 1024 <? size file) eqn:Hsize; [done|].
  apply Z.ltb_ge in Hsize.
  destruct (bool_decide (mimetype file ∈ _)) eqn:Htype; [|done].
  apply bool_decide_eq_true in Htype.
  destruct (bool_decide (mimetype file = "application/pdf"%string)).
  - destruct (pdfToImages (buffer file) (originalname file)) as [e|pages]; [done|].
    intros Hout. apply compressPages_length in Hout.
    split_and!; [done|done|]. exists pages. split; [done|]. by rewrite Hout.
  - destruct (compressImage (buffer file) (originalname file)); [done|].
    intros [= <-]. done.
Qed.
End FileFacts.

(** X26, at a PDF of two pages. *)
Lemma processFileToBase64_images_witness :
  let file := {| FileService.originalname := "scan.pdf";
                 FileService.mimetype := "application/pdf";
                 FileService.size := 204800;
                 FileService.buffer := "JVBERi0x" |}%string in
  FileService.size file ≤ 10 * 1024 * 1024 ∧
  FileService.mimetype file
    ∈ ["image/jpeg"; "image/jpg"; "image/png"; "application/pdf"]%string ∧
  ∃ pages, (inr [FileService.buffer file; FileService.buffer file]
            : FileError.t + list string) = inr pages ∧
           length ["JVBERi0x"; "JVBERi0x"]%string = length pages.
Proof.
  exact (processFileToBase64_images (λ b _, inr [b; b]) (λ b _, inr b) (λ b, b)
           {| FileService.originalname := "scan.pdf";
              FileService.mimetype := "application/pdf";
              FileService.size := 204800;
              FileService.buffer := "JVBERi0x"%string |}
           ["JVBERi0x"; "JVBERi0x"]%string eq_refl).
Defined.
